(** * FDRS planning engine: a shallow embedding of the planner modules

    The development follows the Python modules of the repository:
    [cluster_state.py], [load_evaluator.py], [constraint_manager.py] and
    [migration_planner.py].  Python objects become records, dictionaries
    that are only looked up become [gmap]s, dictionaries that are iterated
    keep their insertion order as association lists, attributes that the
    code mutates are threaded explicitly, and the places where a Python
    exception is at stake are modelled with a result type: true division
    by zero, a call of a method that the logger does not have, and
    arithmetic on [None].

    Numbers: Python [int]s are [Z]; every other number (usages, capacities,
    percentages) is an exact rational [Q], so the rounding error of binary
    floating point is outside the model.  Names are strings of 8-bit
    characters.  Logging is left out, but for the calls that raise. *)

From Stdlib Require Import ZArith QArith Qround String Ascii List Bool Lia.
From stdpp Require Import gmap strings list pretty.

Local Open Scope string_scope.
Local Open Scope list_scope.
Local Open Scope Z_scope.

(** ** Python primitives used by the planner *)

Module Py.

(** The exceptions the modelled code can raise. *)
Inductive exn := ZeroDivisionError | AttributeError | TypeError.

(** The outcome of a computation that may raise. *)
Inductive result (A : Type) :=
| Ok (a : A)
| Raise (e : exn).
Arguments Ok {A} a.
Arguments Raise {A} e.

Definition bind {A B} (r : result A) (k : A -> result B) : result B :=
  match r with
  | Ok a => k a
  | Raise e => Raise e
  end.

Definition Qlt_bool (x y : Q) : bool := negb (Qle_bool y x).

(** [a / b]: true division raises on a zero divisor. *)
Definition truediv (a b : Q) : result Q :=
  if Qeq_bool b 0 then Raise ZeroDivisionError else Ok (a / b)%Q.

(** [int(x)] truncates towards zero. *)
Definition int (x : Q) : Z := Z.quot (Qnum x) (Zpos (Qden x)).

(** [round(x, 2)], ties to the even neighbour. *)
Definition round_half_even (y : Q) : Z :=
  let f := Qfloor y in
  let r := (y - inject_Z f)%Q in
  if Qlt_bool r (1 # 2) then f
  else if Qlt_bool (1 # 2) r then f + 1
  else if Z.even f then f else f + 1.

Definition round2 (x : Q) : Q :=
  Qred (inject_Z (round_half_even (x * 100)) / 100)%Q.

(** [l[:n]] for an integer [n] of either sign. *)
Definition slice_to {A} (n : Z) (l : list A) : list A :=
  if 0 <=? n then take (Z.to_nat n) l
  else take (length l - Z.to_nat (- n))%nat l.

(** [s[:-2]] *)
Definition drop_last2 (s : string) : string :=
  string_of_list_ascii (slice_to (-2) (list_ascii_of_string s)).

Definition is_digit (c : ascii) : bool :=
  let n := nat_of_ascii c in (48 <=? n)%nat && (n <=? 57)%nat.

Fixpoint rstrip_digits_list (l : list ascii) : list ascii :=
  match l with
  | [] => []
  | c :: l' =>
      match rstrip_digits_list l' with
      | [] => if is_digit c then [] else [c]
      | r => c :: r
      end
  end.

(** [s.rstrip('0123456789')] *)
Definition rstrip_digits (s : string) : string :=
  string_of_list_ascii (rstrip_digits_list (list_ascii_of_string s)).

(** [min(c :: cs)] and [max(c :: cs)] of a non-empty sequence. *)
Definition minZ (c : Z) (cs : list Z) : Z := fold_left Z.min cs c.
Definition maxZ (c : Z) (cs : list Z) : Z := fold_left Z.max cs c.
Definition minQ (c : Q) (cs : list Q) : Q :=
  fold_left (fun m x => if Qlt_bool x m then x else m) cs c.
Definition maxQ (c : Q) (cs : list Q) : Q :=
  fold_left (fun m x => if Qlt_bool m x then x else m) cs c.
Definition sumQ (l : list Q) : Q := fold_left Qplus l 0%Q.

(** [l.sort(key=key, reverse=True)]: a stable sort, largest key first,
    equal keys staying in their original order. *)
Fixpoint insert_desc {A} (key : A -> Q) (x : A) (l : list A) : list A :=
  match l with
  | [] => [x]
  | y :: l' =>
      if Qlt_bool (key x) (key y) then y :: insert_desc key x l'
      else x :: y :: l'
  end.

Definition sort_desc {A} (key : A -> Q) (l : list A) : list A :=
  fold_right (insert_desc key) [] l.

(** Dictionaries whose iteration order matters keep their insertion
    order. *)
Section odict.
Context {V : Type}.

Fixpoint od_get (k : string) (d : list (string * V)) : option V :=
  match d with
  | [] => None
  | (k', v) :: d' => if String.eqb k k' then Some v else od_get k d'
  end.

(** [d[k] = v] *)
Fixpoint od_set (k : string) (v : V) (d : list (string * V))
  : list (string * V) :=
  match d with
  | [] => [(k, v)]
  | (k', v') :: d' =>
      if String.eqb k k' then (k, v) :: d' else (k', v') :: od_set k v d'
  end.

(** [k in d] *)
Definition od_mem (k : string) (d : list (string * V)) : bool :=
  match od_get k d with Some _ => true | None => false end.

(** [d.get(k, dflt)] *)
Definition od_get_default (k : string) (dflt : V) (d : list (string * V)) : V :=
  match od_get k d with Some v => v | None => dflt end.
End odict.

(** [d.get(k, dflt)] on a dictionary that is only looked up. *)
Definition dget (d : gmap string Q) (k : string) (dflt : Q) : Q :=
  match d !! k with Some v => v | None => dflt end.

(** [not d] for a dictionary. *)
Definition dict_empty {V} (d : gmap string V) : bool :=
  match map_to_list d with [] => true | _ => false end.

End Py.

Import Py.

#[export] Instance result_ret : MRet Py.result := @Py.Ok.
#[export] Instance result_bind : MBind Py.result :=
  fun A B k r => Py.bind r k.

(** ** Managed objects

    A host or VM object of the inventory carries its managed-object id
    ([_moId]) and its [name]; a VM also carries [runtime.host] and
    [config.template]. *)

Record Host := {
  host_moId : string;
  host_name : string;
}.

Record VM := {
  vm_moId : string;
  vm_name : string;
  vm_runtime_host : option Host;
  vm_config_template : bool;
}.

#[export] Instance Host_eq_dec : EqDecision Host.
Proof. solve_decision. Defined.

#[export] Instance VM_eq_dec : EqDecision VM.
Proof. solve_decision. Defined.

(** The percentages of one host, [{'cpu': _, 'memory': _, 'disk': _,
    'network': _}]. *)
Record pct_entry := {
  pct_cpu : Q;
  pct_memory : Q;
  pct_disk : Q;
  pct_network : Q;
}.

(** [entry.get(r)] and [r in entry] *)
Definition pct_get (e : pct_entry) (r : string) : option Q :=
  if String.eqb r "cpu" then Some (pct_cpu e)
  else if String.eqb r "memory" then Some (pct_memory e)
  else if String.eqb r "disk" then Some (pct_disk e)
  else if String.eqb r "network" then Some (pct_network e)
  else None.

(** One element of [LoadEvaluator.hosts]: a dictionary with an optional
    ['name'] and numeric entries, or something that is not a dictionary. *)
Inductive host_entry :=
| NotADict
| HostDict (name : option string) (d : gmap string Q).

(** One entry of a migration plan, [{'vm': _, 'target_host': _,
    'reason': _}].  The reason is either the string ['Anti-Affinity'] or
    a text starting with ['Resource Balancing'], of which the names of the
    resources that triggered the move are kept. *)
Inductive reason :=
| Anti_Affinity
| Resource_Balancing (details : list string).

Record migration := {
  plan_vm : VM;
  plan_target_host : Host;
  plan_reason : reason;
}.

(** [m.get('reason') == 'Anti-Affinity'] *)
Definition is_anti_affinity (m : migration) : bool :=
  match plan_reason m with
  | Anti_Affinity => true
  | Resource_Balancing _ => false
  end.

(** ** cluster_state.py *)

Module ClusterState.

Record t := {
  vms : list VM;
  hosts : list Host;
  vm_metrics : gmap string (gmap string Q);
  host_metrics : gmap string (gmap string Q);
}.

Definition get_host_of_vm (vm_object : VM) : option Host :=
  vm_runtime_host vm_object.

Definition get_vms_on_host (self : t) (host_object : Host) : list VM :=
  if String.eqb (host_moId host_object) "" then []
  else
    filter (fun vm_obj =>
              match get_host_of_vm vm_obj with
              | Some host_of_vm =>
                  negb (String.eqb (host_moId host_of_vm) "")
                  && String.eqb (host_moId host_of_vm) (host_moId host_object)
              | None => false
              end = true)
           (vms self).

Definition get_host_by_name (self : t) (name : string) : option Host :=
  find (fun host_obj => String.eqb (host_name host_obj) name) (hosts self).

(** The ['hosts'] part of [get_cluster_state], which the front end
    hands to the load evaluator. *)
Definition host_info (self : t) (host_obj : Host) : host_entry :=
  let host_metrics_data := default ∅ (host_metrics self !! host_name host_obj) in
  let copy (k : string) := (k, dget host_metrics_data k 0) in
  HostDict (Some (host_name host_obj))
    (list_to_map
       [copy "cpu_usage"; copy "memory_usage"; copy "disk_io_usage";
        copy "network_io_usage"; copy "cpu_capacity"; copy "memory_capacity";
        copy "disk_io_capacity"; copy "network_capacity"]).

Definition get_cluster_state_hosts (self : t) : list host_entry :=
  map (host_info self) (hosts self).

End ClusterState.

(** ** load_evaluator.py *)

Module LoadEvaluator.

Definition percentage_lists : Type := list Q * list Q * list Q * list Q.

Record t := {
  hosts : list host_entry;
  _cache_percentage_lists : option percentage_lists;
}.

Definition set_cache (self : t) (c : option percentage_lists) : t :=
  {| hosts := hosts self; _cache_percentage_lists := c |}.

(** [(usage / capacity * 100.0) if capacity > 0 else 0.0] *)
Definition percentage (usage capacity : Q) : result Q :=
  if Qlt_bool 0 capacity
  then q ← truediv usage capacity; mret (q * 100)%Q
  else mret 0%Q.

(** One turn of the loop over [self.hosts]. *)
Definition percentage_step (acc : percentage_lists) (host_data : host_entry)
  : result percentage_lists :=
  let '(cpu_percentages, mem_percentages, disk_percentages, net_percentages) := acc in
  match host_data with
  | NotADict =>
      mret (cpu_percentages ++ [0%Q], mem_percentages ++ [0%Q],
            disk_percentages ++ [0%Q], net_percentages ++ [0%Q])
  | HostDict _ d =>
      cpu_perc ← percentage (dget d "cpu_usage" 0) (dget d "cpu_capacity" 0);
      mem_perc ← percentage (dget d "memory_usage" 0) (dget d "memory_capacity" 0);
      disk_perc ← percentage (dget d "disk_io_usage" 0) (dget d "disk_io_capacity" 0);
      net_perc ← percentage (dget d "network_io_usage" 0) (dget d "network_capacity" 0);
      mret (cpu_percentages ++ [cpu_perc], mem_percentages ++ [mem_perc],
            disk_percentages ++ [disk_perc], net_percentages ++ [net_perc])
  end.

Fixpoint percentage_loop (l : list host_entry) (acc : percentage_lists)
  : result percentage_lists :=
  match l with
  | [] => mret acc
  | host_data :: l' =>
      acc' ← percentage_step acc host_data;
      percentage_loop l' acc'
  end.

Definition get_resource_percentage_lists (self : t)
  : result (percentage_lists * t) :=
  match _cache_percentage_lists self with
  | Some c => mret (c, self)
  | None =>
      match hosts self with
      | [] => mret (([], [], [], []), set_cache self (Some ([], [], [], [])))
      | _ =>
          r ← percentage_loop (hosts self) ([], [], [], []);
          mret (r, set_cache self (Some r))
      end
  end.

Definition threshold_value (aggressiveness : Z) : Q :=
  if aggressiveness =? 5 then 5
  else if aggressiveness =? 4 then 10
  else if aggressiveness =? 3 then 15
  else if aggressiveness =? 2 then 20
  else if aggressiveness =? 1 then 25
  else 15.

Definition get_thresholds (aggressiveness : Z) : list (string * Q) :=
  let v := threshold_value aggressiveness in
  [("cpu", v); ("memory", v); ("disk", v); ("network", v)].

Record imbalance_detail := {
  is_imbalanced : bool;
  current_diff : Q;
  threshold : Q;
  min_usage : Q;
  max_usage : Q;
  avg_usage : Q;
  all_percentages : list Q;
}.

(** The body of the loop over [metrics_to_check]. *)
Definition evaluate_resource (all_metrics_data allowed_thresholds : list (string * _))
    (resource_name : string) : result imbalance_detail :=
  let percentages : list Q := od_get_default resource_name [] all_metrics_data in
  match od_get resource_name allowed_thresholds with
  | None =>
      mret {| is_imbalanced := false; current_diff := 0; threshold := 0;
              min_usage := 0; max_usage := 0; avg_usage := 0;
              all_percentages := [] |}
  | Some resource_threshold =>
      match percentages with
      | p :: (_ :: _) as ps =>
          let current_min_usage := minQ p ps in
          let current_max_usage := maxQ p ps in
          current_avg_usage ←
            truediv (sumQ percentages) (inject_Z (Z.of_nat (length percentages)));
          let current_diff := (current_max_usage - current_min_usage)%Q in
          mret {| is_imbalanced := Qlt_bool resource_threshold current_diff;
                  current_diff := round2 current_diff;
                  threshold := resource_threshold;
                  min_usage := round2 current_min_usage;
                  max_usage := round2 current_max_usage;
                  avg_usage := round2 current_avg_usage;
                  all_percentages := map round2 percentages |}
      | _ =>
          mret {| is_imbalanced := false; current_diff := 0;
                  threshold := resource_threshold;
                  min_usage := 0; max_usage := 0; avg_usage := 0;
                  all_percentages := percentages |}
      end
  end.

Fixpoint evaluate_loop (all_metrics_data allowed_thresholds : list (string * _))
    (metrics : list string) (imbalance_results : list (string * imbalance_detail))
  : result (list (string * imbalance_detail)) :=
  match metrics with
  | [] => mret imbalance_results
  | resource_name :: metrics' =>
      d ← evaluate_resource all_metrics_data allowed_thresholds resource_name;
      evaluate_loop all_metrics_data allowed_thresholds metrics'
        (od_set resource_name d imbalance_results)
  end.

Definition evaluate_imbalance (self : t) (metrics_to_check : option (list string))
    (aggressiveness : Z)
    (cpu_percentages_override mem_percentages_override
     disk_percentages_override net_percentages_override : option (list Q))
  : result (list (string * imbalance_detail) * t) :=
  '(lists, self') ←
    match cpu_percentages_override, mem_percentages_override,
          disk_percentages_override, net_percentages_override with
    | Some c, Some m, Some d, Some n => mret ((c, m, d, n), self)
    | _, _, _, _ => get_resource_percentage_lists self
    end;
  let '(cpu_percentages, mem_percentages, disk_percentages, net_percentages) := lists in
  let all_metrics_data :=
    [("cpu", cpu_percentages); ("memory", mem_percentages);
     ("disk", disk_percentages); ("network", net_percentages)] in
  let metrics_to_check :=
    default ["cpu"; "memory"; "disk"; "network"] metrics_to_check in
  let allowed_thresholds := get_thresholds aggressiveness in
  r ← evaluate_loop all_metrics_data allowed_thresholds metrics_to_check [];
  mret (r, self').

(** [is_balanced()], whose aggressiveness defaults to 3. *)
Definition is_balanced (self : t) (metrics : option (list string))
    (aggressiveness : Z) : result (bool * t) :=
  '(imbalance_details, self') ←
    evaluate_imbalance self metrics aggressiveness None None None None;
  mret (forallb (fun kv => negb (is_imbalanced (snd kv))) imbalance_details, self').

(** The name [get_all_host_resource_percentages_map] gives to the
    entry at index [i]. *)
Definition map_host_name (i : nat) (host_data : host_entry) : string :=
  match host_data with
  | HostDict (Some name) _ =>
      if String.eqb name "" then "unknown_host_" +:+ pretty i else name
  | HostDict None _ => "unknown_host_" +:+ pretty i
  | NotADict => "invalid_host_data_" +:+ pretty i
  end.

(** The loop [for i, hn in enumerate(host_names)] that fills the map. *)
Fixpoint fill_map (i : nat) (host_names : list string) (lists : percentage_lists)
    (result_map : gmap string pct_entry) : gmap string pct_entry :=
  match host_names with
  | [] => result_map
  | hn :: host_names' =>
      let '(cpu_p, mem_p, disk_p, net_p) := lists in
      let e :=
        match cpu_p !! i, mem_p !! i, disk_p !! i, net_p !! i with
        | Some c, Some m, Some d, Some n =>
            {| pct_cpu := c; pct_memory := m; pct_disk := d; pct_network := n |}
        | _, _, _, _ =>
            {| pct_cpu := 0; pct_memory := 0; pct_disk := 0; pct_network := 0 |}
        end in
      fill_map (S i) host_names' lists (<[hn := e]> result_map)
  end.

Definition get_all_host_resource_percentages_map (self : t)
  : result (gmap string pct_entry * t) :=
  '(lists, self') ← get_resource_percentage_lists self;
  let host_names := imap map_host_name (hosts self) in
  mret (fill_map 0 host_names lists ∅, self').

End LoadEvaluator.

(** ** constraint_manager.py *)

Module ConstraintManager.

Import ClusterState.

(** The attributes the planner reads and writes.  [_vm_prefix_cache]
    only memoises [_get_vm_prefix] and is not represented. *)
Record t := {
  vm_distribution : list (string * list VM);
  violations : list VM;
}.

(** [vm_name.rstrip('0123456789') or vm_name] *)
Definition _get_vm_prefix (vm_name : string) : string :=
  let p := rstrip_digits vm_name in
  if String.eqb p "" then vm_name else p.

Definition group_vm (d : list (string * list VM)) (vm : VM)
  : list (string * list VM) :=
  if (String.length (vm_name vm) <? 1)%nat then d
  else
    let short_name := _get_vm_prefix (vm_name vm) in
    od_set short_name (od_get_default short_name [] d ++ [vm]) d.

Definition enforce_anti_affinity (cs : ClusterState.t) (self : t) : t :=
  {| vm_distribution := fold_left group_vm (vms cs) [];
     violations := violations self |}.

(** [{host.name: v for host in active_hosts}] *)
Definition by_host_name {V} (v : V) (active_hosts : list Host)
  : list (string * V) :=
  fold_left (fun d host => od_set (host_name host) v d) active_hosts [].

(** [d[k] += 1] guarded by [k in d]. *)
Definition incr_if_present (k : string) (delta : Z) (d : list (string * Z))
  : list (string * Z) :=
  match od_get k d with
  | Some c => od_set k (c + delta) d
  | None => d
  end.

Definition count_group_step
    (st : list (string * Z) * list (string * list VM) * Z) (vm : VM)
  : list (string * Z) * list (string * list VM) * Z :=
  let '(host_vm_counts, vms_on_hosts_map, current_group_vms_on_hosts) := st in
  match get_host_of_vm vm with
  | Some host =>
      if od_mem (host_name host) host_vm_counts then
        (incr_if_present (host_name host) 1 host_vm_counts,
         od_set (host_name host)
           (od_get_default (host_name host) [] vms_on_hosts_map ++ [vm])
           vms_on_hosts_map,
         current_group_vms_on_hosts + 1)
      else st
  | None => st
  end.

(** The counts of the active hosts, in host order:
    [[counts[h.name] for h in active_hosts if h.name in counts]]. *)
Definition counts_of_hosts (active_hosts : list Host) (counts : list (string * Z))
  : list Z :=
  omap (fun h => od_get (host_name h) counts) active_hosts.

(** The body of the loop over the groups: the VMs one group adds to
    [all_violations]. *)
Definition group_violations (active_hosts : list Host) (vms_in_group : list VM)
  : list VM :=
  match vms_in_group with
  | [] => []
  | _ =>
      let '(host_vm_counts, vms_on_hosts_map, current_group_vms_on_hosts) :=
        fold_left count_group_step vms_in_group
          (by_host_name 0 active_hosts, by_host_name [] active_hosts, 0) in
      if current_group_vms_on_hosts =? 0 then []
      else
        match counts_of_hosts active_hosts host_vm_counts with
        | [] => []
        | c :: cs =>
            let min_count := minZ c cs in
            let max_count := maxZ c cs in
            if 1 <? max_count - min_count then
              flat_map
                (fun '(host_name, count) =>
                   if count =? max_count
                   then od_get_default host_name [] vms_on_hosts_map
                   else [])
                host_vm_counts
            else []
        end
  end.

(** [list(set(l))]: the duplicates are dropped and the elements come in
    the iteration order of the set, which depends on the hashes of the
    objects; [set_order] stands for that order. *)
Definition list_of_set (set_order : list VM -> list VM) (l : list VM) : list VM :=
  set_order (remove_dups l).

Definition calculate_anti_affinity_violations (set_order : list VM -> list VM)
    (cs : ClusterState.t) (self : t) : list VM :=
  let active_hosts := hosts cs in
  if (length active_hosts <=? 1)%nat then []
  else
    list_of_set set_order
      (flat_map (fun '(prefix, vms_in_group) =>
                   group_violations active_hosts vms_in_group)
                (vm_distribution self)).

Definition base_count_step (d : list (string * Z)) (vm_in_group_iter : VM)
  : list (string * Z) :=
  match get_host_of_vm vm_in_group_iter with
  | Some h_iter => incr_if_present (host_name h_iter) 1 d
  | None => d
  end.

(** The body of the loop over [planned_migrations_this_cycle]. *)
Definition adjust_step (vm_prefix : string) (adjusted : list (string * Z))
    (plan : migration) : list (string * Z) :=
  let planned_vm_obj := plan_vm plan in
  let planned_vm_prefix :=
    let p := rstrip_digits (vm_name planned_vm_obj) in
    if String.eqb p "" then vm_name planned_vm_obj else p in
  if String.eqb planned_vm_prefix vm_prefix then
    let original_host_of_planned_vm := get_host_of_vm planned_vm_obj in
    let a1 :=
      match original_host_of_planned_vm with
      | Some o => incr_if_present (host_name o) (-1) adjusted
      | None => adjusted
      end in
    let a2 := incr_if_present (host_name (plan_target_host plan)) 1 a1 in
    match original_host_of_planned_vm with
    | Some o =>
        if od_get_default (host_name o) 0 a2 <? 0
        then od_set (host_name o) 0 a2
        else a2
    | None => a2
    end
  else adjusted.

(** The counts after the simulated move of one VM of the group from
    [source_host_name] to [target_host_name]. *)
Definition simulate_move (current_host_group_counts : list (string * Z))
    (source_host_name target_host_name : string) : list (string * Z) :=
  let s1 :=
    od_set source_host_name
      (od_get_default source_host_name 1 current_host_group_counts - 1)
      current_host_group_counts in
  od_set target_host_name (od_get_default target_host_name 0 s1 + 1) s1.

(** Whether the first loop of [_find_perfect_balance_host] appends
    [target_host_obj] to [perfect_balance_candidates]. *)
Definition is_perfect_balance_candidate
    (current_host_group_counts : list (string * Z)) (source_host_name : string)
    (active_hosts : list Host) (target_host_obj : Host) : bool :=
  if String.eqb (host_name target_host_obj) source_host_name then false
  else
    let simulated_host_vm_counts :=
      simulate_move current_host_group_counts source_host_name
        (host_name target_host_obj) in
    match counts_of_hosts active_hosts simulated_host_vm_counts with
    | [] => false
    | c :: cs => maxZ c cs - minZ c cs <=? 1
    end.

(** One candidate against the best so far; the running minimum starts
    at [float('inf')], here [None]. *)
Definition pick_step (current_host_group_counts : list (string * Z))
    (st : option Z * option Host) (candidate_host_obj : Host)
  : option Z * option Host :=
  let '(lowest, best_target_host_obj) := st in
  let current_count_on_candidate :=
    od_get_default (host_name candidate_host_obj) 0 current_host_group_counts in
  let lt := match lowest with
            | None => true
            | Some l => current_count_on_candidate <? l
            end in
  let eq := match lowest with
            | None => false
            | Some l => current_count_on_candidate =? l
            end in
  if lt then (Some current_count_on_candidate, Some candidate_host_obj)
  else if eq then
    match best_target_host_obj with
    | Some b =>
        if String.ltb (host_name candidate_host_obj) (host_name b)
        then (lowest, Some candidate_host_obj)
        else st
    | None => (lowest, Some candidate_host_obj)
    end
  else st.

Definition _find_perfect_balance_host
    (current_host_group_counts : list (string * Z)) (source_host_name : string)
    (active_hosts : list Host) : option Host :=
  let perfect_balance_candidates :=
    filter (fun h => is_perfect_balance_candidate current_host_group_counts
                       source_host_name active_hosts h = true) active_hosts in
  snd (fold_left (pick_step current_host_group_counts)
         perfect_balance_candidates (None, None)).

Definition better_step (current_host_group_counts : list (string * Z))
    (source_host_name : string) (source_host_group_count : Z)
    (st : option Z * option Host) (target_host_obj : Host)
  : option Z * option Host :=
  if String.eqb (host_name target_host_obj) source_host_name then st
  else if od_get_default (host_name target_host_obj) 0 current_host_group_counts
          <? source_host_group_count
  then pick_step current_host_group_counts st target_host_obj
  else st.

Definition _find_better_than_source_host
    (current_host_group_counts : list (string * Z)) (source_host_name : string)
    (source_host_group_count : Z) (active_hosts : list Host) : option Host :=
  snd (fold_left (better_step current_host_group_counts source_host_name
                    source_host_group_count)
         active_hosts (None, None)).

Definition adjusted_counts (active_hosts : list Host) (vms_in_group : list VM)
    (vm_prefix : string) (planned_migrations_this_cycle : list migration)
  : list (string * Z) :=
  let base_host_group_counts :=
    fold_left base_count_step vms_in_group (by_host_name 0 active_hosts) in
  fold_left (adjust_step vm_prefix) planned_migrations_this_cycle
    base_host_group_counts.

Definition get_preferred_host_for_vm (cs : ClusterState.t) (self : t)
    (vm_to_move : VM) (planned_migrations_this_cycle : list migration)
  : option Host * t :=
  if (String.length (vm_name vm_to_move) <? 3)%nat then (None, self)
  else
    let vm_prefix := _get_vm_prefix (vm_name vm_to_move) in
    let self :=
      match vm_distribution self with
      | [] => enforce_anti_affinity cs self
      | _ => self
      end in
    match vm_distribution self with
    | [] => (None, self)
    | _ =>
        match od_get vm_prefix (vm_distribution self) with
        | None | Some [] => (None, self)
        | Some vms_in_group =>
            match get_host_of_vm vm_to_move with
            | None => (None, self)
            | Some source_host_obj =>
                let source_host_name := host_name source_host_obj in
                let active_hosts := hosts cs in
                if (length active_hosts <=? 1)%nat then (None, self)
                else
                  let adjusted_host_group_counts :=
                    adjusted_counts active_hosts vms_in_group vm_prefix
                      planned_migrations_this_cycle in
                  match _find_perfect_balance_host adjusted_host_group_counts
                          source_host_name active_hosts with
                  | Some best_target_host_obj => (Some best_target_host_obj, self)
                  | None =>
                      let adjusted_source_host_group_count :=
                        od_get_default source_host_name 0 adjusted_host_group_counts in
                      (_find_better_than_source_host adjusted_host_group_counts
                         source_host_name adjusted_source_host_group_count
                         active_hosts,
                       self)
                  end
            end
        end
    end.

Definition apply (set_order : list VM -> list VM) (cs : ClusterState.t) (self : t) : t :=
  let self := enforce_anti_affinity cs self in
  {| vm_distribution := vm_distribution self;
     violations := calculate_anti_affinity_violations set_order cs self |}.

End ConstraintManager.

(** ** migration_planner.py *)

Module MigrationManager.

Import ClusterState.

(** The planner's own attributes; the cluster state, the constraint
    manager and the load evaluator it refers to are passed along. *)
Record t := {
  aggressiveness : Z;
  max_total_migrations : Z;
  ignore_anti_affinity : bool;
  anti_affinity_only : bool;
}.

(** [__init__]: a missing limit becomes 20. *)
Definition init (aggressiveness : Z) (max_total_migrations : option Z)
    (ignore_anti_affinity anti_affinity_only : bool) : t :=
  {| aggressiveness := aggressiveness;
     max_total_migrations := default 20 max_total_migrations;
     ignore_anti_affinity := ignore_anti_affinity;
     anti_affinity_only := anti_affinity_only |}.

Definition set_aggressiveness (self : t) (a : Z) : t :=
  {| aggressiveness := a;
     max_total_migrations := max_total_migrations self;
     ignore_anti_affinity := ignore_anti_affinity self;
     anti_affinity_only := anti_affinity_only self |}.

(** [(a / b * 100.0) if b > 0 else dflt]: the division is only
    evaluated on a positive divisor. *)
Definition pct_or (dflt a b : Q) : Q :=
  if Qlt_bool 0 b then (a / b * 100)%Q else dflt.

Record abs_load := {
  cpu_usage_abs : Q;
  mem_usage_abs : Q;
  cpu_cap_abs : Q;
  mem_cap_abs : Q;
}.

Definition add_load (l : abs_load) (cpu mem : Q) : abs_load :=
  {| cpu_usage_abs := (cpu_usage_abs l + cpu)%Q;
     mem_usage_abs := (mem_usage_abs l + mem)%Q;
     cpu_cap_abs := cpu_cap_abs l;
     mem_cap_abs := mem_cap_abs l |}.

Definition initial_load (cs : ClusterState.t) (host_obj : Host) : abs_load :=
  let host_metrics_from_cs := default ∅ (host_metrics cs !! host_name host_obj) in
  {| cpu_usage_abs := dget host_metrics_from_cs "cpu_usage" 0;
     mem_usage_abs := dget host_metrics_from_cs "memory_usage" 0;
     cpu_cap_abs := dget host_metrics_from_cs "cpu_capacity" 1;
     mem_cap_abs := dget host_metrics_from_cs "memory_capacity" 1 |}.

(** The body of the loop over [migrations_to_simulate]. *)
Definition simulate_migration (cs : ClusterState.t)
    (loads : gmap string abs_load) (mig_plan : migration) : gmap string abs_load :=
  let vm_obj := plan_vm mig_plan in
  let target_host_name := host_name (plan_target_host mig_plan) in
  let source_host_name := host_name <$> get_host_of_vm vm_obj in
  let vm_res_metrics := default ∅ (vm_metrics cs !! vm_name vm_obj) in
  let vm_cpu_abs := dget vm_res_metrics "cpu_usage_abs" 0 in
  let vm_mem_abs := dget vm_res_metrics "memory_usage_abs" 0 in
  let loads1 :=
    match source_host_name with
    | Some s =>
        if String.eqb s "" then loads
        else match loads !! s with
             | Some l => <[s := add_load l (- vm_cpu_abs) (- vm_mem_abs)]> loads
             | None => loads
             end
    | None => loads
    end in
  match loads1 !! target_host_name with
  | Some l => <[target_host_name := add_load l vm_cpu_abs vm_mem_abs]> loads1
  | None => loads1
  end.

(** [[h.get('name') for h in hosts if isinstance(h, dict) and h.get('name')]] *)
Definition evaluator_host_names (l : list host_entry) : list string :=
  omap (fun h => match h with
                 | HostDict (Some name) _ =>
                     if String.eqb name "" then None else Some name
                 | _ => None
                 end) l.

(** The loop [for i, host_name in enumerate(host_names_from_evaluator)]. *)
Fixpoint simulated_percentages (loads : gmap string abs_load)
    (orig_disk_percentages orig_net_percentages : list Q)
    (i : nat) (host_names : list string)
    (acc : list Q * list Q * gmap string pct_entry)
  : list Q * list Q * gmap string pct_entry :=
  match host_names with
  | [] => acc
  | host_name :: host_names' =>
      let '(sim_cpu_percentages, sim_mem_percentages, sim_map) := acc in
      let '(cpu_p, mem_p) :=
        match loads !! host_name with
        | None => (0%Q, 0%Q)
        | Some sim_loads =>
            (pct_or 0 (cpu_usage_abs sim_loads) (cpu_cap_abs sim_loads),
             pct_or 0 (mem_usage_abs sim_loads) (mem_cap_abs sim_loads))
        end in
      let disk_p := default 0%Q (orig_disk_percentages !! i) in
      let net_p := default 0%Q (orig_net_percentages !! i) in
      simulated_percentages loads orig_disk_percentages orig_net_percentages
        (S i) host_names'
        (sim_cpu_percentages ++ [cpu_p], sim_mem_percentages ++ [mem_p],
         <[host_name := {| pct_cpu := cpu_p; pct_memory := mem_p;
                           pct_disk := disk_p; pct_network := net_p |}]> sim_map)
  end.

(** The host names the last loop of the simulation runs over: those of
    the evaluator's host dictionaries, or else those of the cluster. *)
Definition host_names_from_evaluator (le : LoadEvaluator.t)
    (ordered_host_objects : list Host) : list string :=
  match evaluator_host_names (LoadEvaluator.hosts le) with
  | [] => map host_name ordered_host_objects
  | names => names
  end.

Definition _get_simulated_load_data_after_migrations (cs : ClusterState.t)
    (le : LoadEvaluator.t) (migrations_to_simulate : list migration)
  : result (list Q * list Q * list Q * list Q * gmap string pct_entry
            * LoadEvaluator.t) :=
  let ordered_host_objects := hosts cs in
  match ordered_host_objects with
  | [] => mret ([], [], [], [], ∅, le)
  | _ =>
      let current_absolute_host_loads :=
        fold_left (fun loads host_obj =>
                     <[host_name host_obj := initial_load cs host_obj]> loads)
          ordered_host_objects ∅ in
      let current_absolute_host_loads :=
        fold_left (simulate_migration cs) migrations_to_simulate
          current_absolute_host_loads in
      '(lists, le') ← LoadEvaluator.get_resource_percentage_lists le;
      let '(_, _, orig_disk_percentages, orig_net_percentages) := lists in
      let '(sim_cpu_percentages, sim_mem_percentages, sim_map) :=
        simulated_percentages current_absolute_host_loads
          orig_disk_percentages orig_net_percentages 0
          (host_names_from_evaluator le ordered_host_objects) ([], [], ∅) in
      mret (sim_cpu_percentages, sim_mem_percentages, orig_disk_percentages,
            orig_net_percentages, sim_map, le')
  end.

(** [planned_vm_locations]: the planned target of each planned VM name,
    a later plan replacing an earlier one. *)
Definition planned_vm_locations (planned_migrations_in_cycle : list migration)
  : gmap string string :=
  fold_left (fun m plan =>
               <[vm_name (plan_vm plan) := host_name (plan_target_host plan)]> m)
    planned_migrations_in_cycle ∅.

Definition final_host_name (vm_to_move : VM) (target_host_obj : Host)
    (locations : gmap string string) (vm_in_group_iter : VM) : option string :=
  let current_vm_name := vm_name vm_in_group_iter in
  if String.eqb current_vm_name (vm_name vm_to_move)
  then Some (host_name target_host_obj)
  else match locations !! current_vm_name with
       | Some n => Some n
       | None => host_name <$> get_host_of_vm vm_in_group_iter
       end.

Definition safe_count_step (vm_to_move : VM) (target_host_obj : Host)
    (locations : gmap string string) (counts : list (string * Z))
    (vm_in_group_iter : VM) : list (string * Z) :=
  match final_host_name vm_to_move target_host_obj locations vm_in_group_iter with
  | Some n =>
      if String.eqb n "" then counts
      else ConstraintManager.incr_if_present n 1 counts
  | None => counts
  end.

(** [_is_anti_affinity_safe] from its second statement on, [vm_prefix]
    being the key under which the group is looked up. *)
Definition spread_check_for_prefix (vm_prefix : string) (cs : ClusterState.t)
    (cm : ConstraintManager.t) (vm_to_move : VM) (target_host_obj : Host)
    (planned_migrations_in_cycle : list migration)
  : bool * ConstraintManager.t :=
  let cm :=
    match ConstraintManager.vm_distribution cm with
    | [] => ConstraintManager.enforce_anti_affinity cs cm
    | _ => cm
    end in
  match od_get_default vm_prefix [] (ConstraintManager.vm_distribution cm) with
  | [] => (true, cm)
  | vms_in_group =>
      let all_active_hosts := hosts cs in
      if (length all_active_hosts <=? 1)%nat then (true, cm)
      else
        let simulated_host_vm_counts :=
          fold_left
            (safe_count_step vm_to_move target_host_obj
               (planned_vm_locations planned_migrations_in_cycle))
            vms_in_group
            (ConstraintManager.by_host_name 0 all_active_hosts) in
        let counts :=
          omap (fun '(host_name, count) =>
                  match get_host_by_name cs host_name with
                  | Some _ => Some count
                  | None => None
                  end) simulated_host_vm_counts in
        match counts with
        | [] => (true, cm)
        | c :: cs' => (maxZ c cs' - minZ c cs' <=? 1, cm)
        end
  end.

Definition _is_anti_affinity_safe (cs : ClusterState.t)
    (cm : ConstraintManager.t) (vm_to_move : VM) (target_host_obj : Host)
    (planned_migrations_in_cycle : list migration)
  : bool * ConstraintManager.t :=
  let vm_prefix := drop_last2 (vm_name vm_to_move) in
  spread_check_for_prefix vm_prefix cs cm vm_to_move target_host_obj
    planned_migrations_in_cycle.

Definition _would_fit_on_host (cs : ClusterState.t) (vm : VM) (host_obj : Host)
  : bool :=
  let vm_metrics := default ∅ (vm_metrics cs !! vm_name vm) in
  let host_current_metrics := default ∅ (host_metrics cs !! host_name host_obj) in
  if dict_empty vm_metrics || dict_empty host_current_metrics then false
  else
    let max_cpu_util_post_move := 90%Q in
    let max_mem_util_post_move := 90%Q in
    let vm_cpu_req :=
      dget vm_metrics "cpu_usage_abs" (dget vm_metrics "cpu_allocation" 0) in
    let vm_mem_req :=
      dget vm_metrics "memory_usage_abs"
        (dget vm_metrics "memory_allocation_bytes" 0) in
    let host_cpu_cap := dget host_current_metrics "cpu_capacity" 1 in
    let host_mem_cap := dget host_current_metrics "memory_capacity" 1 in
    let host_cpu_curr := dget host_current_metrics "cpu_usage" 0 in
    let host_mem_curr := dget host_current_metrics "memory_usage_abs" 0 in
    let projected_cpu_abs := (host_cpu_curr + vm_cpu_req)%Q in
    let projected_mem_abs := (host_mem_curr + vm_mem_req)%Q in
    let projected_cpu_pct := pct_or 100 projected_cpu_abs host_cpu_cap in
    let projected_mem_pct := pct_or 100 projected_mem_abs host_mem_cap in
    if Qlt_bool max_cpu_util_post_move projected_cpu_pct then false
    else if Qlt_bool max_mem_util_post_move projected_mem_pct then false
    else true.

Definition _would_fit_on_host_soft (cs : ClusterState.t) (vm : VM)
    (host_obj : Host) (cpu_threshold mem_threshold : Q) : bool :=
  let vm_metrics := default ∅ (vm_metrics cs !! vm_name vm) in
  let host_current_metrics := default ∅ (host_metrics cs !! host_name host_obj) in
  if dict_empty vm_metrics || dict_empty host_current_metrics then false
  else
    let vm_cpu_req :=
      dget vm_metrics "cpu_usage_abs" (dget vm_metrics "cpu_allocation" 0) in
    let vm_mem_req :=
      dget vm_metrics "memory_usage_abs"
        (dget vm_metrics "memory_allocation_bytes" 0) in
    let host_cpu_cap := dget host_current_metrics "cpu_capacity" 1 in
    let host_mem_cap := dget host_current_metrics "memory_capacity" 1 in
    let host_cpu_curr := dget host_current_metrics "cpu_usage" 0 in
    let host_mem_curr := dget host_current_metrics "memory_usage_abs" 0 in
    let projected_cpu_abs := (host_cpu_curr + vm_cpu_req)%Q in
    let projected_mem_abs := (host_mem_curr + vm_mem_req)%Q in
    let projected_cpu_pct := pct_or 100 projected_cpu_abs host_cpu_cap in
    let projected_mem_pct := pct_or 100 projected_mem_abs host_mem_cap in
    if Qlt_bool cpu_threshold projected_cpu_pct then false
    else if Qlt_bool mem_threshold projected_mem_pct then false
    else true.

(** A string used as a condition: [None] and the empty string are
    false. *)
Definition truthy (s : option string) : bool :=
  match s with
  | Some n => negb (String.eqb n "")
  | None => false
  end.

Definition sort_key (cs : ClusterState.t) (imbalanced_resource : option string)
    (vm : VM) : Q :=
  let metrics := default ∅ (vm_metrics cs !! vm_name vm) in
  if dict_empty metrics then 0
  else if bool_decide (imbalanced_resource = Some "cpu")
  then dget metrics "cpu_usage_abs" 0
  else if bool_decide (imbalanced_resource = Some "memory")
  then dget metrics "memory_usage_abs" 0
  else (dget metrics "cpu_usage_abs" 0 + dget metrics "memory_usage_abs" 0)%Q.

Definition _select_vms_to_move (self : t) (cs : ClusterState.t)
    (source_host_obj : Host) (imbalanced_resource : option string)
    (vms_already_in_plan : gset string) : list VM :=
  let vms_on_host := get_vms_on_host cs source_host_obj in
  let candidate_vms :=
    filter (fun vm => negb (bool_decide (vm_name vm ∈ vms_already_in_plan))
                      && negb (vm_config_template vm) = true) vms_on_host in
  slice_to (aggressiveness self)
    (sort_desc (sort_key cs imbalanced_resource) candidate_vms).

(** The score of a target: the sum over the imbalanced resources of
    [100 - target_metrics_pct[resource]]. *)
Definition target_score
    (imbalanced_resources_details : list (string * LoadEvaluator.imbalance_detail))
    (target_metrics_pct : pct_entry) : Q :=
  fold_left (fun score kv =>
               match pct_get target_metrics_pct (fst kv) with
               | Some p => (score + (100 - p))%Q
               | None => score
               end) imbalanced_resources_details 0%Q.

(** The body of the loop over [all_hosts]: the potential targets and the
    constraint manager after one more host has been looked at. *)
Definition consider_target (self : t) (cs : ClusterState.t)
    (vm_to_move : VM) (source_host_obj : Host) (source_host_metrics_pct : pct_entry)
    (primary_imbalanced_resource : option string)
    (imbalanced_resources_details : list (string * LoadEvaluator.imbalance_detail))
    (host_resource_percentages_map : gmap string pct_entry)
    (planned_migrations_in_cycle : list migration)
    (st : list (Host * Q) * ConstraintManager.t) (target_host_obj : Host)
  : list (Host * Q) * ConstraintManager.t :=
  let '(potential_targets, cm) := st in
  if String.eqb (host_name target_host_obj) (host_name source_host_obj) then st
  else if negb (_would_fit_on_host cs vm_to_move target_host_obj) then st
  else
    let '(aa_ok, cm) :=
      if ignore_anti_affinity self then (true, cm)
      else _is_anti_affinity_safe cs cm vm_to_move target_host_obj
             planned_migrations_in_cycle in
    if negb aa_ok then (potential_targets, cm)
    else
      match host_resource_percentages_map !! host_name target_host_obj with
      | None => (potential_targets, cm)
      | Some target_metrics_pct =>
          let significantly_better :=
            match primary_imbalanced_resource with
            | Some r =>
                if truthy primary_imbalanced_resource then
                  match pct_get target_metrics_pct r, pct_get source_host_metrics_pct r with
                  | Some target_usage, Some source_usage =>
                      let general_thresholds :=
                        LoadEvaluator.get_thresholds (aggressiveness self) in
                      let threshold_for_primary_res :=
                        od_get_default r 15%Q general_thresholds in
                      Qlt_bool target_usage
                        (source_usage - threshold_for_primary_res / 3)%Q
                  | _, _ => true
                  end
                else true
            | None => true
            end in
          if negb significantly_better then (potential_targets, cm)
          else
            let score := target_score imbalanced_resources_details target_metrics_pct in
            if Qlt_bool 0 score
            then (potential_targets ++ [(target_host_obj, score)], cm)
            else (potential_targets, cm)
      end.

Definition _find_better_host_for_balancing (self : t) (cs : ClusterState.t)
    (cm : ConstraintManager.t)
    (vm_to_move : VM) (source_host_obj : Host) (source_host_metrics_pct : pct_entry)
    (primary_imbalanced_resource : option string) (all_hosts : list Host)
    (imbalanced_resources_details : list (string * LoadEvaluator.imbalance_detail))
    (host_resource_percentages_map : gmap string pct_entry)
    (planned_migrations_in_cycle : list migration)
  : option Host * ConstraintManager.t :=
  let '(potential_targets, cm) :=
    fold_left
      (consider_target self cs vm_to_move source_host_obj source_host_metrics_pct
         primary_imbalanced_resource imbalanced_resources_details
         host_resource_percentages_map planned_migrations_in_cycle)
      all_hosts ([], cm) in
  (fst <$> head (sort_desc snd potential_targets), cm).

(** The body of the loop over the violating VMs: the plans of this step,
    the names already planned and the constraint manager. *)
Definition plan_violation (self : t) (cs : ClusterState.t)
    (st : list migration * gset string * ConstraintManager.t) (vm_obj : VM)
  : list migration * gset string * ConstraintManager.t :=
  let '(aa_migrations_planned_this_step, vms_in_migration_plan, cm) := st in
  if bool_decide (vm_name vm_obj ∈ vms_in_migration_plan) then st
  else if vm_config_template vm_obj then st
  else
    let '(target, cm) :=
      ConstraintManager.get_preferred_host_for_vm cs cm vm_obj
        aa_migrations_planned_this_step in
    match target with
    | Some target_host_obj =>
        let migration_plan :=
          {| plan_vm := vm_obj; plan_target_host := target_host_obj;
             plan_reason := Anti_Affinity |} in
        if anti_affinity_only self then
          (aa_migrations_planned_this_step ++ [migration_plan],
           {[vm_name vm_obj]} ∪ vms_in_migration_plan, cm)
        else if _would_fit_on_host_soft cs vm_obj target_host_obj 95%Q 95%Q then
          (aa_migrations_planned_this_step ++ [migration_plan],
           {[vm_name vm_obj]} ∪ vms_in_migration_plan, cm)
        else (aa_migrations_planned_this_step, vms_in_migration_plan, cm)
    | None => (aa_migrations_planned_this_step, vms_in_migration_plan, cm)
    end.

Definition _plan_anti_affinity_migrations (set_order : list VM -> list VM)
    (self : t) (cs : ClusterState.t) (cm : ConstraintManager.t)
    (vms_in_migration_plan : gset string)
  : list migration * gset string * ConstraintManager.t :=
  let cm :=
    match ConstraintManager.violations cm with
    | [] =>
        let cm := ConstraintManager.enforce_anti_affinity cs cm in
        {| ConstraintManager.vm_distribution := ConstraintManager.vm_distribution cm;
           ConstraintManager.violations :=
             ConstraintManager.calculate_anti_affinity_violations set_order cs cm |}
    | _ => cm
    end in
  fold_left (plan_violation self cs) (ConstraintManager.violations cm)
    ([], vms_in_migration_plan, cm).

(** The loop over the problematic resources for one source host: the
    resources that make it a source candidate ([move_reason_details]),
    whether there is one, and the first of them (the hint). *)
Definition source_reason_step (self : t)
    (imbalance_details : list (string * LoadEvaluator.imbalance_detail))
    (source_host_metrics_pct : pct_entry)
    (st : list string * bool * option string) (res_name : string)
  : list string * bool * option string :=
  let '(move_reason_details, host_is_max_usage_contributor,
        resource_hint_for_vm_selection) := st in
  let res_detail := od_get res_name imbalance_details in
  let current_host_usage_for_res :=
    default 0%Q (pct_get source_host_metrics_pct res_name) in
  let avg_usage_for_res :=
    match res_detail with
    | Some d => LoadEvaluator.avg_usage d
    | None => 0%Q
    end in
  let general_thresholds := LoadEvaluator.get_thresholds (aggressiveness self) in
  let threshold_for_res := od_get_default res_name 15%Q general_thresholds in
  let is_significantly_above_average :=
    Qlt_bool (avg_usage_for_res + threshold_for_res / 2)%Q current_host_usage_for_res in
  let is_one_of_the_most_loaded :=
    Qle_bool
      (match res_detail with
       | Some d => LoadEvaluator.max_usage d
       | None => current_host_usage_for_res + 1
       end * (95 # 100))%Q
      current_host_usage_for_res in
  if is_significantly_above_average && is_one_of_the_most_loaded
     && Qlt_bool 0 current_host_usage_for_res
  then (move_reason_details ++ [res_name], true,
        if truthy resource_hint_for_vm_selection
        then resource_hint_for_vm_selection else Some res_name)
  else st.

(** The state the balancing loops carry: the balancing plans, the names
    already planned, the list used for the safety checks, and the
    constraint manager. *)
Definition balancing_state : Type :=
  list migration * gset string * list migration * ConstraintManager.t.

(** The body of the loop over the candidate VMs of one source host. *)
Definition balance_vm (self : t) (cs : ClusterState.t)
    (imbalance_details : list (string * LoadEvaluator.imbalance_detail))
    (problematic_resources_names : list string)
    (host_resource_percentages_map_for_decision : gmap string pct_entry)
    (source_host_obj : Host) (source_host_metrics_pct : pct_entry)
    (move_reason_details : list string)
    (resource_hint_for_vm_selection : option string)
    (st : balancing_state) (vm_to_move : VM) : balancing_state :=
  let '(balancing_migrations, vms_in_migration_plan,
        safety_check_migrations_list, cm) := st in
  let active_imbalance_details_for_target_finding :=
    filter (fun kv => bool_decide (fst kv ∈ problematic_resources_names)
                      && LoadEvaluator.is_imbalanced (snd kv) = true)
      imbalance_details in
  match active_imbalance_details_for_target_finding with
  | [] => st
  | _ =>
      let '(target, cm) :=
        _find_better_host_for_balancing self cs cm vm_to_move source_host_obj
          source_host_metrics_pct resource_hint_for_vm_selection (hosts cs)
          active_imbalance_details_for_target_finding
          host_resource_percentages_map_for_decision
          safety_check_migrations_list in
      match target with
      | Some target_host_obj =>
          let migration_details :=
            {| plan_vm := vm_to_move; plan_target_host := target_host_obj;
               plan_reason := Resource_Balancing move_reason_details |} in
          (balancing_migrations ++ [migration_details],
           {[vm_name vm_to_move]} ∪ vms_in_migration_plan,
           safety_check_migrations_list ++ [migration_details], cm)
      | None => (balancing_migrations, vms_in_migration_plan,
                 safety_check_migrations_list, cm)
      end
  end.

(** The body of the loop over the hosts as potential sources. *)
Definition balance_host (self : t) (cs : ClusterState.t)
    (imbalance_details : list (string * LoadEvaluator.imbalance_detail))
    (problematic_resources_names : list string)
    (host_resource_percentages_map_for_decision : gmap string pct_entry)
    (st : balancing_state) (source_host_obj : Host) : balancing_state :=
  match host_resource_percentages_map_for_decision !! host_name source_host_obj with
  | None => st
  | Some source_host_metrics_pct =>
      let '(move_reason_details, host_is_max_usage_contributor,
            resource_hint_for_vm_selection) :=
        fold_left (source_reason_step self imbalance_details source_host_metrics_pct)
          problematic_resources_names ([], false, None) in
      if negb host_is_max_usage_contributor then st
      else
        let candidate_vms_to_move :=
          _select_vms_to_move self cs source_host_obj
            resource_hint_for_vm_selection (snd (fst (fst st))) in
        fold_left
          (balance_vm self cs imbalance_details problematic_resources_names
             host_resource_percentages_map_for_decision source_host_obj
             source_host_metrics_pct move_reason_details
             resource_hint_for_vm_selection)
          candidate_vms_to_move st
  end.

Definition _plan_balancing_migrations (self : t) (cs : ClusterState.t)
    (cm : ConstraintManager.t) (le : LoadEvaluator.t)
    (vms_in_migration_plan : gset string)
    (host_resource_percentages_map_for_decision : gmap string pct_entry)
    (current_planned_migrations_list : list migration)
    (sim_cpu_p_override sim_mem_p_override
     sim_disk_p_override sim_net_p_override : option (list Q))
  : result (list migration * gset string * ConstraintManager.t * LoadEvaluator.t) :=
  '(imbalance_details, le) ←
    LoadEvaluator.evaluate_imbalance le None (aggressiveness self)
      sim_cpu_p_override sim_mem_p_override sim_disk_p_override sim_net_p_override;
  match imbalance_details with
  | [] => mret ([], vms_in_migration_plan, cm, le)
  | _ =>
      let problematic_resources_names :=
        map fst (filter (fun kv => LoadEvaluator.is_imbalanced (snd kv) = true)
                   imbalance_details) in
      match problematic_resources_names with
      | [] => mret ([], vms_in_migration_plan, cm, le)
      | _ =>
          let '(balancing_migrations, vms_in_migration_plan, _, cm) :=
            fold_left
              (balance_host self cs imbalance_details problematic_resources_names
                 host_resource_percentages_map_for_decision)
              (hosts cs)
              ([], vms_in_migration_plan, current_planned_migrations_list, cm) in
          mret (balancing_migrations, vms_in_migration_plan, cm, le)
      end
  end.

(** The truncation at the end of [plan_migrations]. *)
Definition enforce_limit (self : t) (migrations : list migration)
  : list migration :=
  if max_total_migrations self <? Z.of_nat (length migrations) then
    let aa_migs_from_plan := filter (fun m => is_anti_affinity m = true) migrations in
    let balance_migs_from_plan :=
      filter (fun m => negb (is_anti_affinity m) = true) migrations in
    if max_total_migrations self <=? Z.of_nat (length aa_migs_from_plan)
    then slice_to (max_total_migrations self) aa_migs_from_plan
    else
      let final_limited_migrations := aa_migs_from_plan in
      let remaining_slots :=
        max_total_migrations self - Z.of_nat (length final_limited_migrations) in
      match balance_migs_from_plan with
      | _ :: _ =>
          if 0 <? remaining_slots
          then final_limited_migrations
                 ++ slice_to remaining_slots balance_migs_from_plan
          else final_limited_migrations
      | [] => final_limited_migrations
      end
  else migrations.

(** The two passes of [plan_migrations], before the limit is enforced:
    the anti-affinity plans and the balancing plans. *)
Definition plan_passes (set_order : list VM -> list VM) (self : t)
    (cs : ClusterState.t) (cm : ConstraintManager.t) (le : LoadEvaluator.t)
    (anti_affinity_only : bool)
  : result (list migration * list migration
            * ConstraintManager.t * LoadEvaluator.t) :=
  let le := LoadEvaluator.set_cache le None in
  let '(anti_affinity_migrations, vms_in_migration_plan, cm) :=
    _plan_anti_affinity_migrations set_order self cs cm ∅ in
  if negb anti_affinity_only then
    '(initial_host_resource_percentages_map, le) ←
      LoadEvaluator.get_all_host_resource_percentages_map le;
    '(overrides, current_host_resource_percentages_map, le) ←
      match anti_affinity_migrations with
      | [] => mret ((None, None, None, None),
                    initial_host_resource_percentages_map, le)
      | _ =>
          '(c, m, d, n, simulated_load_map_after_aa, le) ←
            _get_simulated_load_data_after_migrations cs le anti_affinity_migrations;
          mret ((Some c, Some m, Some d, Some n), simulated_load_map_after_aa, le)
      end;
    let '(c, m, d, n) := overrides in
    '(balancing_migrations, _, cm, le) ←
      _plan_balancing_migrations self cs cm le vms_in_migration_plan
        current_host_resource_percentages_map anti_affinity_migrations c m d n;
    mret (anti_affinity_migrations, balancing_migrations, cm, le)
  else mret (anti_affinity_migrations, [], cm, le).

Definition plan_migrations (set_order : list VM -> list VM) (self : t)
    (cs : ClusterState.t) (cm : ConstraintManager.t) (le : LoadEvaluator.t)
    (anti_affinity_only : bool)
  : result (list (VM * Host) * ConstraintManager.t * LoadEvaluator.t) :=
  '(anti_affinity_migrations, balancing_migrations, cm, le) ←
    plan_passes set_order self cs cm le anti_affinity_only;
  let migrations := anti_affinity_migrations ++ balancing_migrations in
  let migrations := enforce_limit self migrations in
  mret (map (fun plan => (plan_vm plan, plan_target_host plan)) migrations, cm, le).

(** What [plan_migrations_iterative] leaves behind: the accumulated plan,
    the planner with its attributes, the constraint manager and the load
    evaluator; [passes] lists, for each call of [plan_migrations], the
    iteration number and the value [self.aggressiveness] had during the
    call. *)
Record iterative_outcome := {
  all_migrations : list (VM * Host);
  passes : list (Z * Z);
  planner : t;
  constraint_manager : ConstraintManager.t;
  load_evaluator : LoadEvaluator.t;
}.

(** The final state check after the loop. *)
Definition final_check (o : iterative_outcome) : result iterative_outcome :=
  '(_, le) ← LoadEvaluator.is_balanced (load_evaluator o) None 3;
  mret {| all_migrations := all_migrations o; passes := passes o;
          planner := planner o; constraint_manager := constraint_manager o;
          load_evaluator := le |}.

(** [for iteration in range(...)], over the iteration numbers left. *)
Fixpoint iterate (set_order : list VM -> list VM) (cs : ClusterState.t)
    (anti_affinity_only : bool) (iteration_threshold_multiplier : Q)
    (iterations : list Z) (o : iterative_outcome) : result iterative_outcome :=
  match iterations with
  | [] => final_check o
  | iteration :: iterations' =>
      let self := planner o in
      let aa_violations :=
        ConstraintManager.calculate_anti_affinity_violations set_order cs
          (constraint_manager o) in
      '(is_balanced, le) ← LoadEvaluator.is_balanced (load_evaluator o) None 3;
      match aa_violations, is_balanced with
      | [], true =>
          (* [logger.success(...)]: [logger] is [logging.getLogger('fdrs')],
             and a [logging.Logger] has no attribute [success]. *)
          Raise AttributeError
      | _, _ =>
          let original_aggressiveness := aggressiveness self in
          self ←
            (if 1 <? iteration then
               q ← truediv (inject_Z (aggressiveness self))
                     iteration_threshold_multiplier;
               let adjusted_aggressiveness := Z.max 1 (int q) in
               mret (set_aggressiveness self adjusted_aggressiveness)
             else mret self);
          '(migrations_this_iteration, cm, le) ←
            plan_migrations set_order self cs (constraint_manager o) le
              anti_affinity_only;
          let passes := passes o ++ [(iteration, aggressiveness self)] in
          let self := set_aggressiveness self original_aggressiveness in
          match migrations_this_iteration with
          | [] =>
              final_check
                {| all_migrations := all_migrations o; passes := passes;
                   planner := self; constraint_manager := cm;
                   load_evaluator := le |}
          | _ =>
              iterate set_order cs anti_affinity_only
                iteration_threshold_multiplier iterations'
                {| all_migrations := all_migrations o ++ migrations_this_iteration;
                   passes := passes; planner := self; constraint_manager := cm;
                   load_evaluator := LoadEvaluator.set_cache le None |}
          end
      end
  end.

Definition plan_migrations_iterative (set_order : list VM -> list VM) (self : t)
    (cs : ClusterState.t) (cm : ConstraintManager.t) (le : LoadEvaluator.t)
    (max_iterations : Z) (anti_affinity_only : bool)
    (iteration_threshold_multiplier : Q) : result iterative_outcome :=
  iterate set_order cs anti_affinity_only iteration_threshold_multiplier
    (map Z.of_nat (seq 1 (Z.to_nat max_iterations)))
    {| all_migrations := []; passes := []; planner := self;
       constraint_manager := cm; load_evaluator := le |}.

End MigrationManager.

(** * The metrics of the snapshot *)

(** [ClusterState.update_metrics] fills [vm_metrics] and [host_metrics]
    from what vCenter and the resource monitor report.  The reports are
    parameters here: the quick statistics of a VM and of a host, and the
    records [get_vm_metrics] and [get_host_metrics] of the resource
    monitor.  Only the numeric entries of a record are kept; the entries
    [vm_obj], [host_obj], [vms] and [cluster_name] are not represented. *)
Module Metrics.

Import ClusterState.

(** [vm_obj.summary.quickStats] and [host_obj.summary.quickStats]: an
    attribute that vCenter leaves unset is [None]. *)
Record vm_quick_stats := {
  overallCpuUsage : option Q;
  guestMemoryUsage : option Q;
}.

Record host_quick_stats := {
  overallMemoryUsage : option Q;
}.

(** The quick statistics of an object are [None] when its [summary], or
    the [quickStats] of its summary, is [None]. *)
Record reports := {
  vm_quickStats : VM → option vm_quick_stats;
  host_quickStats : Host → option host_quick_stats;
  get_vm_metrics : VM → gmap string Q;
  get_host_metrics : Host → gmap string Q;
}.

Section annotate.
Variable resource_monitor : reports.

(** The record [annotate_vms_with_metrics] stores for one VM; there is
    none when the quick statistics cannot be read: the [AttributeError]
    is caught and the VM skipped. *)
Definition vm_record (vm_obj : VM) : option (gmap string Q) :=
  let rm_vm_metrics := get_vm_metrics resource_monitor vm_obj in
  match vm_quickStats resource_monitor vm_obj with
  | None => None
  | Some quickStats =>
      Some (list_to_map
              [("cpu_usage_abs", default 0%Q (overallCpuUsage quickStats));
               ("memory_usage_abs", default 0%Q (guestMemoryUsage quickStats));
               ("disk_io_usage_abs", dget rm_vm_metrics "disk_io_usage" 0);
               ("network_io_usage_abs", dget rm_vm_metrics "network_io_usage" 0)])
  end.

Definition annotate_vms_with_metrics (self : ClusterState.t) : ClusterState.t :=
  {| vms := vms self; hosts := hosts self;
     vm_metrics :=
       fold_left
         (λ vm_metrics vm_obj,
            match vm_record vm_obj with
            | Some record => <[vm_name vm_obj := record]> vm_metrics
            | None => vm_metrics
            end)
         (vms self) ∅;
     host_metrics := host_metrics self |}.

(** The sum, over the VMs on the host, of one entry of their records. *)
Definition summed (self : ClusterState.t) (host_obj : Host) (key : string) : Q :=
  fold_left
    (λ acc vm_on_host,
       let vm_metrics_data := default ∅ (vm_metrics self !! vm_name vm_on_host) in
       (acc + dget vm_metrics_data key 0)%Q)
    (get_vms_on_host self host_obj) 0%Q.

(** [host_obj.summary.quickStats.overallMemoryUsage if host_obj.summary
    and host_obj.summary.quickStats else 0]: 0 without quick statistics,
    and [None] when the attribute is unset. *)
Definition host_memory_usage (host_obj : Host) : option Q :=
  match host_quickStats resource_monitor host_obj with
  | Some quickStats => overallMemoryUsage quickStats
  | None => Some 0%Q
  end.

(** What [annotate_hosts_with_metrics] does with one host. *)
Inductive host_annotation :=
| Skipped
| MemoryUsageNone
| Stored (current_host_metrics : gmap string Q).

(** A memory usage that is a number gives the record stored for the
    host.  With the memory usage [None] and a positive memory capacity,
    [memory_usage / memory_capacity] raises [TypeError], which is caught:
    the host is skipped; with a capacity that is not positive the
    division is not made and the record stored holds [None] as its
    ['memory_usage']. *)
Definition host_record (self : ClusterState.t) (host_obj : Host) : host_annotation :=
  let rm_host_metrics := get_host_metrics resource_monitor host_obj in
  let cpu_usage := summed self host_obj "cpu_usage_abs" in
  let cpu_capacity := dget rm_host_metrics "cpu_capacity" 0 in
  let memory_capacity := dget rm_host_metrics "memory_capacity" 0 in
  match host_memory_usage host_obj with
  | Some memory_usage =>
      Stored
        (list_to_map
           [("cpu_usage", cpu_usage);
            ("memory_usage", memory_usage);
            ("disk_io_usage", summed self host_obj "disk_io_usage_abs");
            ("network_io_usage", summed self host_obj "network_io_usage_abs");
            ("cpu_capacity", cpu_capacity);
            ("memory_capacity", memory_capacity);
            ("disk_io_capacity", dget rm_host_metrics "disk_io_capacity" 1);
            ("network_capacity", dget rm_host_metrics "network_capacity" 1);
            ("cpu_usage_pct", MigrationManager.pct_or 0 cpu_usage cpu_capacity);
            ("memory_usage_pct",
             MigrationManager.pct_or 0 memory_usage memory_capacity)])
  | None => if Qlt_bool 0 memory_capacity then Skipped else MemoryUsageNone
  end.

(** [self.host_metrics] after [annotate_hosts_with_metrics]; [None] stands
    for a record whose ['memory_usage'] is [None]. *)
Definition annotate_hosts_with_metrics (self : ClusterState.t)
  : gmap string (option (gmap string Q)) :=
  fold_left
    (λ host_metrics host_obj,
       match host_record self host_obj with
       | Skipped => host_metrics
       | MemoryUsageNone => <[host_name host_obj := None]> host_metrics
       | Stored current_host_metrics =>
           <[host_name host_obj := Some current_host_metrics]> host_metrics
       end)
    (hosts self) ∅.

(** [log_cluster_stats] adds up the entries of the host records:
    [total_mem_usage += metrics['memory_usage']] raises [TypeError] on a
    [None]. *)
Definition log_cluster_stats (host_metrics : gmap string (option (gmap string Q)))
  : result unit :=
  if bool_decide (map_Forall (λ _ metrics, is_Some metrics) host_metrics)
  then Ok tt
  else Raise TypeError.

Definition update_metrics (self : ClusterState.t) : result ClusterState.t :=
  let self := annotate_vms_with_metrics self in
  let host_metrics := annotate_hosts_with_metrics self in
  _ ← log_cluster_stats host_metrics;
  mret {| vms := vms self; hosts := hosts self;
          vm_metrics := vm_metrics self;
          host_metrics := omap id host_metrics |}.

End annotate.
End Metrics.

(** * The configuration *)

(** [ConfigLoader]: the configuration is a tree of dictionaries, as
    [yaml.safe_load] returns it; the keys of the dictionaries are taken
    to be strings. *)
Module ConfigLoader.

#[local] Unset Elimination Schemes.
Inductive value :=
| VNone
| VBool (b : bool)
| VNum (q : Q)
| VStr (s : string)
| VList (l : list value)
| VDict (d : list (string * value)).
#[local] Set Elimination Schemes.

(** What is found at the path of the configuration file: nothing, a file
    that cannot be read or parsed, or a document. *)
Inductive file :=
| Missing
| Unreadable
| Parsed (v : value).

Definition DEFAULTS : list (string * value) :=
  [("storage", VDict [("disk_io_capacity_mbps", VNum 4000)]);
   ("network", VDict [("bandwidth_mbps", VNum 1250)]);
   ("performance",
    VDict [("cpu_ready_percent_threshold", VNum 10);
           ("memory_swap_threshold", VNum 1000);
           ("disk_latency_threshold_ms", VNum 20)]);
   ("migration",
    VDict [("default_max_migrations", VNum 20);
           ("migration_timeout_seconds", VNum 300);
           ("host_cpu_high_watermark_percent", VNum 90);
           ("host_memory_high_watermark_percent", VNum 90)]);
   ("logging", VDict [("level", VStr "INFO"); ("file", VStr "")]);
   ("optimization",
    VDict [("enable_percentage_cache", VBool true);
           ("enable_prefix_cache", VBool true)])].

(** What the loop of [_deep_merge] assigns to [result[key]]: the merge
    of the two values when both are dictionaries, the new value
    otherwise. *)
Fixpoint merged (old : option value) (new : value) {struct new} : value :=
  match new, old with
  | VDict overrides, Some (VDict defaults) =>
      VDict
        ((fix loop (overrides result : list (string * value)) {struct overrides}
            : list (string * value) :=
            match overrides with
            | [] => result
            | (key, val) :: overrides' =>
                loop overrides' (od_set key (merged (od_get key result) val) result)
            end) overrides defaults)
  | _, _ => new
  end.

Definition _deep_merge (defaults overrides : list (string * value))
  : list (string * value) :=
  fold_left (λ result kv, od_set kv.1 (merged (od_get kv.1 result) kv.2) result)
    overrides defaults.

(** [not v] *)
Definition falsy (v : value) : bool :=
  match v with
  | VNone => true
  | VBool b => negb b
  | VNum q => Qeq_bool q 0
  | VStr s => String.eqb s ""
  | VList l => match l with [] => true | _ => false end
  | VDict d => match d with [] => true | _ => false end
  end.

(** [_load_config]: a document that is not a dictionary makes
    [_deep_merge] raise, and the defaults are used. *)
Definition _load_config (f : file) : list (string * value) :=
  match f with
  | Missing => DEFAULTS
  | Unreadable => DEFAULTS
  | Parsed v =>
      let file_config := if falsy v then VDict [] else v in
      match file_config with
      | VDict overrides => _deep_merge DEFAULTS overrides
      | _ => DEFAULTS
      end
  end.

(** [get], called with the keys of a path and a default. *)
Fixpoint get_from (val : value) (keys : list string) (default : value) : value :=
  match keys with
  | [] => val
  | key :: keys' =>
      match val with
      | VDict d =>
          match od_get key d with
          | Some v => get_from v keys' default
          | None => default
          end
      | _ => default
      end
  end.

Definition get (config : list (string * value)) (keys : list string) (default : value)
  : value :=
  get_from (VDict config) keys default.

(** [self.DEFAULTS[section][key]] *)
Definition default_of (section key : string) : value :=
  match od_get section DEFAULTS with
  | Some (VDict d) => od_get_default key VNone d
  | _ => VNone
  end.

Definition get_storage_disk_io_capacity (config : list (string * value)) : value :=
  get config ["storage"; "disk_io_capacity_mbps"]
    (default_of "storage" "disk_io_capacity_mbps").

Definition get_network_bandwidth (config : list (string * value)) : value :=
  get config ["network"; "bandwidth_mbps"] (default_of "network" "bandwidth_mbps").

Definition get_migration_timeout (config : list (string * value)) : value :=
  get config ["migration"; "migration_timeout_seconds"]
    (default_of "migration" "migration_timeout_seconds").

Definition get_max_migrations (config : list (string * value)) : value :=
  get config ["migration"; "default_max_migrations"]
    (default_of "migration" "default_max_migrations").

Definition get_host_cpu_watermark (config : list (string * value)) : value :=
  get config ["migration"; "host_cpu_high_watermark_percent"]
    (default_of "migration" "host_cpu_high_watermark_percent").

Definition get_host_memory_watermark (config : list (string * value)) : value :=
  get config ["migration"; "host_memory_high_watermark_percent"]
    (default_of "migration" "host_memory_high_watermark_percent").

Definition is_percentage_cache_enabled (config : list (string * value)) : value :=
  get config ["optimization"; "enable_percentage_cache"]
    (default_of "optimization" "enable_percentage_cache").

Definition is_prefix_cache_enabled (config : list (string * value)) : value :=
  get config ["optimization"; "enable_prefix_cache"]
    (default_of "optimization" "enable_prefix_cache").

End ConfigLoader.

(** * Properties of the planner *)

Import ClusterState ConstraintManager MigrationManager.

(** ** Insertion-ordered dictionaries *)

Section odict_facts.
Context {V : Type}.
Implicit Types (d : list (string * V)) (k : string) (v : V).

Lemma od_get_set_eq d k v : od_get k (od_set k v d) = Some v.
Proof.
  induction d as [|[k' v'] d IH]; simpl.
  - by rewrite String.eqb_refl.
  - destruct (String.eqb k k') eqn:E; simpl.
    + by rewrite String.eqb_refl.
    + by rewrite E.
Qed.

Lemma od_get_set_ne d k k' v : k ≠ k' → od_get k' (od_set k v d) = od_get k' d.
Proof.
  intros Hne. induction d as [|[k0 v0] d IH]; simpl.
  - apply String.eqb_neq in Hne. by rewrite String.eqb_sym, Hne.
  - destruct (String.eqb k k0) eqn:E; simpl.
    + apply String.eqb_eq in E. subst k0.
      destruct (String.eqb k' k) eqn:E'; [|done].
      apply String.eqb_eq in E'. congruence.
    + by rewrite IH.
Qed.

Lemma od_get_set d k k' v :
  od_get k' (od_set k v d) = if decide (k = k') then Some v else od_get k' d.
Proof.
  case_decide; [subst; apply od_get_set_eq | by apply od_get_set_ne].
Qed.

Lemma od_set_keys d k v :
  is_Some (od_get k d) → map fst (od_set k v d) = map fst d.
Proof.
  induction d as [|[k0 v0] d IH]; simpl.
  - by intros [? ?].
  - destruct (String.eqb k k0) eqn:E; simpl.
    + apply String.eqb_eq in E. by subst.
    + intros H. by rewrite IH.
Qed.

Lemma od_get_Some_elem d k v : od_get k d = Some v → (k, v) ∈ d.
Proof.
  induction d as [|[k0 v0] d IH]; simpl; [done|].
  destruct (String.eqb k k0) eqn:E.
  - apply String.eqb_eq in E. intros [= ->]. subst. left.
  - intros H. right. by apply IH.
Qed.

Lemma od_get_is_Some d k : is_Some (od_get k d) ↔ k ∈ map fst d.
Proof.
  induction d as [|[k0 v0] d IH]; simpl.
  - split; [by intros [? ?] | by intros ?%elem_of_nil].
  - destruct (String.eqb k k0) eqn:E.
    + apply String.eqb_eq in E. subst. split; [left | by eexists].
    + apply String.eqb_neq in E. rewrite IH. split; [by right|].
      by intros [?|?]%elem_of_cons.
Qed.

Lemma od_mem_true d k : od_mem k d = true ↔ is_Some (od_get k d).
Proof.
  unfold od_mem.
  destruct (od_get k d); split; first [done | by eexists | by intros [? ?]].
Qed.
End odict_facts.

(** ** Grouping *)

Lemma group_vm_keeps d vm vm' g :
  od_get (_get_vm_prefix (vm_name vm)) d = Some g → vm ∈ g →
  ∃ g', od_get (_get_vm_prefix (vm_name vm)) (group_vm d vm') = Some g' ∧ vm ∈ g'.
Proof.
  intros Hg Hin. unfold group_vm.
  destruct (_ <? _)%nat; [by eauto|].
  rewrite od_get_set. case_decide as E; [|by eauto].
  eexists; split; [done|]. unfold od_get_default. rewrite E, Hg.
  apply elem_of_app. by left.
Qed.

Lemma group_vm_adds d vm :
  (1 ≤ String.length (vm_name vm))%nat →
  ∃ g', od_get (_get_vm_prefix (vm_name vm)) (group_vm d vm) = Some g' ∧ vm ∈ g'.
Proof.
  intros Hlen. unfold group_vm.
  destruct (Nat.ltb_spec (String.length (vm_name vm)) 1); [lia|].
  rewrite od_get_set_eq. eexists; split; [done|].
  apply elem_of_app. right. by apply list_elem_of_singleton.
Qed.

Lemma grouping_contains vm l : ∀ d,
  (1 ≤ String.length (vm_name vm))%nat →
  vm ∈ l ∨ (∃ g, od_get (_get_vm_prefix (vm_name vm)) d = Some g ∧ vm ∈ g) →
  ∃ g, od_get (_get_vm_prefix (vm_name vm)) (fold_left group_vm l d) = Some g
       ∧ vm ∈ g.
Proof.
  induction l as [|vm' l IH]; intros d Hlen H; simpl.
  - destruct H as [H|H]; [by apply elem_of_nil in H | done].
  - apply IH; [done|]. destruct H as [H|(g & Hg & Hin)].
    + apply elem_of_cons in H as [->|H]; [|by left].
      right. by apply group_vm_adds.
    + right. by eapply group_vm_keeps.
Qed.

(** ** Names shorter than three characters *)

Lemma plan_violation_names self cs st vm_obj (P : VM → Prop) :
  (∀ cm planned, fst (get_preferred_host_for_vm cs cm vm_obj planned) ≠ None → P vm_obj) →
  Forall (λ m, P (plan_vm m)) st.1.1 →
  Forall (λ m, P (plan_vm m)) (plan_violation self cs st vm_obj).1.1.
Proof.
  intros HP Hst. destruct st as [[planned names] cm]. unfold plan_violation. simpl in *.
  case_bool_decide; [done|]. destruct (vm_config_template vm_obj); [done|].
  destruct (get_preferred_host_for_vm cs cm vm_obj planned) as [[t|] cm'] eqn:E;
    [|done].
  assert (P vm_obj) by (eapply HP; by rewrite E).
  destruct (anti_affinity_only self); simpl.
  - apply Forall_app. split; [done|]. by constructor.
  - destruct (_would_fit_on_host_soft _ _ _ _ _); simpl; [|done].
    apply Forall_app. split; [done|]. by constructor.
Qed.

Lemma aa_fold_names self cs (P : VM → Prop) l :
  (∀ vm cm planned, fst (get_preferred_host_for_vm cs cm vm planned) ≠ None → P vm) →
  ∀ st, Forall (λ m, P (plan_vm m)) st.1.1 →
        Forall (λ m, P (plan_vm m)) (fold_left (plan_violation self cs) l st).1.1.
Proof.
  intros HP. induction l as [|vm l IH]; intros st Hst; simpl; [done|].
  apply IH. apply plan_violation_names; [|done]. intros cm planned. apply HP.
Qed.

Lemma aa_pass_names so self cs cm names (P : VM → Prop) :
  (∀ vm cm planned, fst (get_preferred_host_for_vm cs cm vm planned) ≠ None → P vm) →
  Forall (λ m, P (plan_vm m))
    (_plan_anti_affinity_migrations so self cs cm names).1.1.
Proof.
  intros HP. unfold _plan_anti_affinity_migrations.
  apply aa_fold_names; [done|]. by constructor.
Qed.

Lemma preferred_host_short_name cs cm vm planned :
  (String.length (vm_name vm) < 3)%nat →
  get_preferred_host_for_vm cs cm vm planned = (None, cm).
Proof.
  intros Hlen. unfold get_preferred_host_for_vm.
  by destruct (Nat.ltb_spec (String.length (vm_name vm)) 3); [|lia].
Qed.

(** C10.  A VM whose name has fewer than three characters gets no
    preferred host, whatever the cluster state, the grouping and the moves
    already planned are; the anti-affinity pass therefore plans no move
    for it.  The grouping itself does put such a VM in the group of its
    anti-affinity key as soon as its name is not empty. *)
Theorem short_name_gets_no_anti_affinity_move cs vm :
  (String.length (vm_name vm) < 3)%nat →
  (∀ cm planned, get_preferred_host_for_vm cs cm vm planned = (None, cm))
  ∧ (∀ so self cm names m,
       m ∈ (_plan_anti_affinity_migrations so self cs cm names).1.1 →
       plan_vm m ≠ vm)
  ∧ (∀ cm, vm ∈ vms cs → (1 ≤ String.length (vm_name vm))%nat →
       ∃ g, od_get (_get_vm_prefix (vm_name vm))
              (vm_distribution (enforce_anti_affinity cs cm)) = Some g
            ∧ vm ∈ g).
Proof.
  intros Hlen. split; [|split].
  - intros cm planned. by apply preferred_host_short_name.
  - intros so self cm names m Hm Heq. rewrite <- Heq in Hlen.
    pose proof (aa_pass_names so self cs cm names
                  (λ v, (3 ≤ String.length (vm_name v))%nat)) as HF.
    rewrite Forall_forall in HF. specialize (HF ltac:(
      intros v cm' planned Hne;
      destruct (Nat.le_gt_cases 3 (String.length (vm_name v))) as [|Hlt]; [done|];
      by rewrite (preferred_host_short_name _ _ _ _ Hlt) in Hne) m Hm).
    simpl in HF. lia.
  - intros cm Hin Hlen1. simpl. apply grouping_contains; [done|by left].
Qed.

Definition vm_ab : VM :=
  {| vm_moId := "vm-1"; vm_name := "ab";
     vm_runtime_host := Some {| host_moId := "host-1"; host_name := "H1" |};
     vm_config_template := false |}.

Definition cs_ab : ClusterState.t :=
  {| vms := [vm_ab];
     hosts := [{| host_moId := "host-1"; host_name := "H1" |};
               {| host_moId := "host-2"; host_name := "H2" |}];
     vm_metrics := ∅; host_metrics := ∅ |}.

Lemma short_name_gets_no_anti_affinity_move_witness :
  (String.length (vm_name vm_ab) < 3)%nat
  ∧ ∃ g, od_get "ab"
           (vm_distribution
              (enforce_anti_affinity cs_ab {| vm_distribution := []; violations := [] |}))
         = Some g ∧ vm_ab ∈ g.
Proof.
  assert (H : (String.length (vm_name vm_ab) < 3)%nat) by (simpl; lia).
  split; [exact H|].
  destruct (short_name_gets_no_anti_affinity_move cs_ab vm_ab H) as (_ & _ & H3).
  apply (H3 {| vm_distribution := []; violations := [] |}).
  - simpl. left.
  - simpl. lia.
Defined.

(** ** The key used by the safety check of the balancing pass *)

Module Web.

Definition H1 : Host := {| host_moId := "host-1"; host_name := "H1" |}.
Definition H2 : Host := {| host_moId := "host-2"; host_name := "H2" |}.
Definition H3 : Host := {| host_moId := "host-3"; host_name := "H3" |}.

Definition vm (id name : string) (h : Host) : VM :=
  {| vm_moId := id; vm_name := name; vm_runtime_host := Some h;
     vm_config_template := false |}.

Definition web1 := vm "vm-1" "web1" H1.
Definition web2 := vm "vm-2" "web2" H2.
Definition web3 := vm "vm-3" "web3" H3.

(** One VM of the group [web] on each of three hosts. *)
Definition cs : ClusterState.t :=
  {| vms := [web1; web2; web3]; hosts := [H1; H2; H3];
     vm_metrics := ∅; host_metrics := ∅ |}.

Definition cm : ConstraintManager.t :=
  ConstraintManager.apply (λ l, l) cs {| vm_distribution := []; violations := [] |}.

End Web.

(** C1.  On three hosts holding [web1], [web2] and [web3], moving [web2]
    next to [web1] leaves the hosts with 2, 0 and 1 VMs of the group
    [web].  The safety check looks the group up under [name[:-2]], that is
    [we], finds none and answers that the move is safe; looked up under
    the anti-affinity key [web], the same check rejects the move. *)
Theorem safety_check_looks_up_wrong_group :
  drop_last2 "web2" = "we"
  ∧ _get_vm_prefix "web2" = "web"
  ∧ vm_distribution Web.cm = [("web", [Web.web1; Web.web2; Web.web3])]
  ∧ _is_anti_affinity_safe Web.cs Web.cm Web.web2 Web.H1 [] = (true, Web.cm)
  ∧ spread_check_for_prefix (_get_vm_prefix (vm_name Web.web2))
      Web.cs Web.cm Web.web2 Web.H1 [] = (false, Web.cm).
Proof. repeat split; vm_compute; reflexivity. Qed.

(** ** Usage percentages *)

Lemma Qlt_bool_true x y : Qlt_bool x y = true ↔ (x < y)%Q.
Proof.
  unfold Qlt_bool. rewrite negb_true_iff, <- not_true_iff_false, Qle_bool_iff.
  split; [apply Qnot_le_lt | apply Qlt_not_le].
Qed.

Lemma Qlt_bool_false x y : Qlt_bool x y = false ↔ (y <= x)%Q.
Proof.
  unfold Qlt_bool. rewrite negb_false_iff. apply Qle_bool_iff.
Qed.

Lemma truediv_nonzero a b : ¬ (b == 0)%Q → truediv a b = Ok (a / b)%Q.
Proof.
  intros Hb. unfold truediv. destruct (Qeq_bool b 0) eqn:E; [|done].
  by apply Qeq_bool_iff in E.
Qed.

Lemma percentage_ok usage capacity :
  LoadEvaluator.percentage usage capacity = Ok (pct_or 0 usage capacity).
Proof.
  unfold LoadEvaluator.percentage, pct_or.
  destruct (Qlt_bool 0 capacity) eqn:E; [|done].
  apply Qlt_bool_true in E. rewrite truediv_nonzero; [done|].
  intros H. rewrite H in E. by apply Qlt_irrefl in E.
Qed.

(** The percentage of one resource of one entry of the host list. *)
Definition entry_percentage (usage_key capacity_key : string) (h : host_entry) : Q :=
  match h with
  | NotADict => 0%Q
  | HostDict _ d => pct_or 0 (dget d usage_key 0) (dget d capacity_key 0)
  end.

Definition percentages_of (l : list host_entry) : LoadEvaluator.percentage_lists :=
  (map (entry_percentage "cpu_usage" "cpu_capacity") l,
   map (entry_percentage "memory_usage" "memory_capacity") l,
   map (entry_percentage "disk_io_usage" "disk_io_capacity") l,
   map (entry_percentage "network_io_usage" "network_capacity") l).

Lemma percentage_loop_ok l : ∀ c m d n,
  LoadEvaluator.percentage_loop l (c, m, d, n)
  = Ok (c ++ (percentages_of l).1.1.1, m ++ (percentages_of l).1.1.2,
        d ++ (percentages_of l).1.2, n ++ (percentages_of l).2).
Proof.
  induction l as [|h l IH]; intros c m d n; simpl.
  - by rewrite !app_nil_r.
  - destruct h as [|name dict]; simpl.
    + rewrite IH. simpl. by rewrite <- !app_assoc.
    + rewrite !percentage_ok. simpl. rewrite IH. simpl. by rewrite <- !app_assoc.
Qed.

(** The lists a load evaluator answers with: its cache when it has one,
    the percentages of its hosts otherwise. *)
Definition current_lists (le : LoadEvaluator.t) : LoadEvaluator.percentage_lists :=
  match LoadEvaluator._cache_percentage_lists le with
  | Some c => c
  | None => percentages_of (LoadEvaluator.hosts le)
  end.

Lemma get_resource_percentage_lists_ok le :
  LoadEvaluator.get_resource_percentage_lists le
  = Ok (current_lists le, LoadEvaluator.set_cache le (Some (current_lists le))).
Proof.
  unfold LoadEvaluator.get_resource_percentage_lists, current_lists.
  destruct le as [hs [c|]]; simpl; [done|].
  destruct hs as [|h hs]; [done|].
  by rewrite percentage_loop_ok.
Qed.

(** [p] is the percentage of [usage] in [capacity]. *)
Definition is_percentage_of (usage capacity p : Q) : Prop :=
  ((0 < capacity)%Q → p = (usage / capacity * 100)%Q)
  ∧ ((capacity <= 0)%Q → p = 0%Q).

Lemma pct_or_is_percentage usage capacity :
  is_percentage_of usage capacity (pct_or 0 usage capacity).
Proof.
  unfold is_percentage_of, pct_or. destruct (Qlt_bool 0 capacity) eqn:E.
  - apply Qlt_bool_true in E. split; [done|]. intros H.
    exfalso. by apply (Qlt_not_le _ _ E).
  - apply Qlt_bool_false in E. split; [|done]. intros H.
    exfalso. by apply (Qlt_not_le _ _ H).
Qed.

(** C9.  [get_resource_percentage_lists] never raises.  When it computes
    the lists (no cached answer), each of the four lists has one entry per
    host entry, and for a host dictionary the entry is usage / capacity *
    100 when the capacity is positive and 0 when the capacity is 0 (or
    negative), a missing value counting as 0. *)
Theorem percentages_never_divide_by_zero (le : LoadEvaluator.t) :
  ∃ cpu mem disk net le',
    LoadEvaluator.get_resource_percentage_lists le = Ok ((cpu, mem, disk, net), le')
    ∧ (LoadEvaluator._cache_percentage_lists le = None →
       length cpu = length (LoadEvaluator.hosts le)
       ∧ length mem = length (LoadEvaluator.hosts le)
       ∧ length disk = length (LoadEvaluator.hosts le)
       ∧ length net = length (LoadEvaluator.hosts le)
       ∧ ∀ (i : nat) name d,
           LoadEvaluator.hosts le !! i = Some (HostDict name d) →
           ∃ pc pm pd pn,
             cpu !! i = Some pc ∧ mem !! i = Some pm
             ∧ disk !! i = Some pd ∧ net !! i = Some pn
             ∧ is_percentage_of (dget d "cpu_usage" 0) (dget d "cpu_capacity" 0) pc
             ∧ is_percentage_of (dget d "memory_usage" 0) (dget d "memory_capacity" 0) pm
             ∧ is_percentage_of (dget d "disk_io_usage" 0) (dget d "disk_io_capacity" 0) pd
             ∧ is_percentage_of (dget d "network_io_usage" 0)
                 (dget d "network_capacity" 0) pn).
Proof.
  rewrite get_resource_percentage_lists_ok.
  destruct (current_lists le) as [[[cpu mem] disk] net] eqn:E.
  exists cpu, mem, disk, net. eexists. split; [done|].
  intros Hc. unfold current_lists in E. rewrite Hc in E.
  unfold percentages_of in E. injection E as <- <- <- <-.
  rewrite !length_map. repeat split.
  intros i name d Hi.
  rewrite !list_lookup_fmap, Hi. simpl.
  do 4 eexists. repeat (split; [reflexivity|]).
  repeat split; apply pct_or_is_percentage.
Qed.

Definition le_zero_capacity : LoadEvaluator.t :=
  {| LoadEvaluator.hosts :=
       [HostDict (Some "H1")
          (list_to_map [("cpu_usage", 500%Q); ("cpu_capacity", 1000%Q);
                        ("memory_usage", 10%Q); ("memory_capacity", 0%Q)])];
     LoadEvaluator._cache_percentage_lists := None |}.

Lemma percentages_never_divide_by_zero_witness :
  ∃ cpu mem disk net le',
    LoadEvaluator.get_resource_percentage_lists le_zero_capacity
    = Ok ((cpu, mem, disk, net), le')
    ∧ ∃ pc pm, cpu !! 0%nat = Some pc ∧ mem !! 0%nat = Some pm
               ∧ pc = (500 / 1000 * 100)%Q ∧ pm = 0%Q.
Proof.
  destruct (percentages_never_divide_by_zero le_zero_capacity)
    as (cpu & mem & disk & net & le' & Hr & H).
  exists cpu, mem, disk, net, le'. split; [exact Hr|].
  destruct (H eq_refl) as (_ & _ & _ & _ & Hi).
  destruct (Hi 0%nat _ _ eq_refl) as (pc & pm & pd & pn & Hc & Hm & _ & _ & Pc & Pm & _).
  exists pc, pm. repeat split; [exact Hc | exact Hm | |].
  - apply Pc. reflexivity.
  - apply Pm. vm_compute. discriminate.
Defined.

(** ** Missing metrics *)





Module Idle.

Definition H1 : Host := {| host_moId := "host-1"; host_name := "H1" |}.
Definition H2 : Host := {| host_moId := "host-2"; host_name := "H2" |}.

Definition vm1 : VM :=
  {| vm_moId := "vm-1"; vm_name := "vm1"; vm_runtime_host := Some H1;
     vm_config_template := false |}.

(** [vm1] has no metrics; the target [H2] is nearly idle. *)
Definition cs : ClusterState.t :=
  {| vms := [vm1]; hosts := [H1; H2];
     vm_metrics := ∅;
     host_metrics :=
       list_to_map
         [("H2", list_to_map [("cpu_usage", 100%Q); ("cpu_capacity", 1000%Q);
                              ("memory_capacity", 1000%Q)])] |}.

End Idle.


Lemma dict_empty_true {V} (d : gmap string V) : dict_empty d = true ↔ d = ∅.
Proof.
  unfold dict_empty. rewrite <- map_to_list_empty_iff.
  by destruct (map_to_list d).
Qed.




Section fit_checks.
Variables (cs : ClusterState.t) (vm : VM) (h : Host).

Lemma fit_soft_90 : _would_fit_on_host cs vm h = _would_fit_on_host_soft cs vm h 90 90.
Proof. reflexivity. Qed.



End fit_checks.





(** ** The monadic functions always return *)

Lemma fold_left_inv {A B} (P : A → Prop) (f : A → B → A) (l : list B) :
  ∀ a, P a → (∀ a b, b ∈ l → P a → P (f a b)) → P (fold_left f l a).
Proof.
  induction l as [|b l IH]; intros a Ha Hf; simpl; [done|].
  apply IH.
  - apply Hf; [left | done].
  - intros a' b' Hb'. apply Hf. by right.
Qed.

Lemma evaluate_resource_ok amd thr r :
  ∃ d, LoadEvaluator.evaluate_resource amd thr r = Ok d.
Proof.
  unfold LoadEvaluator.evaluate_resource.
  destruct (od_get r thr) as [t|]; [|by eexists].
  destruct (od_get_default r [] amd) as [|p [|p' ps]]; by eexists.
Qed.

Lemma evaluate_loop_ok amd thr metrics : ∀ acc,
  ∃ r, LoadEvaluator.evaluate_loop amd thr metrics acc = Ok r.
Proof.
  induction metrics as [|m metrics IH]; intros acc; simpl; [by eexists|].
  destruct (evaluate_resource_ok amd thr m) as [d ->]. simpl. apply IH.
Qed.

Lemma evaluate_imbalance_ok le metrics a c m d n :
  ∃ r le', LoadEvaluator.evaluate_imbalance le metrics a c m d n = Ok (r, le').
Proof.
  unfold LoadEvaluator.evaluate_imbalance.
  assert (∃ l le1,
    match c, m, d, n with
    | Some c, Some m, Some d, Some n => mret (c, m, d, n, le)
    | _, _, _, _ => LoadEvaluator.get_resource_percentage_lists le
    end = Ok (l, le1)) as (l & le1 & ->).
  { destruct c, m, d, n; rewrite ?get_resource_percentage_lists_ok; by do 2 eexists. }
  simpl. destruct l as [[[c' m'] d'] n'].
  edestruct evaluate_loop_ok as [r ->]. simpl. by do 2 eexists.
Qed.

Lemma is_balanced_ok le metrics a :
  ∃ b le', LoadEvaluator.is_balanced le metrics a = Ok (b, le').
Proof.
  unfold LoadEvaluator.is_balanced.
  destruct (evaluate_imbalance_ok le metrics a None None None None) as (r & le' & ->).
  simpl. by do 2 eexists.
Qed.

Lemma get_all_host_resource_percentages_map_ok le :
  ∃ m le', LoadEvaluator.get_all_host_resource_percentages_map le = Ok (m, le').
Proof.
  unfold LoadEvaluator.get_all_host_resource_percentages_map.
  rewrite get_resource_percentage_lists_ok. simpl. by do 2 eexists.
Qed.

(** ** The simulation of planned moves *)

(** The loads after the simulated moves, as the simulation builds them. *)
Definition simulated_loads (cs : ClusterState.t) (migs : list migration)
  : gmap string abs_load :=
  fold_left (simulate_migration cs) migs
    (fold_left (λ loads host_obj,
                  <[host_name host_obj := initial_load cs host_obj]> loads)
       (hosts cs) ∅).

Lemma simulated_ok cs le migs :
  hosts cs ≠ [] →
  _get_simulated_load_data_after_migrations cs le migs
  = Ok (let r := simulated_percentages (simulated_loads cs migs)
                   (current_lists le).1.2 (current_lists le).2 0
                   (host_names_from_evaluator le (hosts cs)) ([], [], ∅) in
        (r.1.1, r.1.2, (current_lists le).1.2, (current_lists le).2, r.2,
         LoadEvaluator.set_cache le (Some (current_lists le)))).
Proof.
  intros Hne. unfold _get_simulated_load_data_after_migrations, simulated_loads.
  destruct (hosts cs) as [|h hs] eqn:Hh; [done|].
  rewrite get_resource_percentage_lists_ok. simpl.
  destruct (current_lists le) as [[[c m] d] n]. simpl.
  by destruct (simulated_percentages _ _ _ _ _ _) as [[? ?] ?].
Qed.

Lemma simulated_empty cs le migs :
  hosts cs = [] →
  _get_simulated_load_data_after_migrations cs le migs = Ok ([], [], [], [], ∅, le).
Proof.
  intros Hh. unfold _get_simulated_load_data_after_migrations. by rewrite Hh.
Qed.

Lemma simulated_always_ok cs le migs :
  ∃ r, _get_simulated_load_data_after_migrations cs le migs = Ok r.
Proof.
  destruct (decide (hosts cs = [])) as [H|H].
  - rewrite simulated_empty by done. by eexists.
  - rewrite simulated_ok by done. by eexists.
Qed.

(** The part of a host's percentages the simulation does not touch. *)
Definition disk_and_network (e : pct_entry) : Q * Q := (pct_disk e, pct_network e).

Lemma simulated_io_independent loads1 loads2 d n names : ∀ i acc1 acc2,
  disk_and_network <$> acc1.2 = disk_and_network <$> acc2.2 →
  disk_and_network <$> (simulated_percentages loads1 d n i names acc1).2
  = disk_and_network <$> (simulated_percentages loads2 d n i names acc2).2.
Proof.
  induction names as [|hn names IH]; intros i [[c1 m1] s1] [[c2 m2] s2] Hacc;
    simpl in *; [done|].
  destruct (loads1 !! hn), (loads2 !! hn); apply IH; simpl;
    by rewrite !fmap_insert, Hacc.
Qed.

Lemma simulated_io_lookup loads d n names : ∀ i acc h e,
  (simulated_percentages loads d n i names acc).2 !! h = Some e →
  acc.2 !! h = Some e
  ∨ ∃ j : nat, names !! j = Some h
       ∧ pct_disk e = default 0%Q (d !! (i + j)%nat)
       ∧ pct_network e = default 0%Q (n !! (i + j)%nat).
Proof.
  induction names as [|hn names IH]; intros i [[c m] s] h e; simpl; [by left|].
  assert (Hstep : ∀ acc' : list Q * list Q * gmap string pct_entry,
             (∀ e', acc'.2 !! h = Some e' →
                    s !! h = Some e'
                    ∨ (hn = h ∧ pct_disk e' = default 0%Q (d !! i)
                       ∧ pct_network e' = default 0%Q (n !! i))) →
             (simulated_percentages loads d n (S i) names acc').2 !! h = Some e →
             s !! h = Some e
             ∨ ∃ j : nat, (hn :: names) !! j = Some h
                 ∧ pct_disk e = default 0%Q (d !! (i + j)%nat)
                 ∧ pct_network e = default 0%Q (n !! (i + j)%nat)).
  { intros acc' Hacc H. apply IH in H as [H|(j & Hj & Hd & Hn)].
    - apply Hacc in H as [H|(-> & Hd & Hn)]; [by left|].
      right. exists 0%nat. by rewrite Nat.add_0_r.
    - right. exists (S j). by rewrite <- Nat.add_succ_comm. }
  destruct (loads !! hn) as [l|]; apply Hstep; simpl; intros e' He';
    (apply lookup_insert_Some in He' as [[-> <-]|[_ He']]; [by right | by left]).
Qed.

Lemma simulated_other_names loads d n names : ∀ i acc h,
  h ∉ names →
  (simulated_percentages loads d n i names acc).2 !! h = acc.2 !! h.
Proof.
  induction names as [|hn names IH]; intros i [[c m] s] h Hh; simpl; [done|].
  apply not_elem_of_cons in Hh as [Hne Hh].
  destruct (loads !! hn); rewrite IH by done; simpl; by rewrite lookup_insert_ne.
Qed.

Lemma simulated_io_at loads d n names : ∀ i acc (j : nat) h,
  names !! j = Some h → h ∉ drop (S j) names →
  ∃ e, (simulated_percentages loads d n i names acc).2 !! h = Some e
       ∧ pct_disk e = default 0%Q (d !! (i + j)%nat)
       ∧ pct_network e = default 0%Q (n !! (i + j)%nat).
Proof.
  induction names as [|hn names IH]; intros i [[c m] s] j h Hj Hlater; [done|].
  destruct j as [|j]; simpl in *.
  - injection Hj as ->. rewrite Nat.add_0_r.
    destruct (loads !! h); rewrite simulated_other_names by done; simpl;
      rewrite lookup_insert_eq; by eexists.
  - rewrite <- Nat.add_succ_comm. destruct (loads !! hn); by apply IH.
Qed.

Lemma evaluator_names_of_cluster cs :
  Forall (λ h, host_name h ≠ "") (hosts cs) →
  evaluator_host_names (get_cluster_state_hosts cs) = map host_name (hosts cs).
Proof.
  unfold get_cluster_state_hosts. induction (hosts cs) as [|h hs IH]; [done|].
  intros [Hh Hhs]%Forall_cons. simpl.
  apply String.eqb_neq in Hh. rewrite Hh. simpl. by rewrite IH.
Qed.

(** The load evaluator was built from the cluster state, as the front end
    does, and its cache, if filled, was filled from its hosts. *)
Definition evaluator_of (cs : ClusterState.t) (le : LoadEvaluator.t) : Prop :=
  LoadEvaluator.hosts le = get_cluster_state_hosts cs
  ∧ (LoadEvaluator._cache_percentage_lists le = None
     ∨ LoadEvaluator._cache_percentage_lists le
       = Some (percentages_of (LoadEvaluator.hosts le))).

Lemma evaluator_of_lists cs le :
  evaluator_of cs le → current_lists le = percentages_of (get_cluster_state_hosts cs).
Proof.
  intros [Hh [Hc|Hc]]; unfold current_lists; rewrite Hc; by rewrite Hh.
Qed.

(** C8.  The simulation always returns.  Whatever moves are simulated, the
    disk and network lists it returns are those of the load evaluator, and
    the disk and network percentages of every host in the simulated map
    are the ones the simulation of no move at all gives, namely the
    entries of the evaluator's lists at the position of the host.  For an
    evaluator built from the cluster state, with distinct non-empty host
    names, they are the percentages of the host's own disk and network
    usage in the snapshot. *)
Theorem simulation_keeps_disk_and_network cs le migs :
  ∃ c m d n smap le',
    _get_simulated_load_data_after_migrations cs le migs = Ok (c, m, d, n, smap, le')
    ∧ (∃ c0 m0 smap0,
         _get_simulated_load_data_after_migrations cs le [] = Ok (c0, m0, d, n, smap0, le')
         ∧ ∀ h, disk_and_network <$> (smap !! h) = disk_and_network <$> (smap0 !! h))
    ∧ (hosts cs ≠ [] →
       ∃ lists le0, LoadEvaluator.get_resource_percentage_lists le = Ok (lists, le0)
                    ∧ d = lists.1.2 ∧ n = lists.2)
    ∧ (∀ h e, smap !! h = Some e →
         ∃ i : nat, host_names_from_evaluator le (hosts cs) !! i = Some h
                    ∧ pct_disk e = default 0%Q (d !! i)
                    ∧ pct_network e = default 0%Q (n !! i))
    ∧ (evaluator_of cs le → Forall (λ h, host_name h ≠ "") (hosts cs) →
       NoDup (map host_name (hosts cs)) →
       ∀ h, h ∈ hosts cs →
         ∃ e, smap !! host_name h = Some e
              ∧ pct_disk e
                = entry_percentage "disk_io_usage" "disk_io_capacity" (host_info cs h)
              ∧ pct_network e
                = entry_percentage "network_io_usage" "network_capacity" (host_info cs h)).
Proof.
  destruct (decide (hosts cs = [])) as [Hh|Hh].
  { rewrite !simulated_empty by done. do 6 eexists. split; [done|].
    split; [by do 3 eexists|]. split; [done|]. split; [by intros h e ?|].
    intros _ _ _ h Hin. rewrite Hh in Hin. by apply elem_of_nil in Hin. }
  rewrite !simulated_ok by done. simpl.
  do 6 eexists. split; [done|]. split; [|split; [|split]].
  - do 3 eexists. split; [done|]. intros h. rewrite <- !lookup_fmap.
    f_equal. by apply simulated_io_independent.
  - intros _. rewrite get_resource_percentage_lists_ok. by do 2 eexists.
  - intros h e He. apply simulated_io_lookup in He as [He|He]; [done|].
    destruct He as (j & Hj & Hd & Hn). by exists j.
  - intros Hle Hnames Hnd h Hin.
    apply list_elem_of_lookup in Hin as [j Hj].
    assert (Hn : host_names_from_evaluator le (hosts cs) = map host_name (hosts cs)).
    { unfold host_names_from_evaluator. destruct Hle as [-> _].
      rewrite evaluator_names_of_cluster by done. by destruct (map _ _). }
    edestruct (simulated_io_at (simulated_loads cs migs) (current_lists le).1.2
                 (current_lists le).2 (host_names_from_evaluator le (hosts cs))
                 0%nat ([], [], ∅) j (host_name h)) as (e & He & Hd & Hnet).
    + rewrite Hn, list_lookup_fmap, Hj. done.
    + rewrite Hn. intros Hlater. apply list_elem_of_lookup in Hlater as [k Hk].
      rewrite lookup_drop in Hk.
      assert (Hjn : map host_name (hosts cs) !! j = Some (host_name h))
        by (by rewrite list_lookup_fmap, Hj).
      pose proof (NoDup_lookup _ _ _ _ Hnd Hjn Hk). lia.
    + exists e. split; [done|]. rewrite Hd, Hnet. simpl.
      rewrite (evaluator_of_lists cs le Hle). unfold percentages_of, get_cluster_state_hosts.
      simpl. rewrite !list_lookup_fmap, Hj. done.
Qed.

(** ** A small cluster: three hosts, three VMs of one group on the first *)

Module S1.

Definition H1 : Host := {| host_moId := "host-1"; host_name := "H1" |}.
Definition H2 : Host := {| host_moId := "host-2"; host_name := "H2" |}.
Definition H3 : Host := {| host_moId := "host-3"; host_name := "H3" |}.

Definition vm (id name : string) : VM :=
  {| vm_moId := id; vm_name := name; vm_runtime_host := Some H1;
     vm_config_template := false |}.

Definition app01 := vm "vm-1" "app01".
Definition app02 := vm "vm-2" "app02".
Definition app03 := vm "vm-3" "app03".

Definition usage (cpu mem disk net : Q) : gmap string Q :=
  list_to_map [("cpu_usage_abs", cpu); ("memory_usage_abs", mem);
               ("disk_io_usage_abs", disk); ("network_io_usage_abs", net)].

Definition host (cpu mem disk net : Q) : gmap string Q :=
  list_to_map [("cpu_usage", cpu); ("memory_usage", mem);
               ("disk_io_usage", disk); ("network_io_usage", net);
               ("cpu_capacity", 1000%Q); ("memory_capacity", 1000%Q);
               ("disk_io_capacity", 4000%Q); ("network_capacity", 1250%Q)].

Definition cs : ClusterState.t :=
  {| vms := [app01; app02; app03];
     hosts := [H1; H2; H3];
     vm_metrics :=
       list_to_map [("app01", usage 100 100 10 1); ("app02", usage 100 100 10 1);
                    ("app03", usage 100 100 10 1)];
     host_metrics :=
       list_to_map [("H1", host 300 300 30 3); ("H2", host 0 0 0 0);
                    ("H3", host 0 0 400 0)] |}.

Definition le : LoadEvaluator.t :=
  {| LoadEvaluator.hosts := get_cluster_state_hosts cs;
     LoadEvaluator._cache_percentage_lists := None |}.

(** The constraint manager after [apply()], the elements of a set being
    listed in the order they were added. *)
Definition cm : ConstraintManager.t :=
  ConstraintManager.apply (λ l, l) cs {| vm_distribution := []; violations := [] |}.

Definition move (v : VM) (h : Host) : migration :=
  {| plan_vm := v; plan_target_host := h; plan_reason := Anti_Affinity |}.

End S1.

Lemma simulation_keeps_disk_and_network_witness :
  ∃ c m d n smap le',
    _get_simulated_load_data_after_migrations S1.cs S1.le [S1.move S1.app02 S1.H3]
    = Ok (c, m, d, n, smap, le')
    ∧ ∃ e, smap !! "H3" = Some e ∧ pct_disk e = (400 / 4000 * 100)%Q.
Proof.
  destruct (simulation_keeps_disk_and_network S1.cs S1.le [S1.move S1.app02 S1.H3])
    as (c & m & d & n & smap & le' & Hr & _ & _ & _ & H).
  exists c, m, d, n, smap, le'. split; [exact Hr|].
  assert (He : evaluator_of S1.cs S1.le) by (split; [reflexivity | left; reflexivity]).
  assert (Hn : Forall (λ h, host_name h ≠ "") (hosts S1.cs))
    by (repeat constructor; discriminate).
  assert (Hd : NoDup (map host_name (hosts S1.cs)))
    by (apply (bool_decide_unpack _); vm_compute; reflexivity).
  assert (Hin : S1.H3 ∈ hosts S1.cs) by (simpl; right; right; left).
  destruct (H He Hn Hd S1.H3 Hin) as (e & He' & Hdisk & _).
  exists e. split; [exact He'|]. rewrite Hdisk. reflexivity.
Defined.

(** ** The order on host names *)

Lemma string_compare_refl s : String.compare s s = Eq.
Proof.
  induction s as [|a s IH]; simpl; [done|].
  unfold Ascii.compare. by rewrite N.compare_refl.
Qed.

Lemma string_compare_lt_trans s1 : ∀ s2 s3,
  String.compare s1 s2 = Lt → String.compare s2 s3 = Lt → String.compare s1 s3 = Lt.
Proof.
  induction s1 as [|a s1 IH]; intros [|b s2] [|c s3]; simpl; try done.
  destruct (Ascii.compare a b) eqn:Eab; try done;
    destruct (Ascii.compare b c) eqn:Ebc; try done.
  - apply Ascii.compare_eq_iff in Eab, Ebc. subst.
    unfold Ascii.compare. rewrite N.compare_refl. apply IH.
  - apply Ascii.compare_eq_iff in Eab. subst. by rewrite Ebc.
  - apply Ascii.compare_eq_iff in Ebc. subst. by rewrite Eab.
  - intros _ _. unfold Ascii.compare in *.
    rewrite N.compare_lt_iff in *. by rewrite (N.lt_trans _ _ _ Eab Ebc).
Qed.

Lemma string_ltb_irrefl s : String.ltb s s = false.
Proof. unfold String.ltb. by rewrite string_compare_refl. Qed.

Lemma string_ltb_trans s1 s2 s3 :
  String.ltb s1 s2 = true → String.ltb s2 s3 = true → String.ltb s1 s3 = true.
Proof.
  unfold String.ltb. intros H1 H2.
  destruct (String.compare s1 s2) eqn:E1; try done.
  destruct (String.compare s2 s3) eqn:E2; try done.
  by rewrite (string_compare_lt_trans _ _ _ E1 E2).
Qed.

(** ** Choosing among candidate hosts *)

Section pick.
Variable counts : list (string * Z).

(** The number of VMs of the group that [counts] records for a host. *)
Definition count_of (h : Host) : Z := od_get_default (host_name h) 0 counts.

(** [b] has a lower count than [h], or the same count and a name that
    does not come after the name of [h]. *)
Definition preferred_to (b h : Host) : Prop :=
  count_of b < count_of h
  ∨ (count_of b = count_of h ∧ String.ltb (host_name h) (host_name b) = false).

(** [b] is a candidate of [l] with the lowest count and, among those,
    the smallest name. *)
Definition best_of (l : list Host) (b : Host) : Prop :=
  b ∈ l ∧ ∀ h, h ∈ l → preferred_to b h.

Definition pick_inv (l : list Host) (st : option Z * option Host) : Prop :=
  match st with
  | (Some c, Some b) => c = count_of b ∧ best_of l b
  | (None, None) => l = []
  | _ => False
  end.

Lemma pick_step_inv l st x :
  pick_inv l st → pick_inv (l ++ [x]) (pick_step counts st x).
Proof.
  destruct st as [[c|] [b|]]; simpl; try done.
  - intros [-> [Hb Hbest]]. unfold pick_step. fold (count_of x).
    destruct (Z.ltb_spec (count_of x) (count_of b)) as [Hlt|Hge].
    + split; [done|]. split; [apply elem_of_app; right; by left|].
      intros h [Hh|Hh%list_elem_of_singleton]%elem_of_app.
      * left. destruct (Hbest h Hh) as [?|[? _]]; lia.
      * subst h. right. split; [done|apply string_ltb_irrefl].
    + destruct (Z.eqb_spec (count_of x) (count_of b)) as [Heq|Hne].
      * destruct (String.ltb (host_name x) (host_name b)) eqn:Hname.
        -- split; [done|]. split; [apply elem_of_app; right; by left|].
           intros h [Hh|Hh%list_elem_of_singleton]%elem_of_app.
           ++ destruct (Hbest h Hh) as [?|[? Hn]]; [left; lia|].
              right. split; [lia|].
              destruct (String.ltb (host_name h) (host_name x)) eqn:Hhx; [|done].
              by rewrite (string_ltb_trans _ _ _ Hhx Hname) in Hn.
           ++ subst h. right. split; [done|apply string_ltb_irrefl].
        -- split; [done|]. split; [apply elem_of_app; by left|].
           intros h [Hh|Hh%list_elem_of_singleton]%elem_of_app; [by apply Hbest|].
           subst h. right. split; [lia|done].
      * split; [done|]. split; [apply elem_of_app; by left|].
        intros h [Hh|Hh%list_elem_of_singleton]%elem_of_app; [by apply Hbest|].
        subst h. left. lia.
  - intros ->. unfold pick_step. simpl. split; [done|]. split; [by left|].
    intros h Hh%list_elem_of_singleton. subst h. right.
    split; [done|apply string_ltb_irrefl].
Qed.

Lemma pick_fold_inv l : ∀ pre st,
  pick_inv pre st → pick_inv (pre ++ l) (fold_left (pick_step counts) l st).
Proof.
  induction l as [|x l IH]; intros pre st Hst; simpl.
  - by rewrite app_nil_r.
  - replace (pre ++ x :: l) with ((pre ++ [x]) ++ l) by by rewrite <- app_assoc.
    apply IH. by apply pick_step_inv.
Qed.

(** The host picked among [l]: none when [l] is empty, the best one
    otherwise. *)
Lemma pick_spec l :
  match snd (fold_left (pick_step counts) l (None, None)) with
  | Some b => best_of l b
  | None => l = []
  end.
Proof.
  pose proof (pick_fold_inv l [] (None, None) eq_refl) as H. simpl in H.
  destruct (fold_left _ _ _) as [[c|] [b|]]; simpl in *; try done. by destruct H.
Qed.

Lemma better_fold_filter src sc l : ∀ st,
  fold_left (better_step counts src sc) l st
  = fold_left (pick_step counts)
      (filter (λ h, host_name h ≠ src ∧ count_of h < sc) l) st.
Proof.
  induction l as [|h l IH]; intros st; simpl; [done|].
  rewrite IH. unfold better_step. fold (count_of h).
  destruct (String.eqb_spec (host_name h) src) as [He|He].
  - rewrite filter_cons_False; [done|]. by intros [? _].
  - destruct (Z.ltb_spec (count_of h) sc).
    + by rewrite filter_cons_True.
    + rewrite filter_cons_False; [done|]. intros [_ ?]. lia.
Qed.
End pick.

(** ** Minimum, maximum and spread of host counts *)

Lemma maxZ_spec c cs : maxZ c cs ∈ c :: cs ∧ ∀ x, x ∈ c :: cs → x ≤ maxZ c cs.
Proof.
  unfold maxZ. revert c. induction cs as [|y cs IH]; intros c; simpl.
  - split; [by left|]. by intros x ->%list_elem_of_singleton.
  - destruct (IH (Z.max c y)) as [Hin Hge]. split.
    + apply elem_of_cons in Hin as [Hin|Hin]; [|by do 2 right].
      rewrite Hin. destruct (Z.max_spec c y) as [[_ ->]|[_ ->]]; [right|]; by left.
    + intros x Hx. apply elem_of_cons in Hx as [->|Hx].
      * specialize (Hge (Z.max c y) ltac:(by left)). lia.
      * apply elem_of_cons in Hx as [->|Hx].
        -- specialize (Hge (Z.max c y) ltac:(by left)). lia.
        -- apply Hge. by right.
Qed.

Lemma minZ_spec c cs : minZ c cs ∈ c :: cs ∧ ∀ x, x ∈ c :: cs → minZ c cs ≤ x.
Proof.
  unfold minZ. revert c. induction cs as [|y cs IH]; intros c; simpl.
  - split; [by left|]. by intros x ->%list_elem_of_singleton.
  - destruct (IH (Z.min c y)) as [Hin Hle]. split.
    + apply elem_of_cons in Hin as [Hin|Hin]; [|by do 2 right].
      rewrite Hin. destruct (Z.min_spec c y) as [[_ ->]|[_ ->]]; [|right]; by left.
    + intros x Hx. apply elem_of_cons in Hx as [->|Hx].
      * specialize (Hle (Z.min c y) ltac:(by left)). lia.
      * apply elem_of_cons in Hx as [->|Hx].
        -- specialize (Hle (Z.min c y) ltac:(by left)). lia.
        -- apply Hle. by right.
Qed.

(** No two counts differ by more than one. *)
Definition spread_at_most_one (l : list Z) : Prop :=
  ∀ x y, x ∈ l → y ∈ l → x - y ≤ 1.

Lemma spread_check c cs :
  (maxZ c cs - minZ c cs <=? 1) = true ↔ spread_at_most_one (c :: cs).
Proof.
  destruct (maxZ_spec c cs) as [Hmi Hm], (minZ_spec c cs) as [Hni Hn].
  rewrite Z.leb_le. split.
  - intros H x y Hx Hy. specialize (Hm x Hx). specialize (Hn y Hy). lia.
  - intros H. by apply H.
Qed.

(** ** The two stages of the choice of a preferred host *)

Section stages.
Variables (counts : list (string * Z)) (src : string) (hs : list Host).

(** Stage 1 accepts [t]: it is not the source host and, once one VM of
    the group is counted on [t] instead of the source, no two hosts
    differ by more than one. *)
Definition stage1_accepts (t : Host) : Prop :=
  host_name t ≠ src
  ∧ spread_at_most_one (counts_of_hosts hs (simulate_move counts src (host_name t))).

(** Stage 2 accepts [t]: it is not the source host and holds fewer VMs
    of the group than the source host. *)
Definition stage2_accepts (t : Host) : Prop :=
  host_name t ≠ src ∧ count_of counts t < od_get_default src 0 counts.

Lemma perfect_candidate_iff t :
  t ∈ hs →
  is_perfect_balance_candidate counts src hs t = true ↔ stage1_accepts t.
Proof.
  intros Ht. unfold is_perfect_balance_candidate, stage1_accepts.
  destruct (String.eqb_spec (host_name t) src) as [He|He];
    [split; [done | by intros [? _]] |].
  destruct (counts_of_hosts hs _) as [|c cs] eqn:E.
  - exfalso. assert (Hin : od_get_default (host_name t) 0
                             (od_set src (od_get_default src 1 counts - 1) counts) + 1
                           ∈ counts_of_hosts hs (simulate_move counts src (host_name t))).
    { apply list_elem_of_omap. exists t. split; [done|].
      unfold simulate_move. by rewrite od_get_set_eq. }
    rewrite E in Hin. by apply elem_of_nil in Hin.
  - rewrite spread_check. split; [by intros ?; split | by intros [_ ?]].
Qed.

Lemma find_perfect_spec :
  match _find_perfect_balance_host counts src hs with
  | Some b => (b ∈ hs ∧ stage1_accepts b)
              ∧ ∀ t, t ∈ hs ∧ stage1_accepts t → preferred_to counts b t
  | None => ∀ t, ¬ (t ∈ hs ∧ stage1_accepts t)
  end.
Proof.
  unfold _find_perfect_balance_host.
  pose proof (pick_spec counts
    (filter (λ h, is_perfect_balance_candidate counts src hs h = true) hs)) as H.
  destruct (snd _) as [b|].
  - destruct H as [Hb Hbest]. apply list_elem_of_filter in Hb as [Hb Hin].
    split; [by rewrite <- perfect_candidate_iff|].
    intros t [Ht Hacc]. apply Hbest. apply list_elem_of_filter.
    by rewrite perfect_candidate_iff.
  - intros t [Ht Hacc]. assert (Hin : t ∈ @nil Host); [|by apply elem_of_nil in Hin].
    rewrite <- H. apply list_elem_of_filter. by rewrite perfect_candidate_iff.
Qed.

Lemma find_better_spec :
  match _find_better_than_source_host counts src (od_get_default src 0 counts) hs with
  | Some b => (b ∈ hs ∧ stage2_accepts b)
              ∧ ∀ t, t ∈ hs ∧ stage2_accepts t → preferred_to counts b t
  | None => ∀ t, ¬ (t ∈ hs ∧ stage2_accepts t)
  end.
Proof.
  unfold _find_better_than_source_host. rewrite better_fold_filter.
  pose proof (pick_spec counts
    (filter (λ h, host_name h ≠ src ∧ count_of counts h < od_get_default src 0 counts)
       hs)) as H.
  destruct (snd _) as [b|].
  - destruct H as [Hb Hbest]. apply list_elem_of_filter in Hb as [Hb Hin].
    split; [done|]. intros t [Ht Hacc]. apply Hbest. by apply list_elem_of_filter.
  - intros t [Ht Hacc]. assert (Hin : t ∈ @nil Host); [|by apply elem_of_nil in Hin].
    rewrite <- H. by apply list_elem_of_filter.
Qed.
End stages.




(** ** Counting the VMs of a group per host *)

Section odict_keys.
Context {V : Type}.
Implicit Types (d : list (string * V)) (k : string) (v : V).

Lemma od_set_keys_new d k v :
  od_get k d = None → map fst (od_set k v d) = map fst d ++ [k].
Proof.
  induction d as [|[k0 v0] d IH]; simpl; [done|].
  destruct (String.eqb k k0) eqn:E; [done|]. intros H. simpl. by rewrite IH.
Qed.

Lemma od_set_NoDup d k v : NoDup (map fst d) → NoDup (map fst (od_set k v d)).
Proof.
  intros Hd. destruct (od_get k d) as [x|] eqn:E.
  - rewrite od_set_keys; [done | by eexists].
  - rewrite od_set_keys_new by done. apply NoDup_app. split; [done|].
    split; [|apply NoDup_singleton].
    intros k' Hk' ->%list_elem_of_singleton.
    apply od_get_is_Some in Hk' as [? ?]. congruence.
Qed.

Lemma od_elem_get d k v : NoDup (map fst d) → (k, v) ∈ d ↔ od_get k d = Some v.
Proof.
  intros Hd. split; [|apply od_get_Some_elem].
  induction d as [|[k0 v0] d IH]; simpl; [by intros ?%elem_of_nil|].
  apply NoDup_cons in Hd as [Hk0 Hd]. simpl in Hk0.
  intros [[= -> ->]|Hin]%elem_of_cons.
  - by rewrite String.eqb_refl.
  - destruct (String.eqb_spec k k0) as [->|_]; [|by apply IH].
    exfalso. apply Hk0. apply list_elem_of_fmap. by exists (k0, v).
Qed.

Lemma by_host_name_fold v hs : ∀ d,
  NoDup (map fst d) →
  let d' := fold_left (λ d host, od_set (host_name host) v d) hs d in
  NoDup (map fst d')
  ∧ ∀ n, od_get n d'
         = if decide (n ∈ map host_name hs) then Some v else od_get n d.
Proof.
  induction hs as [|h hs IH]; intros d Hd; cbn [fold_left map].
  - split; [done|]. intros n.
    destruct (decide (n ∈ [])) as [H|H]; [by apply elem_of_nil in H|done].
  - destruct (IH (od_set (host_name h) v d) (od_set_NoDup _ _ _ Hd)) as [Hnd Hget].
    split; [done|]. intros n. rewrite Hget, od_get_set.
    destruct (decide (n ∈ map host_name hs)) as [H1|H1];
      destruct (decide (n ∈ host_name h :: map host_name hs)) as [H2|H2];
      try done.
    + exfalso. apply H2. by right.
    + destruct (decide (host_name h = n)) as [H3|H3]; [done|].
      exfalso. apply elem_of_cons in H2 as [H2|H2]; congruence.
    + destruct (decide (host_name h = n)) as [H3|H3]; [|done].
      exfalso. apply H2. subst. by left.
Qed.

Lemma by_host_name_spec v hs :
  NoDup (map fst (by_host_name v hs))
  ∧ ∀ n, od_get n (by_host_name v hs)
         = if decide (n ∈ map host_name hs) then Some v else None.
Proof. apply (by_host_name_fold v hs []). constructor. Qed.
End odict_keys.

(** [v] is placed on a host called [n]. *)
Definition on_host (n : string) (v : VM) : Prop :=
  host_name <$> get_host_of_vm v = Some n.

#[export] Instance on_host_dec n v : Decision (on_host n v).
Proof. unfold on_host. apply _. Defined.

(** The VMs of [group] on the host called [n], and their number. *)
Definition vms_on (n : string) (group : list VM) : list VM := filter (on_host n) group.

Definition group_count (group : list VM) (n : string) : Z :=
  Z.of_nat (length (vms_on n group)).

Lemma vms_on_cons n v l :
  vms_on n (v :: l) = if decide (on_host n v) then v :: vms_on n l else vms_on n l.
Proof. unfold vms_on. apply filter_cons. Qed.

Lemma group_count_cons n v l :
  group_count (v :: l) n = (if decide (on_host n v) then 1 else 0) + group_count l n.
Proof. unfold group_count. rewrite vms_on_cons. case_decide; simpl; lia. Qed.

Lemma group_count_nonneg l n : 0 ≤ group_count l n.
Proof. unfold group_count. lia. Qed.

Lemma count_fold l : ∀ c m k,
  (∀ n, is_Some (od_get n c) ↔ is_Some (od_get n m)) →
  NoDup (map fst c) →
  ∃ c' m' k',
    fold_left count_group_step l (c, m, k) = (c', m', k')
    ∧ NoDup (map fst c')
    ∧ (∀ n, od_get n c' = (λ x, x + group_count l n) <$> od_get n c)
    ∧ (∀ n, od_get n m' = (λ L, L ++ vms_on n l) <$> od_get n m)
    ∧ (∀ n, is_Some (od_get n c) → group_count l n ≤ k' - k).
Proof.
  induction l as [|v l IH]; intros c m k Hcm Hnd; simpl.
  - exists c, m, k. split; [done|]. split; [done|]. repeat split.
    + intros n. destruct (od_get n c); simpl; [f_equal; unfold group_count; simpl; lia|done].
    + intros n. destruct (od_get n m); simpl; [by rewrite app_nil_r|done].
    + intros n _. unfold group_count. simpl. lia.
  - destruct (get_host_of_vm v) as [h|] eqn:Hv.
    + destruct (od_mem (host_name h) c) eqn:Hmem.
      * apply od_mem_true in Hmem. pose proof Hmem as [x Hx].
        pose proof (proj1 (Hcm _) Hmem) as [L HL].
        unfold incr_if_present, od_get_default. rewrite Hx, HL.
        edestruct (IH (od_set (host_name h) (x + 1) c)
                      (od_set (host_name h) (L ++ [v]) m) (k + 1))
          as (c' & m' & k' & -> & Hnd' & Hc' & Hm' & Hk').
        { intros n. rewrite !od_get_set. case_decide; [by split; eexists|apply Hcm]. }
        { by apply od_set_NoDup. }
        exists c', m', k'. split; [done|]. split; [done|]. repeat split.
        -- intros n. rewrite Hc', od_get_set, group_count_cons.
           assert (Hon : on_host n v ↔ host_name h = n)
             by (unfold on_host; rewrite Hv; simpl; split; congruence).
           destruct (decide (host_name h = n)) as [E|E].
           ++ rewrite decide_True by (by apply Hon). subst n. rewrite Hx. simpl.
              f_equal. lia.
           ++ rewrite decide_False by (by rewrite Hon). by destruct (od_get n c).
        -- intros n. rewrite Hm', od_get_set, vms_on_cons.
           assert (Hon : on_host n v ↔ host_name h = n)
             by (unfold on_host; rewrite Hv; simpl; split; congruence).
           destruct (decide (host_name h = n)) as [E|E].
           ++ rewrite decide_True by (by apply Hon). subst n. rewrite HL. simpl.
              by rewrite <- app_assoc.
           ++ rewrite decide_False by (by rewrite Hon). by destruct (od_get n m).
        -- intros n Hn. rewrite group_count_cons.
           assert (group_count l n ≤ k' - (k + 1)).
           { apply Hk'. rewrite od_get_set. case_decide; [by eexists|done]. }
           case_decide; lia.
      * assert (Hnone : od_get (host_name h) c = None).
        { destruct (od_get (host_name h) c) eqn:E; [|done].
          unfold od_mem in Hmem. by rewrite E in Hmem. }
        destruct (IH c m k Hcm Hnd) as (c' & m' & k' & -> & Hnd' & Hc' & Hm' & Hk').
        exists c', m', k'. split; [done|]. split; [done|]. repeat split.
        -- intros n. rewrite Hc', group_count_cons. case_decide as E; [|done].
           unfold on_host in E. rewrite Hv in E. injection E as <-. by rewrite Hnone.
        -- intros n. rewrite Hm', vms_on_cons. case_decide as E; [|done].
           unfold on_host in E. rewrite Hv in E. injection E as <-.
           destruct (od_get (host_name h) m) eqn:Em; [|done].
           assert (is_Some (od_get (host_name h) c)) as [? ?] by (apply Hcm; by eexists).
           congruence.
        -- intros n Hn. rewrite group_count_cons. rewrite decide_False; [by apply Hk'|].
           unfold on_host. rewrite Hv. simpl. intros [= <-].
           destruct Hn as [? ?]. congruence.
    + destruct (IH c m k Hcm Hnd) as (c' & m' & k' & -> & Hnd' & Hc' & Hm' & Hk').
      exists c', m', k'. split; [done|]. split; [done|]. repeat split.
      * intros n. rewrite Hc', group_count_cons. rewrite decide_False; [done|].
        unfold on_host. by rewrite Hv.
      * intros n. rewrite Hm', vms_on_cons. rewrite decide_False; [done|].
        unfold on_host. by rewrite Hv.
      * intros n Hn. rewrite group_count_cons. rewrite decide_False; [by apply Hk'|].
        unfold on_host. by rewrite Hv.
Qed.

Lemma elem_of_flat_map {A B} (f : A → list B) (l : list A) (y : B) :
  y ∈ flat_map f l ↔ ∃ x, x ∈ l ∧ y ∈ f x.
Proof.
  induction l as [|a l IH]; simpl.
  - split; [by intros ?%elem_of_nil | by intros (x & ?%elem_of_nil & _)].
  - rewrite elem_of_app, IH. split.
    + intros [H|(x & Hx & Hy)]; [exists a; split; [left|done] |].
      exists x. split; [by right|done].
    + intros (x & [->|Hx]%elem_of_cons & Hy); [by left|]. right. by exists x.
Qed.

Lemma counts_of_hosts_spec hs (c : list (string * Z)) (f : string → Z) :
  (∀ h, h ∈ hs → od_get (host_name h) c = Some (f (host_name h))) →
  counts_of_hosts hs c = map (λ h, f (host_name h)) hs.
Proof.
  unfold counts_of_hosts. induction hs as [|h hs IH]; intros H; simpl; [done|].
  rewrite H by left. simpl. f_equal. apply IH. intros h' Hh'. apply H. by right.
Qed.

(** The spread of a group over the hosts called [names] exceeds one. *)
Definition spread_exceeds_one (names : list string) (group : list VM) : Prop :=
  ∃ n1 n2, n1 ∈ names ∧ n2 ∈ names ∧ 1 < group_count group n1 - group_count group n2.

(** No host called by one of [names] holds more VMs of the group than the
    host called [n]. *)
Definition holds_maximum (names : list string) (group : list VM) (n : string) : Prop :=
  ∀ n', n' ∈ names → group_count group n' ≤ group_count group n.

Lemma group_violations_spec hs group vm :
  let names := map host_name hs in
  vm ∈ group_violations hs group
  ↔ spread_exceeds_one names group
    ∧ ∃ n, n ∈ names ∧ vm ∈ vms_on n group ∧ holds_maximum names group n.
Proof.
  intros names. unfold group_violations.
  destruct group as [|v0 g0] eqn:Hgroup.
  { split; [by intros ?%elem_of_nil|]. intros (_ & n & _ & Hvm & _).
    by apply elem_of_nil in Hvm. }
  rewrite <- Hgroup. clear Hgroup v0 g0.
  destruct (by_host_name_spec 0 hs) as [Hnd0 Hc0].
  destruct (by_host_name_spec (@nil VM) hs) as [_ Hm0].
  destruct (count_fold group (by_host_name 0 hs) (by_host_name [] hs) 0)
    as (c & m & k & -> & Hnd & Hc & Hm & Hk); [|done|].
  { intros n. rewrite Hc0, Hm0. by case_decide. }
  assert (Hcn : ∀ n, n ∈ names → od_get n c = Some (group_count group n)).
  { intros n Hn. rewrite Hc, Hc0. fold names. by rewrite decide_True. }
  assert (Hcn' : ∀ n x, od_get n c = Some x → n ∈ names ∧ x = group_count group n).
  { intros n x. rewrite Hc, Hc0. fold names. case_decide; [|done].
    simpl. intros [= <-]. split; [done|lia]. }
  assert (Hmn : ∀ n, n ∈ names → od_get_default n [] m = vms_on n group).
  { intros n Hn. unfold od_get_default. rewrite Hm, Hm0. fold names.
    by rewrite decide_True. }
  assert (Hkn : ∀ n, n ∈ names → group_count group n ≤ k).
  { intros n Hn. specialize (Hk n). rewrite Hc0 in Hk. fold names in Hk.
    rewrite decide_True in Hk by done. specialize (Hk ltac:(by eexists)). lia. }
  destruct (Z.eqb_spec k 0) as [Hk0|Hk0].
  { split; [by intros ?%elem_of_nil|]. intros ((n1 & n2 & H1 & H2 & Hgt) & _).
    pose proof (Hkn n1 H1). pose proof (group_count_nonneg group n2). lia. }
  rewrite (counts_of_hosts_spec hs c (group_count group)).
  2:{ intros h Hh. apply Hcn. apply list_elem_of_fmap. by exists h. }
  destruct (map (λ h, group_count group (host_name h)) hs) as [|x xs] eqn:Hxs.
  { split; [by intros ?%elem_of_nil|]. intros (_ & n & Hn & _).
    unfold names in Hn. apply list_elem_of_fmap in Hn as (h & -> & Hh).
    destruct hs; [by apply elem_of_nil in Hh|done]. }
  destruct (maxZ_spec x xs) as [Hmaxin Hmax], (minZ_spec x xs) as [Hminin Hmin].
  assert (Hval : ∀ y, y ∈ x :: xs ↔ ∃ n, n ∈ names ∧ y = group_count group n).
  { intros y. rewrite <- Hxs. rewrite list_elem_of_fmap. unfold names.
    split.
    - intros (h & -> & Hh). exists (host_name h). split; [|done].
      apply list_elem_of_fmap. by exists h.
    - intros (n & Hn & ->). apply list_elem_of_fmap in Hn as (h & -> & Hh). by exists h. }
  destruct (Z.ltb_spec 1 (maxZ x xs - minZ x xs)) as [Hgt|Hle].
  - rewrite elem_of_flat_map. split.
    + intros ([n y] & Hny & Hvm). apply od_elem_get in Hny; [|done].
      apply Hcn' in Hny as [Hn ->].
      destruct (Z.eqb_spec (group_count group n) (maxZ x xs)) as [Heq|Hne];
        [|by apply elem_of_nil in Hvm].
      rewrite Hmn in Hvm by done. split.
      * apply Hval in Hmaxin as (n1 & Hn1 & E1). apply Hval in Hminin as (n2 & Hn2 & E2).
        exists n1, n2. repeat split; [done..|lia].
      * exists n. repeat split; [done..|]. intros n' Hn'. rewrite Heq. apply Hmax.
        apply Hval. by exists n'.
    + intros (_ & n & Hn & Hvm & Hmx). exists (n, group_count group n). split.
      * apply od_elem_get; [done|]. by apply Hcn.
      * assert (group_count group n = maxZ x xs) as ->.
        { apply Hval in Hmaxin as (n1 & Hn1 & E1). specialize (Hmx n1 Hn1).
          assert (group_count group n ≤ maxZ x xs) by (apply Hmax, Hval; by exists n).
          lia. }
        rewrite Z.eqb_refl. by rewrite Hmn.
  - split; [by intros ?%elem_of_nil|]. intros ((n1 & n2 & H1 & H2 & Hgt) & _).
    assert (group_count group n1 ≤ maxZ x xs) by (apply Hmax, Hval; by exists n1).
    assert (minZ x xs ≤ group_count group n2) by (apply Hmin, Hval; by exists n2).
    lia.
Qed.

(** C6.  For any iteration order of Python's set, the list of violations
    has no duplicates; with fewer than two hosts it is empty; with two
    hosts or more it holds exactly the VMs that, in some group whose
    per-host counts differ by more than one between two hosts, are placed
    on a host whose count is the maximum. *)
Theorem violations_are_the_most_loaded (so : list VM → list VM) cs cm :
  (∀ l, so l ≡ₚ l) →
  let r := calculate_anti_affinity_violations so cs cm in
  let names := map host_name (hosts cs) in
  NoDup r
  ∧ ((length (hosts cs) < 2)%nat → r = [])
  ∧ ((2 ≤ length (hosts cs))%nat →
     ∀ vm, vm ∈ r ↔
       ∃ prefix group,
         (prefix, group) ∈ vm_distribution cm
         ∧ spread_exceeds_one names group
         ∧ ∃ n, n ∈ names ∧ vm ∈ group ∧ on_host n vm
                ∧ holds_maximum names group n).
Proof.
  intros Hso r names. subst r. unfold calculate_anti_affinity_violations, list_of_set.
  destruct (Nat.leb_spec (length (hosts cs)) 1) as [Hle|Hgt].
  - split; [constructor|]. split; [done|]. lia.
  - split; [|split; [lia|]].
    + rewrite Hso. apply NoDup_remove_dups.
    + intros _ vm. rewrite Hso, elem_of_remove_dups, elem_of_flat_map. split.
      * intros ([prefix group] & Hin & Hvm).
        apply group_violations_spec in Hvm as (Hsp & n & Hn & Hvm & Hmx).
        apply list_elem_of_filter in Hvm as [Hon Hvm].
        exists prefix, group. split; [done|]. split; [done|]. by exists n.
      * intros (prefix & group & Hin & Hsp & n & Hn & Hvm & Hon & Hmx).
        exists (prefix, group). split; [done|].
        apply group_violations_spec. split; [done|]. exists n.
        split; [done|]. split; [|done]. by apply list_elem_of_filter.
Qed.

Lemma violations_are_the_most_loaded_witness :
  NoDup (calculate_anti_affinity_violations (λ l, l) S1.cs S1.cm)
  ∧ S1.app01 ∈ calculate_anti_affinity_violations (λ l, l) S1.cs S1.cm.
Proof.
  destruct (violations_are_the_most_loaded (λ l, l) S1.cs S1.cm
              (λ l, reflexivity l)) as (Hnd & _ & Hiff).
  split; [exact Hnd|].
  apply Hiff; [simpl; lia|].
  exists "app", [S1.app01; S1.app02; S1.app03]. split; [left|]. split.
  - exists "H1", "H2". split; [left|]. split; [right; left|].
    vm_compute. reflexivity.
  - exists "H1". split; [left|]. split; [left|]. split; [reflexivity|].
    intros n' Hn'. simpl in Hn'.
    repeat (apply elem_of_cons in Hn' as [->|Hn']; [vm_compute; discriminate|]).
    by apply elem_of_nil in Hn'.
Defined.

(** ** Sorting and slicing *)

Lemma insert_desc_perm {A} (key : A → Q) x l : insert_desc key x l ≡ₚ x :: l.
Proof.
  induction l as [|y l IH]; simpl; [done|].
  destruct (Qlt_bool (key x) (key y)); [|done].
  rewrite IH. apply Permutation_swap.
Qed.

Lemma sort_desc_perm {A} (key : A → Q) l : sort_desc key l ≡ₚ l.
Proof.
  unfold sort_desc. induction l as [|x l IH]; simpl; [done|].
  by rewrite insert_desc_perm, IH.
Qed.

Lemma slice_to_sublist {A} (n : Z) (l : list A) : slice_to n l `sublist_of` l.
Proof. unfold slice_to. destruct (0 <=? n); apply sublist_take. Qed.

Lemma slice_to_nonneg {A} (n : Z) (l : list A) :
  0 ≤ n → slice_to n l = take (Z.to_nat n) l.
Proof. intros H. unfold slice_to. by destruct (Z.leb_spec 0 n); [|lia]. Qed.

(** ** Facts about the choice of a target *)

Lemma preferred_host_valid cs cm vm planned t cm' :
  get_preferred_host_for_vm cs cm vm planned = (Some t, cm') →
  t ∈ hosts cs
  ∧ ∃ source, get_host_of_vm vm = Some source ∧ host_name t ≠ host_name source.
Proof.
  unfold get_preferred_host_for_vm.
  destruct (_ <? _)%nat; [done|]. cbv zeta.
  destruct (vm_distribution _) as [|p l]; [done|].
  destruct (od_get _ _) as [[|v g]|]; try done.
  destruct (get_host_of_vm vm) as [source|]; [|done].
  destruct (_ <=? _)%nat; [done|].
  match goal with
  | |- context [_find_perfect_balance_host ?c ?s ?h] =>
      pose proof (find_perfect_spec c s h) as H1;
      pose proof (find_better_spec c s h) as H2
  end.
  destruct (_find_perfect_balance_host _ _ _) as [b|].
  - intros [= <- <-]. destruct H1 as [[Hin [Hne _]] _]. split; [done|]. by exists source.
  - destruct (_find_better_than_source_host _ _ _ _) as [b|]; [|done].
    intros [= <- <-]. destruct H2 as [[Hin [Hne _]] _]. split; [done|]. by exists source.
Qed.

Section find_better.
Variables (self : MigrationManager.t) (cs : ClusterState.t).

Lemma consider_target_inv vm source spct primary details pmap planned
    (all_hosts : list Host) st h :
  h ∈ all_hosts →
  Forall (λ p : Host * Q, p.1 ∈ all_hosts ∧ host_name p.1 ≠ host_name source) st.1 →
  Forall (λ p : Host * Q, p.1 ∈ all_hosts ∧ host_name p.1 ≠ host_name source)
    (consider_target self cs vm source spct primary details pmap planned st h).1.
Proof.
  intros Hh Hst. destruct st as [targets cm]. unfold consider_target.
  destruct (String.eqb_spec (host_name h) (host_name source)) as [He|He]; [done|].
  destruct (negb _); [done|].
  destruct (if ignore_anti_affinity self then _ else _) as [aa_ok cm1].
  destruct (negb aa_ok); [done|].
  destruct (pmap !! host_name h) as [tp|]; [|done].
  destruct (negb _); [done|].
  destruct (Qlt_bool 0 _); [|done].
  simpl. apply Forall_app. split; [done|]. by repeat constructor.
Qed.

Lemma find_better_host_valid cm vm source spct primary all_hosts details pmap planned
    t cm' :
  _find_better_host_for_balancing self cs cm vm source spct primary all_hosts
    details pmap planned = (Some t, cm') →
  t ∈ all_hosts ∧ host_name t ≠ host_name source.
Proof.
  unfold _find_better_host_for_balancing.
  pose proof (fold_left_inv
    (λ st : list (Host * Q) * ConstraintManager.t,
       Forall (λ p : Host * Q, p.1 ∈ all_hosts ∧ host_name p.1 ≠ host_name source) st.1)
    (consider_target self cs vm source spct primary details pmap planned)
    all_hosts ([], cm)) as H.
  destruct (fold_left _ _ _) as [targets cm1].
  specialize (H ltac:(by constructor)
                ltac:(intros a b Hb Ha; by apply consider_target_inv)).
  simpl in H. intros [= Ht <-].
  destruct (sort_desc snd targets) as [|[t' q] rest] eqn:Hs; [done|].
  injection Ht as ->.
  rewrite Forall_forall in H. apply (H (t, q)).
  rewrite <- (sort_desc_perm snd targets), Hs. left.
Qed.

Lemma get_vms_on_host_NoDup source : NoDup (vms cs) → NoDup (get_vms_on_host cs source).
Proof.
  intros H. unfold get_vms_on_host. destruct (String.eqb _ _); [constructor|].
  by apply NoDup_filter.
Qed.

Lemma select_vms_spec source hint names :
  NoDup (vms cs) →
  NoDup (_select_vms_to_move self cs source hint names)
  ∧ ∀ v, v ∈ _select_vms_to_move self cs source hint names →
         v ∈ get_vms_on_host cs source ∧ vm_name v ∉ names.
Proof.
  intros Hnd. unfold _select_vms_to_move.
  set (cands := filter _ (get_vms_on_host cs source)).
  assert (Hc : NoDup cands) by (by apply NoDup_filter, get_vms_on_host_NoDup).
  split.
  - eapply sublist_NoDup; [|apply slice_to_sublist]. by rewrite sort_desc_perm.
  - intros v Hv. eapply elem_of_sublist in Hv; [|apply slice_to_sublist].
    rewrite sort_desc_perm in Hv. apply list_elem_of_filter in Hv as [Hp Hv].
    split; [done|]. apply andb_true_iff in Hp as [Hp _].
    apply negb_true_iff, bool_decide_eq_false in Hp. done.
Qed.
End find_better.

(** ** Invariants of the two passes *)

Section passes.
Variables (self : MigrationManager.t) (cs : ClusterState.t).

(** An anti-affinity plan: it carries that reason, its target is a host
    of the cluster, and the VM's own host has another name. *)
Definition good_aa (m : migration) : Prop :=
  is_anti_affinity m = true
  ∧ plan_target_host m ∈ hosts cs
  ∧ ∃ source, get_host_of_vm (plan_vm m) = Some source
              ∧ host_name (plan_target_host m) ≠ host_name source.

(** A balancing plan: it carries another reason, its target is a host
    of the cluster, and the VM was taken from a host of the cluster with
    another name. *)
Definition good_bal (m : migration) : Prop :=
  is_anti_affinity m = false
  ∧ plan_target_host m ∈ hosts cs
  ∧ ∃ source, source ∈ hosts cs ∧ plan_vm m ∈ get_vms_on_host cs source
              ∧ host_name (plan_target_host m) ≠ host_name source.

Definition aa_inv (st : list migration * gset string * ConstraintManager.t) : Prop :=
  Forall good_aa st.1.1
  ∧ NoDup (map plan_vm st.1.1)
  ∧ ∀ m, m ∈ st.1.1 → vm_name (plan_vm m) ∈ st.1.2.

Lemma plan_violation_inv st vm_obj :
  aa_inv st → aa_inv (plan_violation self cs st vm_obj).
Proof.
  destruct st as [[planned names] cm]. intros (Hgood & Hnd & Hnames).
  unfold plan_violation. simpl in *.
  case_bool_decide as Hin; [done|].
  destruct (vm_config_template vm_obj); [done|].
  destruct (get_preferred_host_for_vm cs cm vm_obj planned) as [[t|] cm'] eqn:E;
    [|done].
  apply preferred_host_valid in E as [Ht Hsrc].
  assert (Hnew : aa_inv (planned ++ [{| plan_vm := vm_obj; plan_target_host := t;
                                        plan_reason := Anti_Affinity |}],
                         {[vm_name vm_obj]} ∪ names, cm')).
  { split; [|split]; simpl.
    - apply Forall_app. split; [done|]. by repeat constructor.
    - rewrite map_app. simpl. apply NoDup_app. split; [done|].
      split; [|apply NoDup_singleton].
      intros v Hv ->%list_elem_of_singleton.
      apply list_elem_of_fmap in Hv as (m & -> & Hm).
      apply Hin. by apply Hnames.
    - intros m [Hm|Hm%list_elem_of_singleton]%elem_of_app; simpl.
      + apply elem_of_union. right. by apply Hnames.
      + subst m. apply elem_of_union. left. by apply elem_of_singleton. }
  destruct (anti_affinity_only self); [done|].
  by destruct (_would_fit_on_host_soft _ _ _ _ _).
Qed.

Lemma aa_pass_inv so cm :
  aa_inv (_plan_anti_affinity_migrations so self cs cm ∅).
Proof.
  unfold _plan_anti_affinity_migrations. apply fold_left_inv.
  - split; [constructor|]. split; [constructor|]. by intros m ?%elem_of_nil.
  - intros st vm _. apply plan_violation_inv.
Qed.

(** The names planned before the balancing pass starts. *)
Variable names0 : gset string.

Definition bal_inv (st : balancing_state) : Prop :=
  let '(bm, names, _, _) := st in
  Forall good_bal bm
  ∧ NoDup (map plan_vm bm)
  ∧ (∀ m, m ∈ bm → vm_name (plan_vm m) ∈ names ∧ vm_name (plan_vm m) ∉ names0)
  ∧ names0 ⊆ names.

Lemma balance_vm_inv details problematic pmap source spct reasons hint st v :
  source ∈ hosts cs → bal_inv st →
  v ∈ get_vms_on_host cs source → vm_name v ∉ names0 →
  v ∉ map plan_vm (st.1.1.1) →
  let st' := balance_vm self cs details problematic pmap source spct reasons hint
               st v in
  bal_inv st'
  ∧ ∀ v', v' ≠ v → v' ∉ map plan_vm (st.1.1.1) → v' ∉ map plan_vm (st'.1.1.1).
Proof.
  intros Hsrc Hst Hon Hn0 Hfresh.
  destruct st as [[[bm names] safety] cm]. simpl in *.
  unfold balance_vm.
  destruct (filter _ details) as [|d ds]; [done|].
  destruct (_find_better_host_for_balancing _ _ _ _ _ _ _ _ _ _ _) as [[t|] cm'] eqn:E;
    [|done].
  apply find_better_host_valid in E as [Ht Hne].
  destruct Hst as (Hgood & Hndb & Hnames & Hsub). simpl. split.
  - split; [|split; [|split]].
    + apply Forall_app. split; [done|]. repeat constructor; [done|]. by exists source.
    + rewrite map_app. simpl. apply NoDup_app. split; [done|].
      split; [|apply NoDup_singleton].
      intros v' Hv' Heq%list_elem_of_singleton. by subst v'.
    + intros m [Hm|Hm%list_elem_of_singleton]%elem_of_app; simpl.
      * destruct (Hnames m Hm). split; [|done]. apply elem_of_union. by right.
      * subst m. split; [|done]. apply elem_of_union. left.
        by apply elem_of_singleton.
    + intros x Hx. apply elem_of_union. right. by apply Hsub.
  - intros v' Hne' Hv'. rewrite map_app. simpl.
    intros [?|Heq%list_elem_of_singleton]%elem_of_app; [done|]. by subst v'.
Qed.

Lemma balance_vm_fold details problematic pmap source spct reasons hint cands :
  source ∈ hosts cs →
  ∀ st, bal_inv st →
    NoDup cands →
    (∀ v, v ∈ cands → v ∈ get_vms_on_host cs source
                      ∧ (vm_name v ∉ names0)
                      ∧ (v ∉ map plan_vm (st.1.1.1))) →
    bal_inv (fold_left (balance_vm self cs details problematic pmap source spct
                          reasons hint) cands st).
Proof.
  intros Hsrc. induction cands as [|v cands IH]; intros st Hst Hnd Hc; simpl; [done|].
  apply NoDup_cons in Hnd as [Hv Hnd].
  destruct (Hc v ltac:(left)) as (Hon & Hn0 & Hfresh).
  destruct (balance_vm_inv details problematic pmap source spct reasons hint st v
              Hsrc Hst Hon Hn0 Hfresh) as [Hst' Hkeep].
  apply IH; [done..|].
  intros v' Hv'. destruct (Hc v' ltac:(by right)) as (? & ? & Hf).
  repeat split; [done..|]. apply Hkeep; [|done]. by intros ->.
Qed.

Lemma balance_host_inv details problematic pmap st source :
  NoDup (vms cs) → source ∈ hosts cs →
  bal_inv st → bal_inv (balance_host self cs details problematic pmap st source).
Proof.
  intros Hvms Hsrc Hst. unfold balance_host.
  destruct (pmap !! host_name source) as [spct|]; [|done].
  destruct (fold_left _ problematic _) as [[reasons contributor] hint].
  destruct (negb contributor); [done|].
  destruct (select_vms_spec self cs source hint st.1.1.2 Hvms) as [Hnd Hsel].
  apply balance_vm_fold; [done..|].
  intros v Hv. destruct (Hsel v Hv) as [Hon Hname].
  destruct st as [[[bm names] safety] cm]. simpl in *.
  destruct Hst as (_ & _ & Hnames & Hsub).
  repeat split; [done| |].
  - intros H. apply Hname. by apply Hsub.
  - intros (m & -> & Hm)%list_elem_of_fmap. apply Hname. by apply Hnames.
Qed.
End passes.

(** ** The shape of what the passes return *)

Lemma plan_balancing_cases self cs cm le names pmap planned oc om od on :
  ∃ bal names' cm' le',
    _plan_balancing_migrations self cs cm le names pmap planned oc om od on
    = Ok (bal, names', cm', le')
    ∧ ((bal, names', cm') = ([], names, cm)
       ∨ ∃ details problematic safety,
           fold_left (balance_host self cs details problematic pmap) (hosts cs)
             ([], names, planned, cm) = (bal, names', safety, cm')).
Proof.
  unfold _plan_balancing_migrations.
  destruct (evaluate_imbalance_ok le None (aggressiveness self) oc om od on)
    as (details & le' & ->). simpl.
  destruct details as [|d0 details]; [do 4 eexists; split; [done|by left]|].
  destruct (map fst (filter _ (d0 :: details))) as [|p0 problematic] eqn:Hp;
    [do 4 eexists; split; [done|by left]|].
  destruct (fold_left _ (hosts cs) _) as [[[bal names'] safety] cm'] eqn:E.
  do 4 eexists. split; [done|]. right. by do 3 eexists.
Qed.


Lemma balancing_inv self cs cm le names pmap planned oc om od on bal names' cm' le' :
  NoDup (vms cs) →
  _plan_balancing_migrations self cs cm le names pmap planned oc om od on
  = Ok (bal, names', cm', le') →
  Forall (good_bal cs) bal
  ∧ NoDup (map plan_vm bal)
  ∧ ∀ m, m ∈ bal → vm_name (plan_vm m) ∉ names.
Proof.
  intros Hvms Hr.
  destruct (plan_balancing_cases self cs cm le names pmap planned oc om od on)
    as (bal0 & n0 & cm0 & le0 & Hr0 & Hcases).
  rewrite Hr in Hr0. injection Hr0 as <- <- <- <-.
  destruct Hcases as [[= -> _ _]|(details & problematic & safety & Hfold)].
  { split; [constructor|]. split; [constructor|]. by intros m ?%elem_of_nil. }
  pose proof (fold_left_inv (bal_inv cs names)
    (balance_host self cs details problematic pmap) (hosts cs)
    ([], names, planned, cm)) as H.
  rewrite Hfold in H. destruct H as (Hgood & Hnd & Hnames & _).
  - split; [constructor|]. split; [constructor|]. split; [|done].
    by intros m ?%elem_of_nil.
  - intros st source Hsrc Hst. by apply balance_host_inv.
  - split; [done|]. split; [done|]. intros m Hm. by apply Hnames.
Qed.

(** [plan_passes] always returns; its first list is what the anti-affinity
    pass plans, its second list comes from the balancing pass, started
    with the names the anti-affinity pass has planned. *)
Lemma plan_passes_cases so self cs cm le aao :
  ∃ bal cm' le',
    plan_passes so self cs cm le aao
    = Ok ((_plan_anti_affinity_migrations so self cs cm ∅).1.1, bal, cm', le')
    ∧ (bal = []
       ∨ ∃ cm1 le1 pmap c m d n names',
           _plan_balancing_migrations self cs cm1 le1
             (_plan_anti_affinity_migrations so self cs cm ∅).1.2 pmap
             (_plan_anti_affinity_migrations so self cs cm ∅).1.1 c m d n
           = Ok (bal, names', cm', le')).
Proof.
  unfold plan_passes.
  destruct (_plan_anti_affinity_migrations so self cs cm ∅) as [[aa names] cm1].
  simpl. destruct aao; simpl; [do 3 eexists; split; [done|by left]|].
  destruct (get_all_host_resource_percentages_map_ok
              (LoadEvaluator.set_cache le None)) as (pmap0 & le0 & ->). simpl.
  destruct aa as [|a aa].
  - simpl.
    destruct (plan_balancing_cases self cs cm1 le0 names pmap0 [] None None None None)
      as (bal & names' & cm' & le' & Hr & _).
    rewrite Hr. simpl. do 3 eexists. split; [done|]. right. by do 8 eexists.
  - destruct (simulated_always_ok cs le0 (a :: aa))
      as ([[[[[c m] d] n] smap] le1] & ->). simpl.
    destruct (plan_balancing_cases self cs cm1 le1 names smap (a :: aa)
                (Some c) (Some m) (Some d) (Some n))
      as (bal & names' & cm' & le' & Hr & _).
    rewrite Hr. simpl. do 3 eexists. split; [done|]. right. by do 8 eexists.
Qed.

(** ** The limit on the number of migrations *)

Lemma balance_filter (ms : list migration) :
  filter (λ m, negb (is_anti_affinity m) = true) ms
  = filter (λ m, ¬ is_anti_affinity m = true) ms.
Proof.
  apply list_filter_iff. intros m. destruct (is_anti_affinity m); naive_solver.
Qed.

Lemma enforce_limit_submseteq self ms : enforce_limit self ms ⊆+ ms.
Proof.
  unfold enforce_limit. destruct (_ <? _); [|done].
  rewrite balance_filter.
  set (A := filter (λ m, is_anti_affinity m = true) ms).
  set (B := filter (λ m, ¬ is_anti_affinity m = true) ms).
  assert (HAB : A ++ B ≡ₚ ms) by apply filter_app_complement.
  assert (HA : A ⊆+ ms) by apply sublist_submseteq, sublist_filter.
  destruct (_ <=? _).
  - etransitivity; [apply sublist_submseteq, slice_to_sublist|done].
  - destruct B as [|b B'] eqn:HB; [done|]. destruct (0 <? _); [|done].
    rewrite <- HAB. apply submseteq_skips_l, sublist_submseteq, slice_to_sublist.
Qed.


Lemma filter_none {A} (P : A → Prop) `{∀ x, Decision (P x)} (l : list A) :
  Forall (λ x, ¬ P x) l → filter P l = [].
Proof.
  induction 1 as [|x l Hx Hl IH]; [done|]. by rewrite filter_cons_False, IH.
Qed.




(** ** Duplicates and targets *)

(** The managed-object id identifies a host of the cluster. *)
Definition moId_identifies_host (cs : ClusterState.t) : Prop :=
  ∀ h1 h2, h1 ∈ hosts cs → h2 ∈ hosts cs → host_moId h1 = host_moId h2 → h1 = h2.

Lemma vm_on_host_runtime cs source vm :
  vm ∈ get_vms_on_host cs source →
  ∃ h, get_host_of_vm vm = Some h ∧ host_moId h = host_moId source.
Proof.
  unfold get_vms_on_host. destruct (String.eqb _ _); [by intros ?%elem_of_nil|].
  intros [Hp _]%list_elem_of_filter.
  destruct (get_host_of_vm vm) as [h|]; [|done].
  apply andb_true_iff in Hp as [_ Hp%String.eqb_eq]. by exists h.
Qed.

(** C2.  On a snapshot whose VM list has no duplicates and whose hosts are
    identified by their managed-object id, [plan_migrations] returns a
    plan in which no VM occurs twice and in which every target is a host
    of the snapshot other than the host the VM runs on. *)
Theorem plan_moves_each_vm_once_to_another_host so self cs cm le aao :
  NoDup (vms cs) →
  moId_identifies_host cs →
  ∃ plan cm' le',
    plan_migrations so self cs cm le aao = Ok (plan, cm', le')
    ∧ NoDup (map fst plan)
    ∧ ∀ vm t, (vm, t) ∈ plan → t ∈ hosts cs ∧ get_host_of_vm vm ≠ Some t.
Proof.
  intros Hvms Hids.
  destruct (plan_passes_cases so self cs cm le aao) as (bal & cm' & le' & Hr & Hbal).
  pose proof (aa_pass_inv self cs so cm) as (Haa & Hnda & Hnames).
  set (aa := (_plan_anti_affinity_migrations so self cs cm ∅).1.1) in *.
  set (names := (_plan_anti_affinity_migrations so self cs cm ∅).1.2) in *.
  assert (Hb : Forall (good_bal cs) bal ∧ NoDup (map plan_vm bal)
               ∧ ∀ m, m ∈ bal → vm_name (plan_vm m) ∉ names).
  { destruct Hbal as [->|(cm1 & le1 & pmap & c & mo & d & n & names' & Hb)].
    - split; [constructor|]. split; [constructor|]. by intros m ?%elem_of_nil.
    - by eapply balancing_inv. }
  destruct Hb as (Hgb & Hndb & Hfresh).
  unfold plan_migrations. rewrite Hr. simpl. do 3 eexists. split; [done|].
  pose proof (enforce_limit_submseteq self (aa ++ bal)) as Hsub.
  split.
  - rewrite map_map. simpl.
    assert (Hall : NoDup (map plan_vm (aa ++ bal))).
    { rewrite map_app. apply NoDup_app. split; [done|]. split; [|done].
      intros v (m & -> & Hm)%list_elem_of_fmap (m' & Heq & Hm')%list_elem_of_fmap.
      apply (Hfresh m' Hm'). rewrite <- Heq. by apply Hnames. }
    apply (fmap_submseteq plan_vm) in Hsub.
    apply submseteq_Permutation in Hsub as [k Hk].
    change (map plan_vm (aa ++ bal)) with (plan_vm <$> (aa ++ bal)) in Hall.
    rewrite Hk in Hall. by apply NoDup_app in Hall as [? _].
  - intros vm t (m & [= -> ->] & Hm)%list_elem_of_fmap.
    eapply elem_of_submseteq in Hm; [|exact Hsub].
    apply elem_of_app in Hm as [Hm|Hm].
    + rewrite Forall_forall in Haa. destruct (Haa m Hm) as (_ & Ht & src & Hsrc & Hne).
      split; [done|]. rewrite Hsrc. intros [= Heq]. by rewrite Heq in Hne.
    + rewrite Forall_forall in Hgb.
      destruct (Hgb m Hm) as (_ & Ht & src & Hsrc & Hon & Hne).
      split; [done|]. apply vm_on_host_runtime in Hon as (h & Hh & Hid).
      rewrite Hh. intros [= Heq]. subst h. apply Hne. f_equal. by apply Hids.
Qed.

Lemma plan_migrations_ok so self cs cm le aao :
  ∃ plan cm' le', plan_migrations so self cs cm le aao = Ok (plan, cm', le').
Proof.
  destruct (plan_passes_cases so self cs cm le aao) as (bal & cm' & le' & Hr & _).
  unfold plan_migrations. rewrite Hr. simpl. by do 3 eexists.
Qed.

(** ** The iterations of [plan_migrations_iterative] *)

Lemma max_int_floor q : Z.max 1 (int q) = Z.max 1 (Qfloor q).
Proof.
  destruct q as [n d]. unfold int, Qfloor. simpl.
  destruct (Z.le_gt_cases 0 n) as [Hn|Hn].
  - by rewrite Z.quot_div_nonneg by lia.
  - assert (n `quot` Z.pos d ≤ 0) by (apply Z.quot_le_upper_bound; lia).
    assert (n `div` Z.pos d < 0) by (apply Z.div_lt_upper_bound; lia).
    lia.
Qed.

Lemma set_aggressiveness_restore self a :
  set_aggressiveness (set_aggressiveness self a) (aggressiveness self) = self.
Proof. by destruct self. Qed.

Lemma final_check_ok o :
  ∃ o', final_check o = Ok o' ∧ planner o' = planner o ∧ passes o' = passes o.
Proof.
  unfold final_check.
  destruct (is_balanced_ok (load_evaluator o) None 3) as (b & le' & ->). simpl.
  by eexists.
Qed.

Section iterations.
Variables (so : list VM → list VM) (self : MigrationManager.t)
  (cs : ClusterState.t) (aao : bool) (mult : Q) (max_iterations : Z).
Hypothesis mult_nonzero : ¬ (mult == 0)%Q.

(** The value of [self.aggressiveness] during the pass of iteration
    [i]. *)
Definition pass_aggressiveness (i : Z) : Z :=
  if 1 <? i
  then Z.max 1 (Qfloor (inject_Z (aggressiveness self) / mult))
  else aggressiveness self.

Definition passes_ok (ps : list (Z * Z)) : Prop :=
  ∀ i a, (i, a) ∈ ps → 1 ≤ i ≤ max_iterations ∧ a = pass_aggressiveness i.

(** One iteration: it stops at the convergence exit, or it makes its pass
    with the aggressiveness of the iteration and restores the planner. *)
Lemma iterate_cons i o :
  planner o = self →
  (∀ its, iterate so cs aao mult (i :: its) o = Raise AttributeError)
  ∨ ∃ plan cm0 le0,
      ∀ its,
        iterate so cs aao mult (i :: its) o
        = match plan with
          | [] =>
              final_check
                {| all_migrations := all_migrations o;
                   passes := passes o ++ [(i, pass_aggressiveness i)];
                   planner := self; constraint_manager := cm0;
                   load_evaluator := le0 |}
          | _ :: _ =>
              iterate so cs aao mult its
                {| all_migrations := all_migrations o ++ plan;
                   passes := passes o ++ [(i, pass_aggressiveness i)];
                   planner := self; constraint_manager := cm0;
                   load_evaluator := LoadEvaluator.set_cache le0 None |}
          end.
Proof.
  intros Hself.
  destruct (is_balanced_ok (load_evaluator o) None 3) as (b & le1 & Hb).
  assert (∃ self0,
    (if 1 <? i
     then q ← truediv (inject_Z (aggressiveness (planner o))) mult;
          mret (set_aggressiveness (planner o) (Z.max 1 (int q)))
     else mret (planner o)) = Ok self0
    ∧ aggressiveness self0 = pass_aggressiveness i
    ∧ set_aggressiveness self0 (aggressiveness (planner o)) = self)
    as (self0 & Hs0 & Ha & Hrestore).
  { rewrite Hself. unfold pass_aggressiveness. destruct (1 <? i).
    - rewrite truediv_nonzero by done. simpl. eexists. split; [done|].
      split; [apply max_int_floor | apply set_aggressiveness_restore].
    - exists self. split; [done|]. split; [done|]. by destruct self. }
  destruct (plan_migrations_ok so self0 cs (constraint_manager o) le1 aao)
    as (plan & cm0 & le0 & Hplan).
  assert (Hpass : ∀ its,
    (self0 ←
       (if 1 <? i
        then q ← truediv (inject_Z (aggressiveness (planner o))) mult;
             mret (set_aggressiveness (planner o) (Z.max 1 (int q)))
        else mret (planner o));
     '(migrations_this_iteration, cm0, le0) ←
       plan_migrations so self0 cs (constraint_manager o) le1 aao;
     match migrations_this_iteration with
     | [] =>
         final_check
           {| all_migrations := all_migrations o;
              passes := passes o ++ [(i, aggressiveness self0)];
              planner := set_aggressiveness self0 (aggressiveness (planner o));
              constraint_manager := cm0; load_evaluator := le0 |}
     | _ :: _ =>
         iterate so cs aao mult its
           {| all_migrations := all_migrations o ++ migrations_this_iteration;
              passes := passes o ++ [(i, aggressiveness self0)];
              planner := set_aggressiveness self0 (aggressiveness (planner o));
              constraint_manager := cm0;
              load_evaluator := LoadEvaluator.set_cache le0 None |}
     end)
    = match plan with
      | [] =>
          final_check
            {| all_migrations := all_migrations o;
               passes := passes o ++ [(i, pass_aggressiveness i)];
               planner := self; constraint_manager := cm0;
               load_evaluator := le0 |}
      | _ :: _ =>
          iterate so cs aao mult its
            {| all_migrations := all_migrations o ++ plan;
               passes := passes o ++ [(i, pass_aggressiveness i)];
               planner := self; constraint_manager := cm0;
               load_evaluator := LoadEvaluator.set_cache le0 None |}
      end).
  { intros its. rewrite Hs0. simpl. rewrite Hplan. simpl. by rewrite Ha, Hrestore. }
  destruct (calculate_anti_affinity_violations so cs (constraint_manager o)) as [|v vs] eqn:Hv.
  - destruct b.
    + left. intros its. simpl. rewrite Hb. simpl. by rewrite Hv.
    + right. exists plan, cm0, le0. intros its. simpl. rewrite Hb. simpl. rewrite Hv.
      apply Hpass.
  - right. exists plan, cm0, le0. intros its. simpl. rewrite Hb. simpl. rewrite Hv.
    apply Hpass.
Qed.

(** The iterations return with every pass made at the aggressiveness of
    its iteration, or stop at the convergence exit of an iteration, the
    iterations before it having made their passes. *)
Lemma iterate_spec its : ∀ o,
  planner o = self → passes_ok (passes o) →
  (∀ i, i ∈ its → 1 ≤ i ≤ max_iterations) →
  (∃ o', iterate so cs aao mult its o = Ok o'
         ∧ planner o' = self ∧ passes_ok (passes o'))
  ∨ (iterate so cs aao mult its o = Raise AttributeError
     ∧ ∃ its1 its2 o',
         its = its1 ++ its2 ∧ its2 ≠ []
         ∧ iterate so cs aao mult its1 o = Ok o'
         ∧ map fst (passes o') = map fst (passes o) ++ its1).
Proof.
  induction its as [|i its IH]; intros o Hself Hps Hits.
  - left. simpl. destruct (final_check_ok o) as (o' & -> & Hp & Hq).
    exists o'. by rewrite Hp, Hq.
  - assert (Hi : 1 ≤ i ≤ max_iterations) by (apply Hits; left).
    destruct (iterate_cons i o Hself) as [Hraise | (plan & cm0 & le0 & Hstep)].
    + right. split; [apply Hraise|]. exists [], (i :: its).
      destruct (final_check_ok o) as (o' & Ho' & Hp & Hq).
      exists o'. split; [done|]. split; [done|]. split; [exact Ho'|].
      by rewrite Hq, app_nil_r.
    + assert (Hps' : passes_ok (passes o ++ [(i, pass_aggressiveness i)])).
      { intros j a [Hj|Hj%list_elem_of_singleton]%elem_of_app; [by apply Hps|].
        injection Hj as -> ->. by split. }
      destruct plan as [|p plan].
      * left. rewrite Hstep.
        edestruct final_check_ok as (o' & -> & Hp & Hq).
        exists o'. by rewrite Hp, Hq.
      * assert (Hits' : ∀ j, j ∈ its → 1 ≤ j ≤ max_iterations)
          by (intros j Hj; apply Hits; by right).
        destruct (IH {| all_migrations := all_migrations o ++ p :: plan;
                        passes := passes o ++ [(i, pass_aggressiveness i)];
                        planner := self; constraint_manager := cm0;
                        load_evaluator := LoadEvaluator.set_cache le0 None |}
                     eq_refl Hps' Hits')
          as [(o' & Hr & Hp & Hq) | (Hr & its1 & its2 & o' & -> & Hne & Hr1 & Hfst)].
        -- left. exists o'. by rewrite Hstep.
        -- right. split; [by rewrite Hstep|].
           exists (i :: its1), its2, o'. split; [done|]. split; [done|].
           split; [by rewrite Hstep|].
           rewrite Hfst. simpl. rewrite map_app. simpl. by rewrite <- app_assoc.
Qed.

Lemma plan_migrations_iterative_spec cm le :
  (∃ o, plan_migrations_iterative so self cs cm le max_iterations aao mult = Ok o
        ∧ planner o = self ∧ passes_ok (passes o))
  ∨ (plan_migrations_iterative so self cs cm le max_iterations aao mult
     = Raise AttributeError
     ∧ ∃ k o, 0 ≤ k < max_iterations
         ∧ plan_migrations_iterative so self cs cm le k aao mult = Ok o
         ∧ map fst (passes o) = map Z.of_nat (seq 1 (Z.to_nat k))).
Proof.
  unfold plan_migrations_iterative.
  edestruct (iterate_spec (map Z.of_nat (seq 1 (Z.to_nat max_iterations))))
    as [H | (Hr & its1 & its2 & o' & Hsplit & Hne & Hr1 & Hfst)];
    [| | | left; exact H |].
  - reflexivity.
  - by intros i a ?%elem_of_nil.
  - intros i (n & -> & Hn%elem_of_seq)%list_elem_of_fmap. lia.
  - right. split; [exact Hr|].
    assert (Hlen : (length its1 + length its2 = Z.to_nat max_iterations)%nat).
    { rewrite <- length_app, <- Hsplit, length_map. apply length_seq. }
    assert (0 < length its2)%nat by (destruct its2; [done|simpl; lia]).
    assert (Hits1 : its1 = map Z.of_nat (seq 1 (length its1))).
    { rewrite <- (take_app_length its1 its2), <- Hsplit at 1.
      change (map Z.of_nat (seq 1 (Z.to_nat max_iterations)))
        with (Z.of_nat <$> seq 1 (Z.to_nat max_iterations)).
      rewrite <- fmap_take, take_seq. f_equal. f_equal. lia. }
    exists (Z.of_nat (length its1)), o'. split; [lia|].
    rewrite Nat2Z.id, <- Hits1. split; [exact Hr1|]. by rewrite Hfst.
Qed.
End iterations.

(** C3, as stated, fails: with aggressiveness 5 and the multiplier 1.05,
    the pass of iteration 6 runs with aggressiveness 4, whereas
    max(1, floor(5 / 1.05^5)) is 3. *)
Lemma sixth_pass_is_not_compounded :
  ∃ o, plan_migrations_iterative (λ l, l) (init 5 None false true)
         S1.cs S1.cm S1.le 6 true (21 # 20) = Ok o
       ∧ passes o = [(1, 5); (2, 4); (3, 4); (4, 4); (5, 4); (6, 4)]
       ∧ Z.max 1 (Qfloor (5 / (21 # 20) ^ 5)) = 3.
Proof.
  eexists. split; [vm_compute; reflexivity|]. split; reflexivity.
Qed.

(** What a run of at most [n] iterations leaves behind when every pass
    was made with one reduction of the aggressiveness: the planner as it
    was, and passes numbered from 1 to [n] at most, the first one made
    with the original aggressiveness and every later one with
    max(1, floor(original_aggressiveness / multiplier)). *)
Definition one_reduction (self : MigrationManager.t) (mult : Q) (n : Z)
    (o : iterative_outcome) : Prop :=
  planner o = self
  ∧ ∀ i a, (i, a) ∈ passes o →
      1 ≤ i ≤ n
      ∧ (i = 1 → a = aggressiveness self)
      ∧ (2 ≤ i → a = Z.max 1 (Qfloor (inject_Z (aggressiveness self) / mult))).

Lemma passes_ok_one_reduction self mult n o :
  planner o = self → passes_ok self mult n (passes o) → one_reduction self mult n o.
Proof.
  intros Hp Hps. split; [done|]. intros i a Hia.
  destruct (Hps i a Hia) as [Hi ->]. split; [done|]. unfold pass_aggressiveness.
  split; intros H; destruct (Z.ltb_spec 1 i); try done; lia.
Qed.

(** C3, amended.  Unless the multiplier is zero, iterative planning either
    returns or stops with [AttributeError] at the convergence exit of an
    iteration, where it calls [logger.success].  A run that returns
    leaves the planner as it was, the original aggressiveness included;
    its pass of iteration 1 was made with the original aggressiveness and
    the pass of every iteration i >= 2 with
    max(1, floor(original_aggressiveness / multiplier)), the same value
    for all of them.  A run that stops at the convergence exit of
    iteration k + 1 has made the passes of the run limited to [k]
    iterations, which returns: one pass for each iteration from 1 to [k],
    with the same aggressiveness values. *)
Theorem later_passes_use_one_reduction so self cs cm le max_iterations aao mult :
  ¬ (mult == 0)%Q →
  (∃ o, plan_migrations_iterative so self cs cm le max_iterations aao mult = Ok o
        ∧ one_reduction self mult max_iterations o)
  ∨ (plan_migrations_iterative so self cs cm le max_iterations aao mult
     = Raise AttributeError
     ∧ ∃ k o, 0 ≤ k < max_iterations
         ∧ plan_migrations_iterative so self cs cm le k aao mult = Ok o
         ∧ one_reduction self mult k o
         ∧ map fst (passes o) = map Z.of_nat (seq 1 (Z.to_nat k))).
Proof.
  intros Hm.
  destruct (plan_migrations_iterative_spec so self cs aao mult max_iterations Hm cm le)
    as [(o & Hr & Hp & Hps) | (Hr & k & o & Hk & Hrk & Hfst)].
  - left. exists o. split; [done|]. by apply passes_ok_one_reduction.
  - right. split; [done|]. exists k, o. split; [done|]. split; [done|].
    split; [|done].
    destruct (plan_migrations_iterative_spec so self cs aao mult k Hm cm le)
      as [(o2 & Hr2 & Hp & Hps) | (Hr2 & _)]; [|congruence].
    rewrite Hrk in Hr2. injection Hr2 as <-. by apply passes_ok_one_reduction.
Qed.

Lemma later_passes_use_one_reduction_witness :
  ∃ o, plan_migrations_iterative (λ l, l) (init 5 None false true)
         S1.cs S1.cm S1.le 6 true (21 # 20) = Ok o
       ∧ planner o = init 5 None false true.
Proof.
  assert (Hm : ¬ (21 # 20 == 0)%Q) by (intros H; discriminate H).
  destruct (later_passes_use_one_reduction (λ l, l) (init 5 None false true)
              S1.cs S1.cm S1.le 6 true (21 # 20) Hm)
    as [(o & Hr & Hp & _) | (Hr & _)].
  - exists o. split; [exact Hr | exact Hp].
  - vm_compute in Hr. discriminate Hr.
Defined.

(** C7, as stated, fails for a limit that is negative: with the limit -1
    the two anti-affinity moves of the pass exceed the limit, and the
    plan returned has one entry, not -1 of them. *)
Lemma negative_limit_keeps_a_move :
  max_total_migrations (init 3 (Some (-1)) false true) = -1
  ∧ (∃ cm' le',
       plan_passes (λ l, l) (init 3 (Some (-1)) false true) S1.cs S1.cm S1.le true
       = Ok ([S1.move S1.app01 S1.H2; S1.move S1.app02 S1.H3], [], cm', le'))
  ∧ (∃ cm' le',
       plan_migrations (λ l, l) (init 3 (Some (-1)) false true) S1.cs S1.cm S1.le true
       = Ok ([(S1.app01, S1.H2)], cm', le')).
Proof.
  split; [reflexivity|]. split; do 2 eexists; vm_compute; reflexivity.
Qed.


Ltac host_cases H :=
  repeat (apply elem_of_cons in H as [->|H]); [..|by apply elem_of_nil in H].

Lemma plan_moves_each_vm_once_to_another_host_witness :
  ∃ plan cm' le',
    plan_migrations (λ l, l) (init 3 None false false) S1.cs S1.cm S1.le false
    = Ok (plan, cm', le')
    ∧ NoDup (map fst plan).
Proof.
  assert (Hv : NoDup (vms S1.cs))
    by (apply (bool_decide_unpack _); vm_compute; reflexivity).
  assert (Hh : moId_identifies_host S1.cs).
  { intros h1 h2 H1 H2 Hid. simpl in H1, H2.
    host_cases H1; host_cases H2; first [reflexivity | discriminate Hid]. }
  destruct (plan_moves_each_vm_once_to_another_host (λ l, l)
              (init 3 None false false) S1.cs S1.cm S1.le false Hv Hh)
    as (plan & cm' & le' & Hr & Hnd & _).
  exists plan, cm', le'. split; [exact Hr | exact Hnd].
Defined.

(** ** Scenarios *)

(** The target names of a plan. *)
Definition plan_names (r : result (list (VM * Host) * ConstraintManager.t * LoadEvaluator.t))
  : option (list (string * string)) :=
  match r with
  | Ok (plan, _, _) => Some (map (λ p, (vm_name p.1, host_name p.2)) plan)
  | Raise _ => None
  end.

(** Three VMs of one group on the first of three hosts: two of them are
    spread over the other hosts. *)
Example spread_over_three_hosts :
  plan_names (plan_migrations (λ l, l) (init 3 None false true)
                S1.cs S1.cm S1.le true)
  = Some [("app01", "H2"); ("app02", "H3")].
Proof. vm_compute. reflexivity. Qed.

(** A negative limit is not a count: the slice [aa[:-1]] then drops the
    last anti-affinity move. *)
Example negative_limit_drops_last_move :
  plan_names (plan_migrations (λ l, l) (init 3 (Some (-1)) false true)
                S1.cs S1.cm S1.le true)
  = Some [("app01", "H2")].
Proof. vm_compute. reflexivity. Qed.

Module S3.

Definition vm (id name : string) (h : Host) : VM :=
  {| vm_moId := id; vm_name := name; vm_runtime_host := Some h;
     vm_config_template := false |}.

(** Hosts at 80 %, 20 % and 50 % CPU. *)
Definition cs : ClusterState.t :=
  {| vms := [vm "vm-1" "alpha" S1.H1; vm "vm-2" "beta" S1.H1;
             vm "vm-3" "gamma" S1.H2; vm "vm-4" "delta" S1.H3];
     hosts := [S1.H1; S1.H2; S1.H3];
     vm_metrics :=
       list_to_map [("alpha", S1.usage 500 100 0 0); ("beta", S1.usage 300 100 0 0);
                    ("gamma", S1.usage 200 100 0 0); ("delta", S1.usage 500 100 0 0)];
     host_metrics :=
       list_to_map [("H1", S1.host 800 200 0 0); ("H2", S1.host 200 100 0 0);
                    ("H3", S1.host 500 100 0 0)] |}.

Definition le : LoadEvaluator.t :=
  {| LoadEvaluator.hosts := get_cluster_state_hosts cs;
     LoadEvaluator._cache_percentage_lists := None |}.

Definition cm : ConstraintManager.t :=
  ConstraintManager.apply (λ l, l) cs {| vm_distribution := []; violations := [] |}.

(** Hosts at 55 % and 45 % CPU. *)
Definition cs_even : ClusterState.t :=
  {| vms := [vm "vm-1" "alpha" S1.H1; vm "vm-3" "gamma" S1.H2];
     hosts := [S1.H1; S1.H2];
     vm_metrics :=
       list_to_map [("alpha", S1.usage 550 100 0 0); ("gamma", S1.usage 450 100 0 0)];
     host_metrics :=
       list_to_map [("H1", S1.host 550 100 0 0); ("H2", S1.host 450 100 0 0)] |}.

Definition le_even : LoadEvaluator.t :=
  {| LoadEvaluator.hosts := get_cluster_state_hosts cs_even;
     LoadEvaluator._cache_percentage_lists := None |}.

End S3.

(** The balancing pass moves load from the busiest host to the idlest. *)
Example balancing_targets_the_idlest_host :
  plan_names (plan_migrations (λ l, l) (init 3 None false false) S3.cs S3.cm S3.le false)
  = Some [("alpha", "H2"); ("beta", "H2")].
Proof. vm_compute. reflexivity. Qed.

(** A spread within the threshold plans nothing. *)
Example spread_within_threshold_plans_nothing :
  plan_names (plan_migrations (λ l, l) (init 3 None false false)
                S3.cs_even {| vm_distribution := []; violations := [] |}
                S3.le_even false)
  = Some [].
Proof. vm_compute. reflexivity. Qed.

(** A cluster that needs no move: the first iteration stops at the
    convergence exit. *)
Example settled_cluster_stops_at_the_convergence_exit :
  plan_migrations_iterative (λ l, l) (init 3 None false false)
    S3.cs_even {| vm_distribution := []; violations := [] |} S3.le_even 3 false (21 # 20)
  = Raise AttributeError.
Proof. vm_compute. reflexivity. Qed.

(** * Further properties of the modules *)

(** ** The anti-affinity key *)

Lemma rstrip_digits_list_split l :
  ∃ ds, l = rstrip_digits_list l ++ ds ∧ Forall (λ c, is_digit c = true) ds.
Proof.
  induction l as [|c l (ds & Hl & Hds)]; simpl; [by exists []|].
  destruct (rstrip_digits_list l) as [|r rs] eqn:E.
  - destruct (is_digit c) eqn:Hc.
    + exists (c :: ds). simpl in *. split; [by f_equal | by constructor].
    + exists ds. simpl in *. split; [by f_equal | done].
  - exists ds. split; [|done]. simpl in *. by f_equal.
Qed.

Lemma rstrip_digits_list_last l c :
  last (rstrip_digits_list l) = Some c → is_digit c = false.
Proof.
  revert c. induction l as [|a l IH]; intros c; simpl; [done|].
  destruct (rstrip_digits_list l) as [|r rs] eqn:E.
  - destruct (is_digit a) eqn:Ha; simpl; [done|]. by intros [= <-].
  - rewrite last_cons. destruct (last (r :: rs)) as [y|] eqn:Hl.
    + intros [= ->]. by apply IH.
    + by apply last_None in Hl.
Qed.

Lemma rstrip_digits_list_fixed l :
  (∀ c, last l = Some c → is_digit c = false) → rstrip_digits_list l = l.
Proof.
  induction l as [|a l IH]; intros H; simpl; [done|].
  destruct l as [|b l'].
  - simpl. specialize (H a eq_refl). by rewrite H.
  - rewrite IH; [done|]. intros c Hc. apply H. by rewrite last_cons, Hc.
Qed.

Lemma rstrip_digits_list_idemp l :
  rstrip_digits_list (rstrip_digits_list l) = rstrip_digits_list l.
Proof. apply rstrip_digits_list_fixed, rstrip_digits_list_last. Qed.

Lemma rstrip_digits_list_all_digits l :
  Forall (λ c, is_digit c = true) l → rstrip_digits_list l = [].
Proof.
  induction 1 as [|c l Hc Hl IH]; simpl; [done|]. by rewrite IH, Hc.
Qed.

Lemma string_of_list_ascii_nil l : string_of_list_ascii l = "" ↔ l = [].
Proof. by destruct l. Qed.

Lemma list_ascii_of_prefix name :
  list_ascii_of_string (_get_vm_prefix name)
  = match rstrip_digits_list (list_ascii_of_string name) with
    | [] => list_ascii_of_string name
    | r => r
    end.
Proof.
  unfold _get_vm_prefix, rstrip_digits.
  destruct (rstrip_digits_list (list_ascii_of_string name)) as [|r rs] eqn:E; [done|].
  simpl. by rewrite list_ascii_of_string_of_list_ascii.
Qed.

Lemma list_ascii_inj s1 s2 :
  list_ascii_of_string s1 = list_ascii_of_string s2 → s1 = s2.
Proof.
  intros H. by rewrite <- (string_of_list_ascii_of_string s1), H,
    string_of_list_ascii_of_string.
Qed.

Lemma vm_prefix_split name :
  ∃ digits, list_ascii_of_string name
            = list_ascii_of_string (_get_vm_prefix name) ++ digits
            ∧ Forall (λ c, is_digit c = true) digits.
Proof.
  rewrite list_ascii_of_prefix.
  destruct (rstrip_digits_list_split (list_ascii_of_string name)) as (ds & Hsplit & Hds).
  destruct (rstrip_digits_list (list_ascii_of_string name)) as [|r rs] eqn:E.
  - exists []. by rewrite app_nil_r.
  - by exists ds.
Qed.

Lemma vm_prefix_empty name : _get_vm_prefix name = "" ↔ name = "".
Proof.
  split; [|by intros ->].
  intros H. pose proof (list_ascii_of_prefix name) as Hp. rewrite H in Hp.
  destruct (rstrip_digits_list (list_ascii_of_string name)) as [|r rs] eqn:E; [|done].
  by apply list_ascii_inj.
Qed.

(** X1.  The key of a name is the name without its trailing digits: the name
    is its key followed by digits only; a name made of digits only (the
    empty name included) is its own key, and the key of any other name
    ends with a character that is not a digit, so that the key is the
    name up to its last character that is not a digit.  The key is empty
    only for the empty name, and it is its own key. *)
Theorem vm_prefix_strips_trailing_digits (name : string) :
  (∃ digits, list_ascii_of_string name
             = list_ascii_of_string (_get_vm_prefix name) ++ digits
             ∧ Forall (λ c, is_digit c = true) digits)
  ∧ (Forall (λ c, is_digit c = true) (list_ascii_of_string name) →
     _get_vm_prefix name = name)
  ∧ (¬ Forall (λ c, is_digit c = true) (list_ascii_of_string name) →
     ∃ c, last (list_ascii_of_string (_get_vm_prefix name)) = Some c
          ∧ is_digit c = false)
  ∧ (_get_vm_prefix name = "" ↔ name = "")
  ∧ _get_vm_prefix (_get_vm_prefix name) = _get_vm_prefix name.
Proof.
  split; [apply vm_prefix_split|].
  pose proof (list_ascii_of_prefix name) as Hp.
  pose proof (rstrip_digits_list_last (list_ascii_of_string name)) as Hlast.
  pose proof (rstrip_digits_list_split (list_ascii_of_string name)) as (ds & Hsplit & Hds).
  split; [|split; [|split; [apply vm_prefix_empty|]]].
  - intros Hall. apply list_ascii_inj.
    by rewrite Hp, (rstrip_digits_list_all_digits _ Hall).
  - intros Hnot.
    destruct (rstrip_digits_list (list_ascii_of_string name)) as [|r rs] eqn:E.
    + exfalso. apply Hnot. by rewrite Hsplit.
    + destruct (last (r :: rs)) as [c|] eqn:Hc.
      * exists c. rewrite Hp. split; [done|]. by apply Hlast.
      * by apply last_None in Hc.
  - destruct (rstrip_digits_list (list_ascii_of_string name)) as [|r rs] eqn:E.
    + apply list_ascii_inj in Hp. by rewrite Hp.
    + apply list_ascii_inj. rewrite (list_ascii_of_prefix (_get_vm_prefix name)), Hp.
      rewrite <- E, rstrip_digits_list_idemp. by rewrite E.
Qed.

Lemma length_list_ascii s : length (list_ascii_of_string s) = String.length s.
Proof. induction s as [|c s IH]; simpl; [done|]. by rewrite IH. Qed.

Lemma list_ascii_of_drop_last2 name :
  list_ascii_of_string (drop_last2 name)
  = take (String.length name - 2) (list_ascii_of_string name).
Proof.
  unfold drop_last2, slice_to. simpl.
  by rewrite list_ascii_of_string_of_list_ascii, length_list_ascii.
Qed.

(** X2.  [name[:-2]], the key the safety check of the balancing pass uses, is
    the anti-affinity key exactly when the name is empty or is its key
    followed by two characters (two digits, as the key only lacks digits).  For
    such a VM the safety check is the spread check of the VM's own
    group. *)
Theorem safety_check_key_agrees_on_two_digits (name : string) :
  (drop_last2 name = _get_vm_prefix name
   ↔ name = ""
     ∨ String.length name = (String.length (_get_vm_prefix name) + 2)%nat)
  ∧ (drop_last2 name = _get_vm_prefix name →
     ∀ cs cm vm target planned, vm_name vm = name →
       _is_anti_affinity_safe cs cm vm target planned
       = spread_check_for_prefix (_get_vm_prefix (vm_name vm)) cs cm vm target planned).
Proof.
  split.
  - destruct (vm_prefix_split name) as (ds & Hsplit & _).
    pose proof (vm_prefix_empty name) as Hempty.
    pose proof (f_equal length Hsplit) as Hlen.
    rewrite length_app, !length_list_ascii in Hlen.
    pose proof (list_ascii_of_drop_last2 name) as Hd.
    split.
    + intros Heq. rewrite Heq in Hd.
      pose proof (f_equal length Hd) as Hl.
      rewrite length_take, !length_list_ascii in Hl.
      destruct (decide (String.length name < 2)%nat) as [Hshort|Hlong]; [|lia].
      left. apply Hempty. destruct (_get_vm_prefix name); [done|simpl in Hl; lia].
    + intros [->|Hl]; [done|]. apply list_ascii_inj. rewrite Hd, Hsplit.
      replace (String.length name - 2)%nat
        with (length (list_ascii_of_string (_get_vm_prefix name)))
        by (rewrite length_list_ascii; lia).
      by rewrite take_app_length.
  - intros Heq cs cm vm target planned <-. unfold _is_anti_affinity_safe. by rewrite Heq.
Qed.

Lemma safety_check_key_agrees_on_two_digits_witness :
  _is_anti_affinity_safe S1.cs S1.cm S1.app02 S1.H2 []
  = spread_check_for_prefix "app" S1.cs S1.cm S1.app02 S1.H2 [].
Proof.
  apply (proj2 (safety_check_key_agrees_on_two_digits "app02") eq_refl
           S1.cs S1.cm S1.app02 S1.H2 [] eq_refl).
Defined.

(** ** Grouping *)

(** The VMs of the group keyed [k]. *)
Definition in_group (k : string) (v : VM) : Prop :=
  vm_name v ≠ "" ∧ _get_vm_prefix (vm_name v) = k.

#[export] Instance in_group_dec k v : Decision (in_group k v).
Proof. unfold in_group. apply _. Defined.

Lemma group_vm_get d v k :
  od_get k (group_vm d v)
  = if decide (in_group k v)
    then Some (od_get_default k [] d ++ [v])
    else od_get k d.
Proof.
  unfold group_vm, in_group.
  destruct (Nat.ltb_spec (String.length (vm_name v)) 1) as [Hlen|Hlen].
  - rewrite decide_False; [done|]. intros [Hne _]. destruct (vm_name v); [done|simpl in Hlen; lia].
  - rewrite od_get_set.
    assert (vm_name v ≠ "") by (intros E; rewrite E in Hlen; simpl in Hlen; lia).
    destruct (decide (_get_vm_prefix (vm_name v) = k)) as [<-|Hk].
    + by rewrite decide_True.
    + by rewrite decide_False by (by intros [_ ?]).
Qed.

Lemma group_fold_get l k : ∀ d,
  od_get k (fold_left group_vm l d)
  = match od_get k d, filter (in_group k) l with
    | None, [] => None
    | o, g => Some (default [] o ++ g)
    end.
Proof.
  induction l as [|v l IH]; intros d; simpl.
  - destruct (od_get k d); simpl; [by rewrite app_nil_r|done].
  - rewrite IH, group_vm_get, filter_cons. unfold od_get_default.
    destruct (decide (in_group k v)).
    + destruct (od_get k d); simpl; destruct (filter _ l); simpl;
        by rewrite <- ?app_assoc.
    + done.
Qed.

Lemma group_fold_NoDup l : ∀ d,
  NoDup (map fst d) → NoDup (map fst (fold_left group_vm l d)).
Proof.
  induction l as [|v l IH]; intros d Hd; simpl; [done|].
  apply IH. unfold group_vm. destruct (_ <? _)%nat; [done|]. by apply od_set_NoDup.
Qed.

Lemma grouping_get cs cm k :
  od_get k (vm_distribution (enforce_anti_affinity cs cm))
  = match filter (in_group k) (vms cs) with
    | [] => None
    | g => Some g
    end.
Proof. simpl. rewrite group_fold_get. simpl. by destruct (filter _ _). Qed.

Lemma grouping_NoDup cs cm : NoDup (map fst (vm_distribution (enforce_anti_affinity cs cm))).
Proof. simpl. apply group_fold_NoDup. constructor. Qed.

Lemma grouping_elem cs cm k g :
  (k, g) ∈ vm_distribution (enforce_anti_affinity cs cm)
  ↔ g ≠ [] ∧ g = filter (in_group k) (vms cs).
Proof.
  rewrite od_elem_get by apply grouping_NoDup. rewrite grouping_get.
  destruct (filter (in_group k) (vms cs)) as [|v l].
  { split; [done|]. by intros [? ->]. }
  split; [by intros [= <-] | by intros [_ ->]].
Qed.

(** X3.  [enforce_anti_affinity] partitions the VMs that have a name by their
    key: the keys of the grouping are distinct, and the group under a key
    is the list of the VMs with that key, in the order of the snapshot; a
    key without a VM has no group. *)
Theorem grouping_partitions_by_key cs cm :
  let dist := vm_distribution (enforce_anti_affinity cs cm) in
  NoDup (map fst dist)
  ∧ (∀ k, od_get k dist
          = match filter (in_group k) (vms cs) with
            | [] => None
            | g => Some g
            end)
  ∧ (∀ k g, (k, g) ∈ dist ↔ g ≠ [] ∧ g = filter (in_group k) (vms cs)).
Proof.
  split; [apply grouping_NoDup|]. split; [apply grouping_get|]. apply grouping_elem.
Qed.

(** ** Violations and evenly spread groups *)

Lemma argmax_exists (f : string → Z) (names : list string) :
  names ≠ [] → ∃ n, n ∈ names ∧ ∀ n', n' ∈ names → f n' ≤ f n.
Proof.
  induction names as [|a l IH]; [done|]. intros _.
  destruct l as [|b l].
  - exists a. split; [left|]. by intros n' ->%list_elem_of_singleton.
  - destruct IH as (n & Hn & Hmax); [done|].
    destruct (decide (f n ≤ f a)).
    + exists a. split; [left|]. intros n' [->|Hn']%elem_of_cons; [lia|].
      specialize (Hmax n' Hn'). lia.
    + exists n. split; [by right|]. intros n' [->|Hn']%elem_of_cons; [lia|].
      by apply Hmax.
Qed.

Lemma group_violations_nil hs group :
  group_violations hs group = []
  ↔ ∀ n1 n2, n1 ∈ map host_name hs → n2 ∈ map host_name hs →
             group_count group n1 ≤ group_count group n2 + 1.
Proof.
  split.
  - intros Hnil n1 n2 H1 H2.
    destruct (decide (group_count group n1 ≤ group_count group n2 + 1)) as [|Hgt];
      [done|exfalso].
    destruct (argmax_exists (group_count group) (map host_name hs)) as (n & Hn & Hmax).
    { intros E. rewrite E in H1. by apply elem_of_nil in H1. }
    pose proof (group_count_nonneg group n2).
    specialize (Hmax n1 H1) as Hn1.
    assert (Hpos : 0 < group_count group n) by lia.
    unfold group_count in Hpos.
    destruct (vms_on n group) as [|vm rest] eqn:Hon; [simpl in Hpos; lia|].
    assert (Hvm : vm ∈ group_violations hs group).
    { apply group_violations_spec. split.
      - exists n1, n2. split; [done|]. split; [done|]. lia.
      - exists n. split; [done|]. split; [rewrite Hon; left|]. done. }
    rewrite Hnil in Hvm. by apply elem_of_nil in Hvm.
  - intros Heven. destruct (group_violations hs group) as [|vm l] eqn:E; [done|].
    assert (Hvm : vm ∈ group_violations hs group) by (rewrite E; left).
    apply group_violations_spec in Hvm as ((n1 & n2 & H1 & H2 & Hgt) & _).
    specialize (Heven n1 n2 H1 H2). lia.
Qed.

Lemma flat_map_nil {A B} (f : A → list B) (l : list A) :
  flat_map f l = [] ↔ ∀ x, x ∈ l → f x = [].
Proof.
  induction l as [|a l IH]; simpl.
  - split; [|done]. by intros _ x ?%elem_of_nil.
  - split.
    + intros [Ha Hl]%app_eq_nil x [->|Hx]%elem_of_cons; [done|]. by apply IH.
    + intros H. rewrite (H a) by left. simpl. apply IH. intros x Hx. apply H. by right.
Qed.

Lemma list_of_set_nil (so : list VM → list VM) l :
  (∀ l, so l ≡ₚ l) → list_of_set so l = [] ↔ l = [].
Proof.
  intros Hso. unfold list_of_set. split.
  - intros E. pose proof (Hso (remove_dups l)) as Hp. rewrite E in Hp.
    apply Permutation_nil in Hp. destruct l as [|x l]; [done|].
    assert (x ∈ remove_dups (x :: l)) by (apply elem_of_remove_dups; left).
    rewrite Hp in H. by apply elem_of_nil in H.
  - intros ->. simpl. apply Permutation_nil. symmetry. apply Hso.
Qed.

(** X4.  With two hosts or more, no violation is reported exactly when, in
    every group, the numbers of the group's VMs on any two hosts differ
    by one at most. *)
Theorem no_violation_iff_groups_spread_within_one (so : list VM → list VM) cs cm :
  (∀ l, so l ≡ₚ l) → (2 ≤ length (hosts cs))%nat →
  calculate_anti_affinity_violations so cs cm = []
  ↔ ∀ k g n1 n2, (k, g) ∈ vm_distribution cm →
      n1 ∈ map host_name (hosts cs) → n2 ∈ map host_name (hosts cs) →
      group_count g n1 ≤ group_count g n2 + 1.
Proof.
  intros Hso Hlen. unfold calculate_anti_affinity_violations.
  destruct (Nat.leb_spec (length (hosts cs)) 1) as [|_]; [lia|].
  rewrite (list_of_set_nil so) by done. rewrite flat_map_nil. split.
  - intros H k g n1 n2 Hin. by apply group_violations_nil, (H (k, g)).
  - intros H [k g] Hin. apply group_violations_nil. intros n1 n2. by apply (H k g).
Qed.

Lemma no_violation_iff_groups_spread_within_one_witness :
  calculate_anti_affinity_violations (λ l, l) Web.cs Web.cm = [].
Proof.
  apply (no_violation_iff_groups_spread_within_one (λ l, l) Web.cs Web.cm
           (λ l, reflexivity l)); [simpl; lia|].
  intros k g n1 n2 Hin H1 H2. simpl in Hin, H1, H2.
  apply list_elem_of_singleton in Hin. injection Hin as -> ->.
  repeat (apply elem_of_cons in H1 as [->|H1];
          [repeat (apply elem_of_cons in H2 as [->|H2]; [vm_compute; discriminate|]);
           by apply elem_of_nil in H2|]).
  by apply elem_of_nil in H1.
Defined.

(** ** The adjusted counts of a group *)

Lemma incr_get k delta (d : list (string * Z)) n :
  od_get n (incr_if_present k delta d)
  = if decide (k = n) then (λ c, c + delta) <$> od_get n d else od_get n d.
Proof.
  unfold incr_if_present. destruct (od_get k d) as [c|] eqn:E.
  - rewrite od_get_set. case_decide; [subst; by rewrite E|done].
  - case_decide; [subst; by rewrite E|done].
Qed.

Lemma incr_keys k delta (d : list (string * Z)) :
  map fst (incr_if_present k delta d) = map fst d.
Proof.
  unfold incr_if_present. destruct (od_get k d) as [c|] eqn:E; [|done].
  apply od_set_keys. by eexists.
Qed.

Lemma base_count_get group : ∀ d n,
  od_get n (fold_left base_count_step group d)
  = (λ x, x + group_count group n) <$> od_get n d.
Proof.
  induction group as [|v group IH]; intros d n; simpl.
  - destruct (od_get n d); simpl; [f_equal; unfold group_count; simpl; lia|done].
  - rewrite IH, group_count_cons. unfold base_count_step.
    destruct (decide (on_host n v)) as [Hon|Hon]; unfold on_host in Hon;
      destruct (get_host_of_vm v) as [h|]; simpl in Hon; simplify_eq.
    + rewrite incr_get, decide_True by done.
      destruct (od_get _ d); simpl; [f_equal; lia|done].
    + rewrite incr_get, decide_False by congruence.
      destruct (od_get _ d); simpl; [f_equal; lia|done].
    + destruct (od_get _ d); simpl; [f_equal; lia|done].
Qed.

Lemma base_count_keys group : ∀ d,
  map fst (fold_left base_count_step group d) = map fst d.
Proof.
  induction group as [|v group IH]; intros d; simpl; [done|].
  rewrite IH. unfold base_count_step. destruct (get_host_of_vm v); [|done].
  apply incr_keys.
Qed.

(** The counts are those of a fixed set of keys and none is negative. *)
Definition counts_inv (keys : list string) (c : list (string * Z)) : Prop :=
  map fst c = keys ∧ ∀ n k, od_get n c = Some k → 0 ≤ k.

Lemma adjust_step_inv keys prefix c plan :
  counts_inv keys c → counts_inv keys (adjust_step prefix c plan).
Proof.
  intros [Hkeys Hnn]. unfold adjust_step.
  destruct (String.eqb _ prefix); [|done].
  destruct (get_host_of_vm (plan_vm plan)) as [o|].
  - set (a2 := incr_if_present (host_name (plan_target_host plan)) 1
                 (incr_if_present (host_name o) (-1) c)).
    assert (Hk2 : map fst a2 = keys) by (unfold a2; by rewrite !incr_keys).
    assert (Hv2 : ∀ n k, od_get n a2 = Some k → n ≠ host_name o → 0 ≤ k).
    { intros n k Hget Hne. unfold a2 in Hget. rewrite !incr_get in Hget.
      rewrite (decide_False (P := host_name o = n)) in Hget by congruence.
      case_decide; destruct (od_get n c) as [x|] eqn:E; simplify_eq/=;
        specialize (Hnn _ _ E); lia. }
    destruct (Z.ltb_spec (od_get_default (host_name o) 0 a2) 0) as [Hneg|Hpos].
    + split.
      * rewrite od_set_keys; [done|]. unfold od_get_default in Hneg.
        destruct (od_get (host_name o) a2); [by eexists|simpl in Hneg; lia].
      * intros n k. rewrite od_get_set. case_decide; [by intros [= <-]|].
        intros Hget. by apply (Hv2 n).
    + split; [done|]. intros n k Hget.
      destruct (decide (n = host_name o)) as [->|Hne]; [|by apply (Hv2 n)].
      unfold od_get_default in Hpos. by rewrite Hget in Hpos.
  - split; [by rewrite incr_keys|]. intros n k. rewrite incr_get.
    case_decide; destruct (od_get n c) as [x|] eqn:E; intros; simplify_eq/=;
      specialize (Hnn _ _ E); lia.
Qed.

Lemma adjust_step_other_group prefix c plan :
  _get_vm_prefix (vm_name (plan_vm plan)) ≠ prefix → adjust_step prefix c plan = c.
Proof.
  intros Hne. unfold adjust_step. unfold _get_vm_prefix in Hne.
  by destruct (String.eqb_spec
    (if String.eqb (rstrip_digits (vm_name (plan_vm plan))) ""
     then vm_name (plan_vm plan) else rstrip_digits (vm_name (plan_vm plan))) prefix).
Qed.

(** X5.  The counts [get_preferred_host_for_vm] works with have one entry per
    host name, in the order of the hosts, and no entry is negative,
    whatever is planned; the planned moves of other groups change
    nothing; with nothing planned the entry of a host is the number of
    the group's VMs on it. *)
Theorem adjusted_counts_are_clamped_counts hs group prefix planned :
  let c := adjusted_counts hs group prefix planned in
  NoDup (map fst c)
  ∧ (∀ n, n ∈ map fst c ↔ n ∈ map host_name hs)
  ∧ (∀ n k, (n, k) ∈ c → 0 ≤ k)
  ∧ c = adjusted_counts hs group prefix
          (filter (λ m, _get_vm_prefix (vm_name (plan_vm m)) = prefix) planned)
  ∧ (∀ n, n ∈ map host_name hs →
          od_get n (adjusted_counts hs group prefix []) = Some (group_count group n)).
Proof.
  destruct (by_host_name_spec 0 hs) as [Hnd0 Hget0].
  set (base := fold_left base_count_step group (by_host_name 0 hs)).
  assert (Hbase : counts_inv (map fst (by_host_name 0 hs)) base).
  { split; [apply base_count_keys|]. intros n k. unfold base.
    rewrite base_count_get, Hget0. case_decide; [|done]. simpl. intros [= <-].
    pose proof (group_count_nonneg group n). lia. }
  assert (Hinv : counts_inv (map fst (by_host_name 0 hs))
                   (adjusted_counts hs group prefix planned)).
  { unfold adjusted_counts. fold base. apply fold_left_inv; [done|].
    intros c plan _. apply adjust_step_inv. }
  destruct Hinv as [Hkeys Hnn]. simpl. rewrite Hkeys.
  split; [done|]. split; [|split; [|split]].
  - intros n. rewrite <- Hkeys at 1. rewrite <- od_get_is_Some.
    assert (Hk : od_get n (adjusted_counts hs group prefix planned) = None
                 ↔ od_get n (by_host_name 0 hs) = None).
    { rewrite !eq_None_not_Some, !od_get_is_Some. by rewrite Hkeys. }
    rewrite Hget0 in Hk. case_decide.
    + split; [done|]. destruct (od_get n _); [by eexists|].
      by destruct Hk as [Hk _]; specialize (Hk eq_refl).
    + split; [|done]. intros [x Hx]. destruct Hk as [_ Hk]. rewrite Hk in Hx; done.
  - intros n k Hin. apply (Hnn n). apply od_elem_get; [by rewrite Hkeys|done].
  - unfold adjusted_counts. fold base. generalize base. clear.
    induction planned as [|m planned IH]; intros base; [done|].
    rewrite filter_cons. simpl. case_decide.
    + simpl. apply IH.
    + rewrite adjust_step_other_group by done. apply IH.
  - intros n Hn. unfold adjusted_counts. simpl. rewrite base_count_get, Hget0.
    rewrite decide_True by done. simpl. by f_equal.
Qed.

(** ** The resource checks of a move *)

(** What the fit checks project for the target host: the CPU and memory
    the VM asks for, added to what the host record reports, in percent of
    the host's capacity. *)
Definition vm_cpu_req (dv : gmap string Q) : Q :=
  dget dv "cpu_usage_abs" (dget dv "cpu_allocation" 0).

Definition vm_mem_req (dv : gmap string Q) : Q :=
  dget dv "memory_usage_abs" (dget dv "memory_allocation_bytes" 0).

Definition projected_cpu_pct (dv dh : gmap string Q) : Q :=
  pct_or 100 (dget dh "cpu_usage" 0 + vm_cpu_req dv) (dget dh "cpu_capacity" 1).

Definition projected_mem_pct (dv dh : gmap string Q) : Q :=
  pct_or 100 (dget dh "memory_usage_abs" 0 + vm_mem_req dv) (dget dh "memory_capacity" 1).

Lemma soft_fit_iff cs vm h ct mt :
  _would_fit_on_host_soft cs vm h ct mt = true
  ↔ ∃ dv dh,
      vm_metrics cs !! vm_name vm = Some dv ∧ dict_empty dv = false
      ∧ host_metrics cs !! host_name h = Some dh ∧ dict_empty dh = false
      ∧ (projected_cpu_pct dv dh <= ct)%Q ∧ (projected_mem_pct dv dh <= mt)%Q.
Proof.
  unfold _would_fit_on_host_soft.
  destruct (vm_metrics cs !! vm_name vm) as [dv|] eqn:Hv; simpl.
  2:{ split; [done|]. by intros (? & ? & ? & _). }
  destruct (host_metrics cs !! host_name h) as [dh|] eqn:Hh; simpl.
  2:{ rewrite orb_true_r. split; [done|]. by intros (? & ? & _ & _ & ? & _). }
  fold (vm_cpu_req dv) (vm_mem_req dv).
  fold (projected_cpu_pct dv dh) (projected_mem_pct dv dh).
  destruct (dict_empty dv) eqn:Ev; simpl.
  { split; [done|]. intros (? & ? & [= <-] & ? & _). congruence. }
  destruct (dict_empty dh) eqn:Eh; simpl.
  { split; [done|]. intros (? & ? & _ & _ & [= <-] & ? & _). congruence. }
  destruct (Qlt_bool ct (projected_cpu_pct dv dh)) eqn:Ec.
  { apply Qlt_bool_true in Ec. split; [done|].
    intros (? & ? & [= <-] & _ & [= <-] & _ & Hle & _).
    exfalso. by apply (Qlt_not_le _ _ Ec). }
  destruct (Qlt_bool mt (projected_mem_pct dv dh)) eqn:Em.
  { apply Qlt_bool_true in Em. split; [done|].
    intros (? & ? & [= <-] & _ & [= <-] & _ & _ & Hle).
    exfalso. by apply (Qlt_not_le _ _ Em). }
  apply Qlt_bool_false in Ec, Em. split; [|done]. intros _. by exists dv, dh.
Qed.

Lemma pct_le a b ct : (0 < b)%Q → (a / b * 100 <= ct ↔ a * 100 <= ct * b)%Q.
Proof.
  intros Hb. rewrite <- (Qmult_le_r _ _ b Hb).
  assert (E : (a / b * 100 * b == a * 100)%Q).
  { field. intros E. rewrite E in Hb. by apply Qlt_irrefl in Hb. }
  by rewrite E.
Qed.

Lemma pct_or_positive dflt a b : (0 < b)%Q → pct_or dflt a b = (a / b * 100)%Q.
Proof. intros Hb. unfold pct_or. apply Qlt_bool_true in Hb. by rewrite Hb. Qed.

Lemma pct_or_non_positive dflt a b : (b <= 0)%Q → pct_or dflt a b = dflt.
Proof. intros Hb. unfold pct_or. apply Qlt_bool_false in Hb. by rewrite Hb. Qed.

(** X6.  For a VM and a host that have records, the host's capacities being
    positive, a fit check with the thresholds [ct] and [mt] accepts the
    move exactly when the CPU the host record reports plus the CPU of the
    VM is at most [ct] percent of the host's CPU capacity, and the memory
    of the VM, added to the entry [memory_usage_abs] of the host record
    (0 when the record has none), is at most [mt] percent of the memory
    capacity. *)
Theorem fit_check_bounds_projected_load cs vm h ct mt dv dh :
  vm_metrics cs !! vm_name vm = Some dv → dict_empty dv = false →
  host_metrics cs !! host_name h = Some dh → dict_empty dh = false →
  (0 < dget dh "cpu_capacity" 1)%Q → (0 < dget dh "memory_capacity" 1)%Q →
  _would_fit_on_host_soft cs vm h ct mt = true
  ↔ ((dget dh "cpu_usage" 0
      + dget dv "cpu_usage_abs" (dget dv "cpu_allocation" 0)) * 100
     <= ct * dget dh "cpu_capacity" 1)%Q
    ∧ ((dget dh "memory_usage_abs" 0
        + dget dv "memory_usage_abs" (dget dv "memory_allocation_bytes" 0)) * 100
       <= mt * dget dh "memory_capacity" 1)%Q.
Proof.
  intros Hv Ev Hh Eh Hc Hm. rewrite soft_fit_iff.
  rewrite <- (pct_le _ _ ct Hc), <- (pct_le _ _ mt Hm).
  rewrite <- (pct_or_positive 100 _ _ Hc), <- (pct_or_positive 100 _ _ Hm).
  split.
  - by intros (? & ? & ? & _ & ? & _ & ? & ?); simplify_eq.
  - intros [? ?]. by exists dv, dh.
Qed.

Lemma fit_check_bounds_projected_load_witness :
  _would_fit_on_host_soft S1.cs S1.app01 S1.H2 90 90 = true.
Proof.
  apply (fit_check_bounds_projected_load S1.cs S1.app01 S1.H2 90 90
           (S1.usage 100 100 10 1) (S1.host 0 0 0 0));
    [reflexivity | reflexivity | reflexivity | reflexivity
    | vm_compute; reflexivity | vm_compute; reflexivity |].
  split; vm_compute; discriminate.
Defined.

Lemma soft_fit_mono cs vm h ct mt ct' mt' :
  (ct <= ct')%Q → (mt <= mt')%Q →
  _would_fit_on_host_soft cs vm h ct mt = true →
  _would_fit_on_host_soft cs vm h ct' mt' = true.
Proof.
  intros Hc Hm. rewrite !soft_fit_iff.
  intros (dv & dh & Hv & Ev & Hh & Eh & H1 & H2). exists dv, dh.
  repeat (split; [done|]). split; eapply Qle_trans; eauto.
Qed.

Lemma hard_fit_soft_95 cs vm h :
  _would_fit_on_host cs vm h = true → _would_fit_on_host_soft cs vm h 95 95 = true.
Proof. rewrite fit_soft_90. apply soft_fit_mono; by vm_compute. Qed.

(** X7.  A move accepted with some thresholds is accepted with higher ones, so
    what the hard check of the balancing pass accepts passes the 95 %
    check of the anti-affinity pass; a host whose record gives a CPU or
    memory capacity that is not positive is rejected by both. *)
Theorem fit_checks_grow_with_the_thresholds cs vm h :
  (∀ ct mt ct' mt', (ct <= ct')%Q → (mt <= mt')%Q →
     _would_fit_on_host_soft cs vm h ct mt = true →
     _would_fit_on_host_soft cs vm h ct' mt' = true)
  ∧ (_would_fit_on_host cs vm h = true →
     _would_fit_on_host_soft cs vm h 95 95 = true)
  ∧ (∀ dh, host_metrics cs !! host_name h = Some dh →
       (dget dh "cpu_capacity" 1 <= 0)%Q ∨ (dget dh "memory_capacity" 1 <= 0)%Q →
       _would_fit_on_host cs vm h = false
       ∧ _would_fit_on_host_soft cs vm h 95 95 = false).
Proof.
  split; [intros ct mt ct' mt'; apply soft_fit_mono|]. split; [apply hard_fit_soft_95|].
  intros dh Hh Hcap.
  assert (Hrej : ∀ ct mt, (ct < 100)%Q → (mt < 100)%Q →
            _would_fit_on_host_soft cs vm h ct mt = false).
  { intros ct mt Hct Hmt. apply not_true_is_false. rewrite soft_fit_iff.
    intros (dv & dh' & _ & _ & Hh' & _ & H1 & H2). simplify_eq.
    destruct Hcap as [Hcap|Hcap].
    - unfold projected_cpu_pct in H1. rewrite pct_or_non_positive in H1 by done.
      by apply (Qlt_not_le _ _ Hct).
    - unfold projected_mem_pct in H2. rewrite pct_or_non_positive in H2 by done.
      by apply (Qlt_not_le _ _ Hmt). }
  rewrite fit_soft_90. split; apply Hrej; by vm_compute.
Qed.

(** ** The choice of the VMs to move *)

(** Every element of the list weighs at least as much as those after it. *)
Fixpoint descending {A} (key : A → Q) (l : list A) : Prop :=
  match l with
  | [] => True
  | x :: l' => Forall (λ y, (key y <= key x)%Q) l' ∧ descending key l'
  end.

Lemma insert_desc_sorted {A} (key : A → Q) x l :
  descending key l → descending key (insert_desc key x l).
Proof.
  induction l as [|y l IH]; simpl; [done|]. intros [Hy Hl].
  destruct (Qlt_bool (key x) (key y)) eqn:E.
  - apply Qlt_bool_true in E. simpl. split; [|by apply IH].
    rewrite insert_desc_perm. constructor; [by apply Qlt_le_weak|done].
  - apply Qlt_bool_false in E. simpl. split; [|done].
    constructor; [done|]. eapply Forall_impl; [exact Hy|].
    simpl. intros z Hz. by eapply Qle_trans.
Qed.

Lemma sort_desc_sorted {A} (key : A → Q) l : descending key (sort_desc key l).
Proof.
  unfold sort_desc. induction l as [|x l IH]; simpl; [done|].
  by apply insert_desc_sorted.
Qed.

Lemma descending_take {A} (key : A → Q) l n :
  descending key l → descending key (take n l).
Proof.
  revert n. induction l as [|x l IH]; intros [|n]; simpl; try done.
  intros [Hx Hl]. split; [|by apply IH].
  eapply Forall_forall. intros y Hy. rewrite Forall_forall in Hx. apply Hx.
  eapply elem_of_sublist; [done|]. apply sublist_take.
Qed.

Lemma descending_take_drop {A} (key : A → Q) (l : list A) (n : nat) v w :
  descending key l → v ∈ take n l → w ∈ drop n l → (key w <= key v)%Q.
Proof.
  revert n. induction l as [|x l IH]; intros n.
  - rewrite take_nil. by intros _ ?%elem_of_nil.
  - destruct n as [|n]; simpl; [by intros _ ?%elem_of_nil|].
    intros [Hx Hl] [->|Hv]%elem_of_cons Hw.
    + rewrite Forall_forall in Hx. apply Hx. eapply elem_of_sublist; [done|].
      apply sublist_drop.
    + by apply (IH n).
Qed.

Lemma elem_of_take_drop {A} (l : list A) (n : nat) x :
  x ∈ l → x ∈ take n l ∨ x ∈ drop n l.
Proof. rewrite <- (take_drop n l) at 1. by intros ?%elem_of_app. Qed.

(** The VMs that may be taken from a host: those on it that are neither
    planned already nor templates. *)
Definition eligible (cs : ClusterState.t) (source : Host) (names : gset string)
    (v : VM) : Prop :=
  v ∈ get_vms_on_host cs source ∧ (vm_name v ∉ names) ∧ vm_config_template v = false.

Lemma select_vms_eligible self cs source hint names v :
  v ∈ _select_vms_to_move self cs source hint names → eligible cs source names v.
Proof.
  unfold _select_vms_to_move, eligible. intros Hv.
  eapply elem_of_sublist in Hv; [|apply slice_to_sublist].
  rewrite sort_desc_perm in Hv. apply list_elem_of_filter in Hv as [Hp Hv].
  apply andb_true_iff in Hp as [Hn Ht].
  apply negb_true_iff in Hn, Ht. by apply bool_decide_eq_false in Hn.
Qed.

(** X8.  With an aggressiveness that is not negative, the VMs selected on a
    host are at most [aggressiveness] eligible VMs, in the order of
    decreasing weight ([sort_key]), and they are the heaviest ones: an
    eligible VM is left out only when [aggressiveness] VMs are selected,
    none of them lighter than it. *)
Theorem selection_takes_the_heaviest_vms self cs source hint names :
  0 ≤ aggressiveness self →
  let sel := _select_vms_to_move self cs source hint names in
  Z.of_nat (length sel) ≤ aggressiveness self
  ∧ (∀ v, v ∈ sel → eligible cs source names v)
  ∧ descending (sort_key cs hint) sel
  ∧ (∀ w, eligible cs source names w → w ∉ sel →
       Z.of_nat (length sel) = aggressiveness self
       ∧ ∀ v, v ∈ sel → (sort_key cs hint w <= sort_key cs hint v)%Q).
Proof.
  intros Hk sel. split; [|split; [apply select_vms_eligible|]].
  { subst sel. unfold _select_vms_to_move. rewrite slice_to_nonneg by done.
    rewrite length_take. lia. }
  subst sel. unfold _select_vms_to_move.
  set (cands := filter _ (get_vms_on_host cs source)).
  assert (Hc : ∀ v, v ∈ cands ↔ eligible cs source names v).
  { intros v. unfold cands, eligible. rewrite list_elem_of_filter.
    rewrite andb_true_iff, !negb_true_iff, bool_decide_eq_false. tauto. }
  rewrite slice_to_nonneg by done.
  set (sorted := sort_desc (sort_key cs hint) cands).
  assert (Hs : descending (sort_key cs hint) sorted) by apply sort_desc_sorted.
  assert (Hp : sorted ≡ₚ cands) by apply sort_desc_perm.
  split; [by apply descending_take|].
  intros w Hw Hnot. apply Hc in Hw. rewrite <- Hp in Hw.
  destruct (elem_of_take_drop sorted (Z.to_nat (aggressiveness self)) w Hw)
    as [Hin|Hin]; [done|].
  split.
  - rewrite length_take.
    destruct (decide (Z.to_nat (aggressiveness self) ≤ length sorted)%nat); [lia|].
    rewrite drop_ge in Hin by lia. by apply elem_of_nil in Hin.
  - intros v Hv. by apply (descending_take_drop _ sorted (Z.to_nat (aggressiveness self))).
Qed.

Lemma selection_takes_the_heaviest_vms_witness :
  _select_vms_to_move (init 1 None false false) S3.cs S1.H1 (Some "cpu") ∅
  = [S3.vm "vm-1" "alpha" S1.H1]
  ∧ Z.of_nat (length (_select_vms_to_move (init 1 None false false) S3.cs S1.H1
                        (Some "cpu") ∅)) ≤ 1.
Proof.
  split; [vm_compute; reflexivity|].
  apply (selection_takes_the_heaviest_vms (init 1 None false false) S3.cs S1.H1
           (Some "cpu") ∅). simpl. lia.
Defined.

(** ** The target of a balancing move *)

Section balancing_target.
Variables (self : MigrationManager.t) (cs : ClusterState.t) (vm : VM) (source : Host)
  (spct : pct_entry) (primary : option string)
  (details : list (string * LoadEvaluator.imbalance_detail))
  (pmap : gmap string pct_entry) (planned : list migration).

(** What a host needs to be a target, the anti-affinity check apart:
    another name than the source, room for the VM, an entry in the map of
    percentages, a use of the primary resource below that of the source
    by more than a third of the threshold, and a positive score. *)
Definition balancing_candidate (t : Host) : Prop :=
  host_name t ≠ host_name source
  ∧ _would_fit_on_host cs vm t = true
  ∧ ∃ e, pmap !! host_name t = Some e
         ∧ (∀ r target_usage source_usage,
              primary = Some r → r ≠ "" →
              pct_get e r = Some target_usage → pct_get spct r = Some source_usage →
              (target_usage
               < source_usage
                 - od_get_default r 15 (LoadEvaluator.get_thresholds (aggressiveness self)) / 3)%Q)
         ∧ (0 < target_score details e)%Q.

Definition candidate_score (t : Host) : Q :=
  match pmap !! host_name t with
  | Some e => target_score details e
  | None => 0
  end.

Lemma consider_target_spec st h :
  let st' := consider_target self cs vm source spct primary details pmap planned st h in
  (st'.1 = st.1
   ∨ (st'.1 = st.1 ++ [(h, candidate_score h)] ∧ balancing_candidate h))
  ∧ (ignore_anti_affinity self = true →
     st'.2 = st.2
     ∧ (st'.1 = st.1 → ¬ balancing_candidate h)).
Proof.
  destruct st as [targets cm]. unfold consider_target, balancing_candidate, candidate_score.
  destruct (String.eqb_spec (host_name h) (host_name source)) as [He|He].
  { simpl. split; [by left|]. intros _. split; [done|]. by intros _ [? _]. }
  destruct (_would_fit_on_host cs vm h) eqn:Hfit; simpl.
  2:{ split; [by left|]. intros _. split; [done|]. by intros _ (_ & ? & _). }
  assert (Hign : ignore_anti_affinity self = true →
    (if ignore_anti_affinity self then (true, cm)
     else _is_anti_affinity_safe cs cm vm h planned) = (true, cm)) by (by intros ->).
  destruct (if ignore_anti_affinity self then _ else _) as [aa_ok cm1].
  assert (Hcases :
    ∀ P : list (Host * Q) * ConstraintManager.t → Prop,
      (aa_ok = false → P (targets, cm1)) →
      (aa_ok = true → pmap !! host_name h = None → P (targets, cm1)) →
      (∀ e, aa_ok = true → pmap !! host_name h = Some e →
            (¬ (∀ r tu su, primary = Some r → r ≠ "" →
                  pct_get e r = Some tu → pct_get spct r = Some su →
                  (tu < su - od_get_default r 15
                          (LoadEvaluator.get_thresholds (aggressiveness self)) / 3)%Q)
             ∨ ¬ (0 < target_score details e)%Q) →
            P (targets, cm1)) →
      (∀ e, aa_ok = true → pmap !! host_name h = Some e →
            (∀ r tu su, primary = Some r → r ≠ "" →
                  pct_get e r = Some tu → pct_get spct r = Some su →
                  (tu < su - od_get_default r 15
                          (LoadEvaluator.get_thresholds (aggressiveness self)) / 3)%Q) →
            (0 < target_score details e)%Q →
            P (targets ++ [(h, target_score details e)], cm1)) →
      P (if negb aa_ok then (targets, cm1)
         else match pmap !! host_name h with
              | None => (targets, cm1)
              | Some target_metrics_pct =>
                  if negb
                       match primary with
                       | Some r =>
                           if truthy primary then
                             match pct_get target_metrics_pct r, pct_get spct r with
                             | Some target_usage, Some source_usage =>
                                 Qlt_bool target_usage
                                   (source_usage
                                    - od_get_default r 15%Q
                                        (LoadEvaluator.get_thresholds (aggressiveness self)) / 3)%Q
                             | _, _ => true
                             end
                           else true
                       | None => true
                       end
                  then (targets, cm1)
                  else
                    if Qlt_bool 0 (target_score details target_metrics_pct)
                    then (targets ++ [(h, target_score details target_metrics_pct)], cm1)
                    else (targets, cm1)
              end)).
  { intros P H1 H2 H3 H4. destruct aa_ok; simpl; [|by apply H1].
    destruct (pmap !! host_name h) as [e|] eqn:Hp; [|by apply H2].
    assert (Hsig :
      match primary with
      | Some r =>
          if truthy primary then
            match pct_get e r, pct_get spct r with
            | Some target_usage, Some source_usage =>
                Qlt_bool target_usage
                  (source_usage
                   - od_get_default r 15%Q
                       (LoadEvaluator.get_thresholds (aggressiveness self)) / 3)%Q
            | _, _ => true
            end
          else true
      | None => true
      end = true
      ↔ ∀ r tu su, primary = Some r → r ≠ "" →
          pct_get e r = Some tu → pct_get spct r = Some su →
          (tu < su - od_get_default r 15
                  (LoadEvaluator.get_thresholds (aggressiveness self)) / 3)%Q).
    { destruct primary as [r|]; [|split; [by intros _ ? ? ? ?|done]].
      unfold truthy. destruct (String.eqb_spec r "") as [->|Hr]; simpl.
      { split; [|done]. intros _ r tu su [= <-]. done. }
      destruct (pct_get e r) as [tu|] eqn:Ht.
      2:{ split; [|done]. intros _ r' tu su [= <-] _. congruence. }
      destruct (pct_get spct r) as [su|] eqn:Hs.
      2:{ split; [|done]. intros _ r' tu' su [= <-] _ _. congruence. }
      rewrite Qlt_bool_true. split.
      - intros Hlt r' tu' su' [= <-] _ Ht' Hs'. congruence.
      - intros H. by apply (H r). }
    destruct (match primary with Some _ => _ | None => _ end) eqn:Esig; simpl.
    - destruct (Qlt_bool 0 (target_score details e)) eqn:Escore.
      + apply Qlt_bool_true in Escore. apply (H4 e); [done..| |done]. by apply Hsig.
      + apply Qlt_bool_false in Escore. apply (H3 e); [done..|]. right.
        intros Hlt. by apply (Qlt_not_le _ _ Hlt).
    - apply (H3 e); [done..|]. left. intros H. apply Hsig in H. congruence. }
  apply Hcases; clear Hcases.
  - intros ->. simpl. split; [by left|]. intros Hi. by specialize (Hign Hi).
  - intros -> Hp. simpl. split; [by left|]. intros Hi. specialize (Hign Hi).
    injection Hign as <-. split; [done|]. intros _ (_ & _ & e & He' & _). congruence.
  - intros e -> Hp Hno. simpl. split; [by left|]. intros Hi. specialize (Hign Hi).
    injection Hign as <-. split; [done|]. intros _ (_ & _ & e' & He' & Hs & Hsc).
    rewrite Hp in He'. injection He' as <-. by destruct Hno.
  - intros e -> Hp Hs Hsc. simpl. rewrite Hp. split.
    + right. split; [done|]. split; [done|]. split; [done|]. by exists e.
    + intros Hi. specialize (Hign Hi). injection Hign as <-. split; [done|].
      intros E. exfalso. apply (f_equal length) in E. rewrite length_app in E.
      simpl in E. lia.
Qed.

Lemma consider_fold_spec l : ∀ st,
  let st' := fold_left (consider_target self cs vm source spct primary details pmap planned)
               l st in
  (∃ new, st'.1 = st.1 ++ new
          ∧ Forall (λ p : Host * Q, p.1 ∈ l ∧ balancing_candidate p.1
                                    ∧ p.2 = candidate_score p.1) new
          ∧ (ignore_anti_affinity self = true →
             st'.2 = st.2
             ∧ ∀ h, h ∈ l → balancing_candidate h → (h, candidate_score h) ∈ new)).
Proof.
  induction l as [|h l IH]; intros st; simpl.
  - exists []. rewrite app_nil_r. split; [done|]. split; [constructor|].
    intros _. split; [done|]. by intros h ?%elem_of_nil.
  - destruct (consider_target_spec st h) as [Hstep Hign].
    destruct (IH (consider_target self cs vm source spct primary details pmap planned st h))
      as (new & Hnew & Hall & Hign').
    assert (Hall' : Forall (λ p : Host * Q, p.1 ∈ h :: l ∧ balancing_candidate p.1
                                            ∧ p.2 = candidate_score p.1) new).
    { eapply Forall_impl; [exact Hall|]. simpl. intros p (? & ? & ?).
      split; [by right|done]. }
    destruct Hstep as [Hsame|[Hadd Hcand]].
    + exists new. rewrite Hnew, Hsame. split; [done|]. split; [done|].
      intros Hi. destruct (Hign Hi) as [Hcm Hnot]. destruct (Hign' Hi) as [Hcm' Hin].
      split; [congruence|]. intros h' [->|Hh']%elem_of_cons Hc; [|by apply Hin].
      by destruct (Hnot Hsame).
    + exists ((h, candidate_score h) :: new). rewrite Hnew, Hadd, <- app_assoc.
      split; [done|]. split.
      * constructor; [|done]. simpl. split; [left|done].
      * intros Hi. destruct (Hign Hi) as [Hcm _]. destruct (Hign' Hi) as [Hcm' Hin].
        split; [congruence|]. intros h' [->|Hh']%elem_of_cons Hc; [left|].
        right. by apply Hin.
Qed.

Lemma sort_desc_head {A} (key : A → Q) (l : list A) x :
  head (sort_desc key l) = Some x → x ∈ l ∧ ∀ y, y ∈ l → (key y <= key x)%Q.
Proof.
  intros Hh. pose proof (sort_desc_sorted key l) as Hs.
  pose proof (sort_desc_perm key l) as Hp.
  destruct (sort_desc key l) as [|z s]; [done|]. injection Hh as ->.
  split; [rewrite <- Hp; left|]. intros y Hy. rewrite <- Hp in Hy.
  destruct Hs as [Hx _]. apply elem_of_cons in Hy as [->|Hy]; [apply Qle_refl|].
  rewrite Forall_forall in Hx. by apply Hx.
Qed.

Lemma find_better_sound cm all_hosts t :
  (_find_better_host_for_balancing self cs cm vm source spct primary all_hosts
     details pmap planned).1 = Some t →
  t ∈ all_hosts ∧ balancing_candidate t.
Proof.
  unfold _find_better_host_for_balancing.
  destruct (consider_fold_spec all_hosts ([], cm)) as (new & Hnew & Hall & _).
  destruct (fold_left _ all_hosts _) as [targets cm1]. simpl in *. subst targets.
  rewrite Forall_forall in Hall. intros Ht.
  destruct (head (sort_desc snd new)) as [[t' q]|] eqn:Hh; [|done].
  injection Ht as ->. apply sort_desc_head in Hh as [Hin _].
  destruct (Hall _ Hin) as (? & ? & _). done.
Qed.
End balancing_target.

(** X9.  The host [_find_better_host_for_balancing] returns is one of the
    hosts it was given, has another name than the source, passes the hard
    fit check, has an entry in the map of percentages with a positive
    score and, when a primary resource is given and known for both hosts,
    uses less of it than the source by more than a third of the
    threshold.  When anti-affinity is ignored, no host is returned only
    if no host meets these conditions, and the host returned has the
    highest score among those that do. *)
Theorem balancing_target_is_the_best_candidate self cs cm vm source spct primary
    all_hosts details pmap planned :
  let r := _find_better_host_for_balancing self cs cm vm source spct primary all_hosts
             details pmap planned in
  let candidate := balancing_candidate self cs vm source spct primary details pmap in
  let score := candidate_score details pmap in
  (∀ t, r.1 = Some t → t ∈ all_hosts ∧ candidate t)
  ∧ (ignore_anti_affinity self = true →
     r.2 = cm
     ∧ (r.1 = None ↔ ∀ h, h ∈ all_hosts → ¬ candidate h)
     ∧ ∀ t h, r.1 = Some t → h ∈ all_hosts → candidate h → (score h <= score t)%Q).
Proof.
  intros r candidate score. subst r candidate score.
  split; [intros t; apply find_better_sound|].
  unfold _find_better_host_for_balancing.
  destruct (consider_fold_spec self cs vm source spct primary details pmap planned
              all_hosts ([], cm)) as (new & Hnew & Hall & Hign).
  destruct (fold_left _ all_hosts _) as [targets cm1]. simpl in *. subst targets.
  rewrite Forall_forall in Hall.
  intros Hi. destruct (Hign Hi) as [-> Hin]. split; [done|]. split.
  - split.
    + intros Hnone h Hh Hc. specialize (Hin h Hh Hc).
      destruct (sort_desc snd new) as [|p s] eqn:Hs; [|done].
      rewrite <- (sort_desc_perm snd new), Hs in Hin. by apply elem_of_nil in Hin.
    + intros Hnot. destruct (head (sort_desc snd new)) as [[t' q]|] eqn:Hh; [|done].
      apply sort_desc_head in Hh as [Hin' _].
      destruct (Hall _ Hin') as (? & ? & _). by destruct (Hnot t').
  - intros t h Ht Hh Hc.
    destruct (head (sort_desc snd new)) as [[t' q]|] eqn:Hhd; [|done].
    injection Ht as ->. apply sort_desc_head in Hhd as [Hin' Hmax].
    destruct (Hall _ Hin') as (_ & _ & Hq). simpl in Hq. subst q.
    apply (Hmax (h, candidate_score details pmap h)). by apply Hin.
Qed.

(** ** The checks every planned move has passed *)

Section checked_moves.
Variables (self : MigrationManager.t) (cs : ClusterState.t).

(** The VM is no template and, unless the planner is in the mode that
    only looks at anti-affinity, the move passes the 95 % fit check. *)
Definition checked (v : VM) (t : Host) : Prop :=
  vm_config_template v = false
  ∧ (anti_affinity_only self = false → _would_fit_on_host_soft cs v t 95 95 = true).

Definition checked_plan (m : migration) : Prop := checked (plan_vm m) (plan_target_host m).

Lemma plan_violation_checked st vm_obj :
  Forall checked_plan st.1.1 → Forall checked_plan (plan_violation self cs st vm_obj).1.1.
Proof.
  destruct st as [[planned names] cm]. simpl. intros Hst. unfold plan_violation.
  case_bool_decide; [done|].
  destruct (vm_config_template vm_obj) eqn:Ht; [done|].
  destruct (get_preferred_host_for_vm cs cm vm_obj planned) as [[t|] cm']; [|done].
  destruct (anti_affinity_only self) eqn:Ha; simpl.
  - apply Forall_app. split; [done|]. repeat constructor; [done|].
    simpl. intros E. congruence.
  - destruct (_would_fit_on_host_soft cs vm_obj t 95 95) eqn:Hf; simpl; [|done].
    apply Forall_app. split; [done|]. by repeat constructor.
Qed.

Lemma aa_pass_checked so cm names :
  Forall checked_plan (_plan_anti_affinity_migrations so self cs cm names).1.1.
Proof.
  unfold _plan_anti_affinity_migrations.
  apply (fold_left_inv (λ st, Forall checked_plan st.1.1)); [constructor|].
  intros st v _. apply plan_violation_checked.
Qed.

Lemma balance_vm_checked details problematic pmap source spct reasons hint st v :
  vm_config_template v = false →
  Forall checked_plan st.1.1.1 →
  Forall checked_plan
    (balance_vm self cs details problematic pmap source spct reasons hint st v).1.1.1.
Proof.
  destruct st as [[[bm names] safety] cm]. simpl. intros Ht Hst. unfold balance_vm.
  destruct (filter _ details) as [|d0 active]; [done|].
  pose proof (find_better_sound self cs v source spct hint (d0 :: active)
                pmap safety cm (hosts cs)) as Hsound.
  destruct (_find_better_host_for_balancing _ _ _ _ _ _ _ _ _ _ _) as [[t|] cm']; [|done].
  simpl in *. destruct (Hsound t eq_refl) as (_ & _ & Hfit & _).
  apply Forall_app. split; [done|]. repeat constructor; [done|].
  simpl. intros _. by apply hard_fit_soft_95.
Qed.

Lemma balance_host_checked details problematic pmap st source :
  Forall checked_plan st.1.1.1 →
  Forall checked_plan (balance_host self cs details problematic pmap st source).1.1.1.
Proof.
  intros Hst. unfold balance_host.
  destruct (pmap !! host_name source) as [spct|]; [|done].
  destruct (fold_left _ problematic _) as [[reasons contributor] hint].
  destruct (negb contributor); [done|].
  apply (fold_left_inv (λ st : balancing_state, Forall checked_plan st.1.1.1)); [done|].
  intros st' v Hv. apply balance_vm_checked.
  by destruct (select_vms_eligible _ _ _ _ _ _ Hv) as (_ & _ & ?).
Qed.

Lemma balancing_checked cm le names pmap planned oc om od on bal names' cm' le' :
  _plan_balancing_migrations self cs cm le names pmap planned oc om od on
  = Ok (bal, names', cm', le') →
  Forall checked_plan bal.
Proof.
  intros Hr.
  destruct (plan_balancing_cases self cs cm le names pmap planned oc om od on)
    as (bal0 & n0 & cm0 & le0 & Hr0 & Hcases).
  rewrite Hr in Hr0. injection Hr0 as <- <- <- <-.
  destruct Hcases as [[= -> _ _]|(details & problematic & safety & Hfold)];
    [constructor|].
  pose proof (fold_left_inv (λ st : balancing_state, Forall checked_plan st.1.1.1)
    (balance_host self cs details problematic pmap) (hosts cs)
    ([], names, planned, cm)) as H.
  rewrite Hfold in H. apply H; [constructor|].
  intros st source _. apply balance_host_checked.
Qed.
End checked_moves.

(** X10.  [plan_migrations] never plans the move of a template and, unless the
    planner is in the mode that only looks at anti-affinity, every move
    it returns passes the fit check with the thresholds 95 %: the
    anti-affinity moves are tested with it and the balancing moves with
    the stricter 90 %. *)
Theorem planned_moves_pass_the_fit_check so self cs cm le aao :
  ∃ plan cm' le',
    plan_migrations so self cs cm le aao = Ok (plan, cm', le')
    ∧ ∀ v t, (v, t) ∈ plan →
        vm_config_template v = false
        ∧ (anti_affinity_only self = false →
           _would_fit_on_host_soft cs v t 95 95 = true).
Proof.
  destruct (plan_passes_cases so self cs cm le aao) as (bal & cm' & le' & Hr & Hbal).
  pose proof (aa_pass_checked self cs so cm ∅) as Haa.
  set (aa := (_plan_anti_affinity_migrations so self cs cm ∅).1.1) in *.
  assert (Hbal' : Forall (checked_plan self cs) bal).
  { destruct Hbal as [->|(cm1 & le1 & pmap & c & m & d & n & names' & Hb)];
      [constructor|]. by eapply balancing_checked. }
  unfold plan_migrations. rewrite Hr. simpl. do 3 eexists. split; [done|].
  intros v t (m & [= -> ->] & Hm)%list_elem_of_fmap.
  assert (Hin : m ∈ aa ++ bal).
  { eapply elem_of_submseteq; [done|]. apply enforce_limit_submseteq. }
  apply elem_of_app in Hin as [Hin|Hin].
  - rewrite Forall_forall in Haa. by apply Haa.
  - rewrite Forall_forall in Hbal'. by apply Hbal'.
Qed.

(** ** Iterations on an unchanged snapshot *)

Lemma preferred_host_keeps_cm cs cm vm planned :
  vm_distribution cm ≠ [] → (get_preferred_host_for_vm cs cm vm planned).2 = cm.
Proof.
  intros Hd. unfold get_preferred_host_for_vm.
  destruct (_ <? _)%nat; [done|]. cbv zeta.
  destruct (vm_distribution cm) as [|p l] eqn:E; [done|]. rewrite E.
  destruct (od_get _ _) as [[|v g]|]; try done.
  destruct (get_host_of_vm vm); [|done].
  destruct (_ <=? _)%nat; [done|].
  by destruct (_find_perfect_balance_host _ _ _).
Qed.

Lemma plan_violation_keeps_cm self cs st vm_obj :
  vm_distribution st.2 ≠ [] → (plan_violation self cs st vm_obj).2 = st.2.
Proof.
  destruct st as [[planned names] cm]. simpl. intros Hd. unfold plan_violation.
  case_bool_decide; [done|]. destruct (vm_config_template vm_obj); [done|].
  pose proof (preferred_host_keeps_cm cs cm vm_obj planned Hd) as Hcm.
  destruct (get_preferred_host_for_vm cs cm vm_obj planned) as [[t|] cm1];
    simpl in Hcm; subst cm1; [|done].
  destruct (anti_affinity_only self); [done|].
  by destruct (_would_fit_on_host_soft _ _ _ _ _).
Qed.

Lemma plan_violation_mode self self' cs st vm_obj :
  anti_affinity_only self' = anti_affinity_only self →
  plan_violation self' cs st vm_obj = plan_violation self cs st vm_obj.
Proof. intros H. unfold plan_violation. by rewrite H. Qed.

Lemma aa_fold_keeps_cm self cs l : ∀ st,
  vm_distribution st.2 ≠ [] → (fold_left (plan_violation self cs) l st).2 = st.2.
Proof.
  induction l as [|v l IH]; intros st Hd; simpl; [done|].
  pose proof (plan_violation_keeps_cm self cs st v Hd) as Hk.
  rewrite IH; [done|]. by rewrite Hk.
Qed.

Lemma aa_fold_mode self self' cs l :
  anti_affinity_only self' = anti_affinity_only self →
  ∀ st, fold_left (plan_violation self' cs) l st = fold_left (plan_violation self cs) l st.
Proof.
  intros H. induction l as [|v l IH]; intros st; simpl; [done|].
  by rewrite IH, (plan_violation_mode self self').
Qed.

Lemma enforce_limit_mode self self' ms :
  max_total_migrations self' = max_total_migrations self →
  enforce_limit self' ms = enforce_limit self ms.
Proof. intros H. unfold enforce_limit. by rewrite H. Qed.

Lemma aa_pass_unfold so self cs cm names :
  violations cm ≠ [] →
  _plan_anti_affinity_migrations so self cs cm names
  = fold_left (plan_violation self cs) (violations cm) ([], names, cm).
Proof.
  intros Hv. unfold _plan_anti_affinity_migrations.
  destruct (violations cm) as [|v0 vs] eqn:Ev; [done|].
  cbv beta iota zeta. by rewrite Ev.
Qed.

(** In the mode that plans anti-affinity moves only, with a constraint
    manager that has groups and violations, the plan depends neither on
    the aggressiveness nor on the load evaluator, and the constraint
    manager is left as it was. *)
Lemma aa_only_plan so self self' cs cm le le' :
  anti_affinity_only self' = anti_affinity_only self →
  max_total_migrations self' = max_total_migrations self →
  vm_distribution cm ≠ [] → violations cm ≠ [] →
  ∃ plan, plan_migrations so self cs cm le true = Ok (plan, cm, LoadEvaluator.set_cache le None)
          ∧ plan_migrations so self' cs cm le' true
            = Ok (plan, cm, LoadEvaluator.set_cache le' None).
Proof.
  intros Ha Hm Hd Hv. unfold plan_migrations, plan_passes.
  rewrite !aa_pass_unfold by done.
  rewrite (aa_fold_mode self self' cs (violations cm) Ha).
  pose proof (aa_fold_keeps_cm self cs (violations cm) ([], ∅, cm) Hd) as Hk.
  destruct (fold_left (plan_violation self cs) (violations cm) ([], ∅, cm))
    as [[aa names] cm1].
  simpl in Hk. subst cm1. simpl. rewrite (enforce_limit_mode self self') by done.
  by eexists.
Qed.

Lemma apply_has_groups so cs cm0 :
  (∀ l, so l ≡ₚ l) →
  violations (ConstraintManager.apply so cs cm0) ≠ [] →
  vm_distribution (ConstraintManager.apply so cs cm0) ≠ []
  ∧ calculate_anti_affinity_violations so cs (ConstraintManager.apply so cs cm0)
    = violations (ConstraintManager.apply so cs cm0).
Proof.
  intros Hso Hv. split; [|done]. intros Hd. apply Hv.
  unfold ConstraintManager.apply in *. simpl in *.
  unfold calculate_anti_affinity_violations. destruct (_ <=? _)%nat; [done|].
  simpl. rewrite Hd. simpl. unfold list_of_set. simpl.
  apply Permutation_nil. symmetry. apply Hso.
Qed.

Section repeated_plan.
Variables (so : list VM → list VM) (self : MigrationManager.t) (cs : ClusterState.t)
  (cm : ConstraintManager.t) (mult : Q) (plan : list (VM * Host)).
Hypothesis mult_nonzero : ¬ (mult == 0)%Q.
Hypothesis has_groups : vm_distribution cm ≠ [].
Hypothesis has_violations : violations cm ≠ [].
Hypothesis still_violated : calculate_anti_affinity_violations so cs cm ≠ [].
Hypothesis the_plan : ∀ le, ∃ cm' le',
  plan_migrations so self cs cm le true = Ok (plan, cm', le').
Hypothesis plan_nonempty : plan ≠ [].

Lemma iterate_repeats its : ∀ o,
  planner o = self → constraint_manager o = cm →
  ∃ o', iterate so cs true mult its o = Ok o'
        ∧ all_migrations o' = all_migrations o ++ concat (replicate (length its) plan)
        ∧ map fst (passes o') = map fst (passes o) ++ its.
Proof.
  induction its as [|i its IH]; intros o Hself Hcm; simpl.
  - unfold final_check.
    destruct (is_balanced_ok (load_evaluator o) None 3) as (b & le1 & ->). simpl.
    eexists. split; [done|]. simpl. by rewrite !app_nil_r.
  - destruct (is_balanced_ok (load_evaluator o) None 3) as (b & le1 & ->). simpl.
    rewrite Hcm, Hself.
    destruct (calculate_anti_affinity_violations so cs cm) as [|v0 vs] eqn:Ev; [done|].
    assert (∃ self0,
      (if 1 <? i
       then q ← truediv (inject_Z (aggressiveness self)) mult;
            mret (set_aggressiveness self (Z.max 1 (int q)))
       else mret self) = Ok self0
      ∧ anti_affinity_only self0 = anti_affinity_only self
      ∧ max_total_migrations self0 = max_total_migrations self
      ∧ set_aggressiveness self0 (aggressiveness self) = self)
      as (self0 & -> & Ha & Hm & Hrestore).
    { destruct (1 <? i).
      - rewrite truediv_nonzero by done. simpl. eexists. split; [done|].
        split; [done|]. split; [done|]. apply set_aggressiveness_restore.
      - exists self. split; [done|]. split; [done|]. split; [done|]. by destruct self. }
    simpl.
    destruct (aa_only_plan so self self0 cs cm le1 le1 Ha Hm has_groups has_violations)
      as (plan0 & Hp & ->).
    destruct (the_plan le1) as (cm' & le' & Hp'). rewrite Hp in Hp'.
    injection Hp' as -> _ _. simpl.
    destruct plan as [|p plan'] eqn:Eplan; [done|].
    destruct (IH {| all_migrations := all_migrations o ++ p :: plan';
                    passes := passes o ++ [(i, aggressiveness self0)];
                    planner := set_aggressiveness self0 (aggressiveness self);
                    constraint_manager := cm;
                    load_evaluator :=
                      LoadEvaluator.set_cache (LoadEvaluator.set_cache le1 None) None |})
      as (o' & Hr & Hall & Hpasses); [done..|].
    exists o'. split; [by destruct b|]. simpl in Hall, Hpasses. simpl.
    split; [by rewrite Hall, <- app_assoc | by rewrite Hpasses, map_app, <- app_assoc].
Qed.
End repeated_plan.

(** X11.  Iterative planning does not advance the snapshot between its passes.
    In the mode that plans anti-affinity moves only, started after
    [apply()] has found violations, when the first pass plans some moves
    every later pass plans the same moves again: after [n] iterations the
    accumulated plan is the plan of one pass, [n] times over. *)
Theorem aa_only_iterations_repeat_the_plan so self cs cm0 le n mult plan cm' le' :
  (∀ l, so l ≡ₚ l) → ¬ (mult == 0)%Q →
  violations (ConstraintManager.apply so cs cm0) ≠ [] →
  plan_migrations so self cs (ConstraintManager.apply so cs cm0) le true
  = Ok (plan, cm', le') →
  plan ≠ [] →
  ∃ o, plan_migrations_iterative so self cs (ConstraintManager.apply so cs cm0) le
         (Z.of_nat n) true mult = Ok o
       ∧ all_migrations o = concat (replicate n plan)
       ∧ map fst (passes o) = map Z.of_nat (seq 1 n).
Proof.
  intros Hso Hmult Hv Hplan Hne.
  destruct (apply_has_groups so cs cm0 Hso Hv) as [Hd Hcalc].
  set (cm := ConstraintManager.apply so cs cm0) in *.
  assert (H1 : calculate_anti_affinity_violations so cs cm ≠ []) by (by rewrite Hcalc).
  assert (H2 : ∀ le0, ∃ cm1 le1,
            plan_migrations so self cs cm le0 true = Ok (plan, cm1, le1)).
  { intros le0.
    destruct (aa_only_plan so self self cs cm le le0 eq_refl eq_refl Hd Hv)
      as (plan0 & Hp0 & Hp1).
    rewrite Hplan in Hp0. injection Hp0 as -> _ _. by do 2 eexists. }
  unfold plan_migrations_iterative. rewrite Nat2Z.id.
  destruct (iterate_repeats so self cs cm mult plan Hmult Hd Hv H1 H2 Hne
              (map Z.of_nat (seq 1 n))
              {| all_migrations := []; passes := []; planner := self;
                 constraint_manager := cm; load_evaluator := le |} eq_refl eq_refl)
    as (o & Hr & Hall & Hp).
  exists o. split; [exact Hr|]. simpl in Hall, Hp.
  rewrite length_map, length_seq in Hall. done.
Qed.

Lemma aa_only_iterations_repeat_the_plan_witness :
  ∃ o, plan_migrations_iterative (λ l, l) (init 5 None false true) S1.cs
         (ConstraintManager.apply (λ l, l) S1.cs
            {| vm_distribution := []; violations := [] |})
         S1.le 3 true (21 # 20) = Ok o
       ∧ map (λ p, (vm_name p.1, host_name p.2)) (all_migrations o)
         = [("app01", "H2"); ("app02", "H3"); ("app01", "H2"); ("app02", "H3");
            ("app01", "H2"); ("app02", "H3")].
Proof.
  assert (Hm : ¬ (21 # 20 == 0)%Q) by (intros H; discriminate H).
  edestruct (aa_only_iterations_repeat_the_plan (λ l, l) (init 5 None false true) S1.cs
               {| vm_distribution := []; violations := [] |} S1.le 3 (21 # 20))
    as (o & Hr & Hall & _).
  - intros l. reflexivity.
  - exact Hm.
  - vm_compute. discriminate.
  - vm_compute. reflexivity.
  - discriminate.
  - exists o. split; [exact Hr|]. rewrite Hall. vm_compute. reflexivity.
Defined.

Lemma is_balanced_state le metrics a :
  ∃ b, LoadEvaluator.is_balanced le metrics a
       = Ok (b, LoadEvaluator.set_cache le (Some (current_lists le))).
Proof.
  unfold LoadEvaluator.is_balanced, LoadEvaluator.evaluate_imbalance.
  rewrite get_resource_percentage_lists_ok. simpl.
  destruct (current_lists le) as [[[c m] d] n].
  edestruct evaluate_loop_ok as [r ->]. simpl. by eexists.
Qed.

(** X12.  With a number of iterations that is not positive no pass is run: the
    result has no move and no pass, and the planner, the constraint
    manager and the hosts of the load evaluator are as they were. *)
Theorem no_iteration_plans_nothing so self cs cm le max_iterations aao mult :
  max_iterations ≤ 0 →
  ∃ o, plan_migrations_iterative so self cs cm le max_iterations aao mult = Ok o
       ∧ all_migrations o = [] ∧ passes o = []
       ∧ planner o = self ∧ constraint_manager o = cm
       ∧ LoadEvaluator.hosts (load_evaluator o) = LoadEvaluator.hosts le.
Proof.
  intros Hle. unfold plan_migrations_iterative.
  replace (Z.to_nat max_iterations) with 0%nat by lia. simpl. unfold final_check. simpl.
  destruct (is_balanced_state le None 3) as [b ->]. simpl. eexists. by repeat split.
Qed.

Lemma no_iteration_plans_nothing_witness :
  ∃ o, plan_migrations_iterative (λ l, l) (init 3 None false false) S1.cs S1.cm S1.le
         0 false (21 # 20) = Ok o
       ∧ all_migrations o = [].
Proof.
  destruct (no_iteration_plans_nothing (λ l, l) (init 3 None false false) S1.cs S1.cm
              S1.le 0 false (21 # 20)) as (o & Hr & Hall & _); [lia|].
  exists o. split; [exact Hr | exact Hall].
Defined.

(** ** The anti-affinity pass and the recorded violations *)

Lemma preferred_host_keeps_violations cs cm vm planned :
  violations (get_preferred_host_for_vm cs cm vm planned).2 = violations cm.
Proof.
  unfold get_preferred_host_for_vm.
  destruct (_ <? _)%nat; [done|]. cbv zeta.
  set (cm1 := match vm_distribution cm with
              | [] => enforce_anti_affinity cs cm
              | _ => cm
              end).
  assert (Hv : violations cm1 = violations cm)
    by (unfold cm1; by destruct (vm_distribution cm)).
  destruct (vm_distribution cm1) as [|p l]; [done|].
  destruct (od_get _ _) as [[|v g]|]; try done.
  destruct (get_host_of_vm vm); [|done].
  destruct (_ <=? _)%nat; [done|].
  by destruct (_find_perfect_balance_host _ _ _).
Qed.

Lemma plan_violation_listed self cs st vm_obj :
  let st' := plan_violation self cs st vm_obj in
  violations st'.2 = violations st.2
  ∧ (st'.1.1 = st.1.1
     ∨ ∃ t, st'.1.1 = st.1.1 ++ [{| plan_vm := vm_obj; plan_target_host := t;
                                    plan_reason := Anti_Affinity |}]
            ∧ vm_name vm_obj ∉ st.1.2).
Proof.
  destruct st as [[planned names] cm]. simpl. unfold plan_violation.
  case_bool_decide as Hin; [by split; [|left]|].
  destruct (vm_config_template vm_obj); [by split; [|left]|].
  pose proof (preferred_host_keeps_violations cs cm vm_obj planned) as Hv.
  destruct (get_preferred_host_for_vm cs cm vm_obj planned) as [[t|] cm1];
    simpl in Hv; [|by split; [|left]].
  destruct (anti_affinity_only self); simpl.
  - split; [done|]. right. by exists t.
  - destruct (_would_fit_on_host_soft _ _ _ _ _); simpl; [|by split; [|left]].
    split; [done|]. right. by exists t.
Qed.

Lemma aa_fold_listed self cs l : ∀ st,
  let st' := fold_left (plan_violation self cs) l st in
  violations st'.2 = violations st.2
  ∧ ∃ new, st'.1.1 = st.1.1 ++ new
           ∧ map plan_vm new `sublist_of` l
           ∧ Forall (λ m, plan_reason m = Anti_Affinity
                          ∧ vm_name (plan_vm m) ∉ st.1.2) new.
Proof.
  induction l as [|v l IH]; intros st; simpl.
  - split; [done|]. exists []. rewrite app_nil_r. by repeat split.
  - destruct (plan_violation_listed self cs st v) as [Hv Hstep].
    destruct (IH (plan_violation self cs st v)) as (Hv' & new & Hnew & Hsub & Hall).
    split; [congruence|].
    assert (Hnames : st.1.2 ⊆ (plan_violation self cs st v).1.2).
    { destruct st as [[planned names] cm]. unfold plan_violation. simpl.
      case_bool_decide; [done|]. destruct (vm_config_template v); [done|].
      destruct (get_preferred_host_for_vm _ _ _ _) as [[t|] cm1]; [|done].
      destruct (anti_affinity_only self); simpl; [apply union_subseteq_r|].
      destruct (_would_fit_on_host_soft _ _ _ _ _); simpl; [apply union_subseteq_r|done]. }
    assert (Hall' : Forall (λ m, plan_reason m = Anti_Affinity
                                 ∧ vm_name (plan_vm m) ∉ st.1.2) new).
    { eapply Forall_impl; [exact Hall|]. simpl. intros m [? Hm]. split; [done|].
      intros Hin. apply Hm. by apply Hnames. }
    destruct Hstep as [Hsame|(t & Hadd & Hnot)].
    + exists new. rewrite Hnew, Hsame. split; [done|]. split; [|done].
      by apply sublist_cons.
    + eexists (_ :: new). rewrite Hnew, Hadd, <- app_assoc. split; [done|]. split.
      * simpl. by apply sublist_skip.
      * constructor; [by split|done].
Qed.

(** X13.  The anti-affinity pass works on the list of violations the
    constraint manager has recorded and computes the violations itself
    only when none is recorded.  It plans moves for VMs of that list
    only, in the order of the list, none for a name that is planned
    already, and leaves the list as it is. *)
Theorem anti_affinity_pass_moves_listed_violators so self cs cm names :
  let r := _plan_anti_affinity_migrations so self cs cm names in
  let listed := match violations cm with
                | [] => calculate_anti_affinity_violations so cs
                          (enforce_anti_affinity cs cm)
                | l => l
                end in
  violations r.2 = listed
  ∧ map plan_vm r.1.1 `sublist_of` listed
  ∧ ∀ m, m ∈ r.1.1 →
      plan_vm m ∈ listed ∧ plan_reason m = Anti_Affinity
      ∧ vm_name (plan_vm m) ∉ names.
Proof.
  unfold _plan_anti_affinity_migrations. cbv zeta.
  set (cm1 := match violations cm with
              | [] => _
              | _ => cm
              end).
  assert (Hl : violations cm1
               = match violations cm with
                 | [] => calculate_anti_affinity_violations so cs
                           (enforce_anti_affinity cs cm)
                 | l => l
                 end).
  { unfold cm1. by destruct (violations cm) eqn:E. }
  rewrite <- Hl.
  destruct (aa_fold_listed self cs (violations cm1) ([], names, cm1))
    as (Hv & new & Hnew & Hsub & Hall).
  simpl in Hv, Hnew, Hall. split; [done|]. rewrite Hnew. split; [done|].
  intros m Hm. rewrite Forall_forall in Hall. destruct (Hall m Hm) as [? ?].
  split; [|done]. eapply elem_of_sublist; [|exact Hsub].
  apply list_elem_of_fmap. by exists m.
Qed.

(** ** The hosts that give VMs away *)

Section overloaded_sources.
Variables (self : MigrationManager.t)
  (details : list (string * LoadEvaluator.imbalance_detail)).

(** The host with the percentages [spct] is overloaded for the resource
    [r]: the resource is imbalanced, and the host uses more of it than
    the average plus half the threshold, at least 95 % of the maximum,
    and more than nothing. *)
Definition overloaded_for (spct : pct_entry) (r : string) : Prop :=
  let usage := default 0%Q (pct_get spct r) in
  let threshold :=
    od_get_default r 15%Q (LoadEvaluator.get_thresholds (aggressiveness self)) in
  (∃ d, (r, d) ∈ details ∧ LoadEvaluator.is_imbalanced d = true)
  ∧ (match od_get r details with
     | Some d => LoadEvaluator.avg_usage d
     | None => 0
     end + threshold / 2 < usage)%Q
  ∧ (match od_get r details with
     | Some d => LoadEvaluator.max_usage d
     | None => usage + 1
     end * (95 # 100) <= usage)%Q
  ∧ (0 < usage)%Q.

Lemma source_reason_fold spct problematic : ∀ st,
  (∀ r, r ∈ problematic →
        ∃ d, (r, d) ∈ details ∧ LoadEvaluator.is_imbalanced d = true) →
  Forall (overloaded_for spct) st.1.1 →
  (st.1.2 = true → st.1.1 ≠ []) →
  let st' := fold_left (source_reason_step self details spct) problematic st in
  Forall (overloaded_for spct) st'.1.1 ∧ (st'.1.2 = true → st'.1.1 ≠ []).
Proof.
  induction problematic as [|r problematic IH]; intros st Hprob Hall Hc; simpl; [done|].
  apply IH.
  - intros r' Hr'. apply Hprob. by right.
  - destruct st as [[reasons contributor] hint]. unfold source_reason_step. simpl in *.
    destruct (Qlt_bool _ _ && Qle_bool _ _ && Qlt_bool 0 _) eqn:E; [|done].
    apply andb_true_iff in E as [E Hpos]. apply andb_true_iff in E as [Habove Hmost].
    apply Qlt_bool_true in Habove, Hpos. apply Qle_bool_iff in Hmost.
    simpl. apply Forall_app. split; [done|]. repeat constructor; try done.
    apply Hprob. left.
  - destruct st as [[reasons contributor] hint]. unfold source_reason_step. simpl in *.
    destruct (Qlt_bool _ _ && Qle_bool _ _ && Qlt_bool 0 _); [|done].
    simpl. intros _. by destruct reasons.
Qed.
End overloaded_sources.

(** A balancing move goes from an overloaded host. *)
Definition from_overloaded_host (self : MigrationManager.t) (cs : ClusterState.t)
    (details : list (string * LoadEvaluator.imbalance_detail))
    (pmap : gmap string pct_entry) (m : migration) : Prop :=
  ∃ source spct reasons,
    source ∈ hosts cs
    ∧ plan_vm m ∈ get_vms_on_host cs source
    ∧ pmap !! host_name source = Some spct
    ∧ plan_reason m = Resource_Balancing reasons
    ∧ reasons ≠ []
    ∧ Forall (overloaded_for self details spct) reasons.

Lemma balance_host_sources self cs details problematic pmap st source :
  source ∈ hosts cs →
  (∀ r, r ∈ problematic →
        ∃ d, (r, d) ∈ details ∧ LoadEvaluator.is_imbalanced d = true) →
  Forall (from_overloaded_host self cs details pmap) st.1.1.1 →
  Forall (from_overloaded_host self cs details pmap)
    (balance_host self cs details problematic pmap st source).1.1.1.
Proof.
  intros Hsrc Hprob Hst. unfold balance_host.
  destruct (pmap !! host_name source) as [spct|] eqn:Hp; [|done].
  pose proof (source_reason_fold self details spct problematic ([], false, None) Hprob
                ltac:(constructor) ltac:(done)) as [Hreasons Hne].
  destruct (fold_left _ problematic _) as [[reasons contributor] hint]. simpl in *.
  destruct contributor; [|done]. simpl.
  apply (fold_left_inv
    (λ st : balancing_state, Forall (from_overloaded_host self cs details pmap) st.1.1.1));
    [done|].
  intros [[[bm nm] sf] cm1] v Hv Hbm. unfold balance_vm.
  destruct (filter _ details); [done|].
  destruct (_find_better_host_for_balancing _ _ _ _ _ _ _ _ _ _ _) as [[t|] cm2];
    [|done].
  simpl in *. apply Forall_app. split; [done|]. repeat constructor.
  exists source, spct, reasons. simpl. split; [done|]. split.
  - by destruct (select_vms_eligible _ _ _ _ _ _ Hv) as (? & _).
  - split; [done|]. split; [done|]. split; [by apply Hne|done].
Qed.

(** X24.  The balancing pass takes VMs from overloaded hosts only.  Every move
    it plans takes a VM that runs on a host of the snapshot which has an
    entry in the map of percentages, and the reasons recorded with the
    move are not empty: each is a resource that the evaluation of the
    imbalance marks as imbalanced and of which the host uses more than
    the average plus half the threshold, at least 95 % of the maximum,
    and more than nothing. *)
Theorem balancing_moves_leave_overloaded_hosts self cs cm le names pmap planned
    oc om od on :
  ∃ details bal names' cm' le',
    LoadEvaluator.evaluate_imbalance le None (aggressiveness self) oc om od on
    = Ok (details, le')
    ∧ _plan_balancing_migrations self cs cm le names pmap planned oc om od on
      = Ok (bal, names', cm', le')
    ∧ Forall (from_overloaded_host self cs details pmap) bal.
Proof.
  unfold _plan_balancing_migrations.
  destruct (evaluate_imbalance_ok le None (aggressiveness self) oc om od on)
    as (details & le' & ->). simpl.
  destruct details as [|d0 details]; [by do 5 eexists|].
  set (ds := d0 :: details) in *.
  destruct (map fst (filter _ ds)) as [|p0 problematic] eqn:Hp;
    [by do 5 eexists|].
  rewrite <- Hp.
  pose proof (fold_left_inv
    (λ st : balancing_state, Forall (from_overloaded_host self cs ds pmap) st.1.1.1)
    (balance_host self cs ds (map fst (filter (λ kv, LoadEvaluator.is_imbalanced kv.2 = true) ds))
       pmap)
    (hosts cs) ([], names, planned, cm)) as H.
  destruct (fold_left _ (hosts cs) _) as [[[bal names'] safety] cm'].
  do 5 eexists. split; [done|]. split; [done|].
  apply H; [constructor|]. intros st source Hsrc Hst.
  apply balance_host_sources; [done| |done].
  intros r ([r' d] & -> & Hin)%list_elem_of_fmap.
  apply list_elem_of_filter in Hin as [Him Hin]. by exists d.
Qed.

(** ** The balance of the load *)

Lemma maxQ_spec c cs :
  maxQ c cs ∈ c :: cs ∧ ∀ x, x ∈ c :: cs → (x <= maxQ c cs)%Q.
Proof.
  unfold maxQ. revert c. induction cs as [|y cs IH]; intros c; simpl.
  - split; [left|]. intros x ->%list_elem_of_singleton. apply Qle_refl.
  - destruct (IH (if Qlt_bool c y then y else c)) as [Hin Hmax]. split.
    + apply elem_of_cons in Hin as [Hin|Hin]; [|by do 2 right].
      rewrite Hin. destruct (Qlt_bool c y); [right; left|left].
    + intros x Hx.
      assert (Hc : (c <= (if Qlt_bool c y then y else c))%Q
                   ∧ (y <= (if Qlt_bool c y then y else c))%Q).
      { destruct (Qlt_bool c y) eqn:E.
        - apply Qlt_bool_true in E. split; [by apply Qlt_le_weak|apply Qle_refl].
        - apply Qlt_bool_false in E. split; [apply Qle_refl|done]. }
      destruct Hc as [Hc Hy].
      apply elem_of_cons in Hx as [->|Hx].
      * eapply Qle_trans; [exact Hc|]. apply Hmax. left.
      * apply elem_of_cons in Hx as [->|Hx].
        -- eapply Qle_trans; [exact Hy|]. apply Hmax. left.
        -- apply Hmax. by right.
Qed.

Lemma minQ_spec c cs :
  minQ c cs ∈ c :: cs ∧ ∀ x, x ∈ c :: cs → (minQ c cs <= x)%Q.
Proof.
  unfold minQ. revert c. induction cs as [|y cs IH]; intros c; simpl.
  - split; [left|]. intros x ->%list_elem_of_singleton. apply Qle_refl.
  - destruct (IH (if Qlt_bool y c then y else c)) as [Hin Hmin]. split.
    + apply elem_of_cons in Hin as [Hin|Hin]; [|by do 2 right].
      rewrite Hin. destruct (Qlt_bool y c); [right; left|left].
    + intros x Hx.
      assert (Hc : ((if Qlt_bool y c then y else c) <= c)%Q
                   ∧ ((if Qlt_bool y c then y else c) <= y)%Q).
      { destruct (Qlt_bool y c) eqn:E.
        - apply Qlt_bool_true in E. split; [by apply Qlt_le_weak|apply Qle_refl].
        - apply Qlt_bool_false in E. split; [apply Qle_refl|done]. }
      destruct Hc as [Hc Hy].
      apply elem_of_cons in Hx as [->|Hx].
      * eapply Qle_trans; [|exact Hc]. apply Hmin. left.
      * apply elem_of_cons in Hx as [->|Hx].
        -- eapply Qle_trans; [|exact Hy]. apply Hmin. left.
        -- apply Hmin. by right.
Qed.

(** Two of the percentages differ by more than [t]. *)
Definition spread_above (t : Q) (ps : list Q) : Prop :=
  ∃ x y, x ∈ ps ∧ y ∈ ps ∧ (t < x - y)%Q.

Lemma evaluate_resource_spec amd thr res t :
  od_get res thr = Some t → (0 <= t)%Q →
  ∃ d, LoadEvaluator.evaluate_resource amd thr res = Ok d
       ∧ LoadEvaluator.threshold d = t
       ∧ (LoadEvaluator.is_imbalanced d = true
          ↔ spread_above t (od_get_default res [] amd)).
Proof.
  intros Ht Hpos. unfold LoadEvaluator.evaluate_resource. rewrite Ht.
  destruct (od_get_default res [] amd) as [|p [|p' ps]] eqn:E.
  - eexists. split; [done|]. split; [done|]. simpl. split; [done|].
    by intros (x & y & ?%elem_of_nil & _).
  - eexists. split; [done|]. split; [done|]. simpl. split; [done|].
    intros (x & y & ->%list_elem_of_singleton & ->%list_elem_of_singleton & Hlt).
    exfalso. apply (Qlt_not_le _ _ Hlt). eapply Qle_trans; [|exact Hpos].
    unfold Qminus. rewrite Qplus_opp_r. apply Qle_refl.
  - rewrite truediv_nonzero.
    2:{ intros H. simpl in H. unfold Qeq in H. simpl in H. lia. }
    simpl. eexists. split; [done|]. split; [done|]. simpl.
    rewrite Qlt_bool_true.
    destruct (maxQ_spec p (p' :: ps)) as [Hmaxin Hmax].
    destruct (minQ_spec p (p' :: ps)) as [Hminin Hmin].
    split.
    + intros Hlt. by exists (maxQ p (p' :: ps)), (minQ p (p' :: ps)).
    + intros (x & y & Hx & Hy & Hlt). eapply Qlt_le_trans; [exact Hlt|].
      unfold Qminus. apply Qplus_le_compat; [by apply Hmax|].
      apply Qopp_le_compat. by apply Hmin.
Qed.

Lemma threshold_value_positive a : (0 <= LoadEvaluator.threshold_value a)%Q.
Proof.
  unfold LoadEvaluator.threshold_value.
  repeat (destruct (_ =? _); [by vm_compute|]). by vm_compute.
Qed.

(** The four lists of percentages, in the order of the resources. *)
Definition resource_lists (l : LoadEvaluator.percentage_lists) : list (list Q) :=
  [l.1.1.1; l.1.1.2; l.1.2; l.2].

Lemma is_balanced_spec le a :
  ∃ b, LoadEvaluator.is_balanced le None a
       = Ok (b, LoadEvaluator.set_cache le (Some (current_lists le)))
       ∧ (b = true
          ↔ ∀ ps, ps ∈ resource_lists (current_lists le) →
                  ¬ spread_above (LoadEvaluator.threshold_value a) ps).
Proof.
  unfold LoadEvaluator.is_balanced, LoadEvaluator.evaluate_imbalance.
  rewrite get_resource_percentage_lists_ok. simpl.
  destruct (current_lists le) as [[[c m] d] n]. simpl.
  set (amd := [("cpu", c); ("memory", m); ("disk", d); ("network", n)]).
  set (thr := LoadEvaluator.get_thresholds a).
  pose proof (threshold_value_positive a) as Hpos.
  destruct (evaluate_resource_spec amd thr "cpu" _ eq_refl Hpos) as (d1 & -> & _ & H1).
  simpl.
  destruct (evaluate_resource_spec amd thr "memory" _ eq_refl Hpos) as (d2 & -> & _ & H2).
  simpl.
  destruct (evaluate_resource_spec amd thr "disk" _ eq_refl Hpos) as (d3 & -> & _ & H3).
  simpl.
  destruct (evaluate_resource_spec amd thr "network" _ eq_refl Hpos) as (d4 & -> & _ & H4).
  simpl. eexists. split; [done|].
  change (od_get_default "cpu" [] amd) with c in H1.
  change (od_get_default "memory" [] amd) with m in H2.
  change (od_get_default "disk" [] amd) with d in H3.
  change (od_get_default "network" [] amd) with n in H4.
  rewrite !andb_true_iff, !negb_true_iff. unfold resource_lists. simpl. split.
  - intros (E1 & E2 & E3 & E4 & _) ps Hps Hsp.
    repeat (apply elem_of_cons in Hps as [->|Hps]);
      [apply H1 in Hsp|apply H2 in Hsp|apply H3 in Hsp|apply H4 in Hsp|
       by apply elem_of_nil in Hps]; congruence.
  - intros H. repeat split; apply not_true_is_false.
    + intros E. apply H1 in E. apply (H c); [left|done].
    + intros E. apply H2 in E. apply (H m); [right; left|done].
    + intros E. apply H3 in E. apply (H d); [do 2 right; left|done].
    + intros E. apply H4 in E. apply (H n); [do 3 right; left|done].
Qed.

(** X14.  [is_balanced] answers true exactly when, for none of the four
    resources, two hosts differ by more than the threshold of the
    aggressiveness in their percentage of use; fewer than two hosts are
    always balanced. *)
Theorem balanced_iff_no_spread_above_threshold le a :
  ∃ b le',
    LoadEvaluator.is_balanced le None a = Ok (b, le')
    ∧ (b = true
       ↔ ∀ ps x y, ps ∈ resource_lists (current_lists le) → x ∈ ps → y ∈ ps →
                   (x - y <= LoadEvaluator.threshold_value a)%Q)
    ∧ ((length (LoadEvaluator.hosts le) < 2)%nat →
       LoadEvaluator._cache_percentage_lists le = None → b = true).
Proof.
  destruct (is_balanced_spec le a) as (b & Hr & Hb).
  exists b. eexists. split; [exact Hr|].
  assert (Hiff : b = true
     ↔ ∀ ps x y, ps ∈ resource_lists (current_lists le) → x ∈ ps → y ∈ ps →
                 (x - y <= LoadEvaluator.threshold_value a)%Q).
  { rewrite Hb. split.
    - intros H ps x y Hps Hx Hy. apply Qnot_lt_le. intros Hlt.
      apply (H ps Hps). by exists x, y.
    - intros H ps Hps (x & y & Hx & Hy & Hlt).
      apply (Qlt_not_le _ _ Hlt). by apply (H ps). }
  split; [exact Hiff|].
  intros Hlen Hc. apply Hiff. intros ps x y Hps Hx Hy.
  assert (Hshort : (length ps < 2)%nat).
  { unfold current_lists in Hps. rewrite Hc in Hps. unfold resource_lists in Hps.
    simpl in Hps.
    repeat (apply elem_of_cons in Hps as [->|Hps]); rewrite ?length_map; try done.
    by apply elem_of_nil in Hps. }
  destruct ps as [|p [|p' ps]]; [by apply elem_of_nil in Hx| |simpl in Hshort; lia].
  apply list_elem_of_singleton in Hx, Hy. subst.
  eapply Qle_trans; [|apply threshold_value_positive].
  unfold Qminus. rewrite Qplus_opp_r. apply Qle_refl.
Qed.

(** X15.  A cluster that is balanced for some aggressiveness between 1 and 5
    is balanced for every lower one. *)
Theorem lower_aggressiveness_tolerates_more le a a' le1 :
  1 ≤ a' ≤ a → a ≤ 5 →
  LoadEvaluator.is_balanced le None a = Ok (true, le1) →
  LoadEvaluator.is_balanced le None a' = Ok (true, le1).
Proof.
  intros Ha Ha5 Hr.
  destruct (is_balanced_spec le a) as (b & Hr1 & Hb).
  destruct (is_balanced_spec le a') as (b' & Hr2 & Hb').
  rewrite Hr in Hr1. injection Hr1 as <- ->. rewrite Hr2. do 2 f_equal.
  apply Hb'. intros ps Hps (x & y & Hx & Hy & Hlt).
  destruct Hb as [Hb _]. apply (Hb eq_refl ps Hps). exists x, y.
  split; [done|]. split; [done|]. eapply Qle_lt_trans; [|exact Hlt].
  assert (Hcases : a' = 1 ∨ a' = 2 ∨ a' = 3 ∨ a' = 4 ∨ a' = 5) by lia.
  assert (Hcases' : a = 1 ∨ a = 2 ∨ a = 3 ∨ a = 4 ∨ a = 5) by lia.
  destruct Hcases as [->|[->|[->|[->| ->]]]];
    destruct Hcases' as [->|[->|[->|[->| ->]]]]; try lia; by vm_compute.
Qed.

Lemma lower_aggressiveness_tolerates_more_witness :
  ∃ le1, LoadEvaluator.is_balanced S3.le_even None 2 = Ok (true, le1).
Proof.
  eexists.
  apply (lower_aggressiveness_tolerates_more S3.le_even 4 2); [lia | lia |].
  vm_compute. reflexivity.
Defined.

(** ** Evenly spread groups need no move *)

Lemma enforce_limit_nil self : enforce_limit self [] = [].
Proof.
  pose proof (enforce_limit_submseteq self []) as H.
  by apply submseteq_nil_r in H.
Qed.

Lemma group_count_filter_le (P : VM → Prop) `{∀ v, Decision (P v)} l n :
  group_count (filter P l) n ≤ group_count l n.
Proof.
  induction l as [|v l IH]; [done|].
  rewrite filter_cons. case_decide; rewrite !group_count_cons; case_decide; lia.
Qed.

Lemma balancing_nothing_when_balanced self cs cm le names pmap planned le1 :
  LoadEvaluator.is_balanced le None (aggressiveness self) = Ok (true, le1) →
  _plan_balancing_migrations self cs cm le names pmap planned None None None None
  = Ok ([], names, cm, le1).
Proof.
  unfold LoadEvaluator.is_balanced, _plan_balancing_migrations.
  destruct (evaluate_imbalance_ok le None (aggressiveness self) None None None None)
    as (r & le' & ->).
  simpl. intros [= Hb <-]. destruct r as [|d0 r]; [done|].
  assert (Hnone : filter (λ kv : string * LoadEvaluator.imbalance_detail,
                            LoadEvaluator.is_imbalanced kv.2 = true) (d0 :: r) = []).
  { apply filter_none. apply Forall_forall. intros kv Hkv.
    rewrite forallb_forall in Hb. specialize (Hb kv).
    rewrite negb_true_iff in Hb. rewrite Hb; [done|]. by apply list_elem_of_In. }
  by rewrite Hnone.
Qed.

(** X16.  A cluster that needs nothing gets an empty plan.  When the VMs of
    every key are spread over the hosts with counts that differ by one at
    most, a planner started without recorded violations plans no
    anti-affinity move; when, besides, the load evaluator finds the hosts
    balanced for the aggressiveness of the planner, no balancing move is
    planned either. *)
Theorem settled_cluster_gets_an_empty_plan so self cs cm le aao :
  (∀ l, so l ≡ₚ l) → violations cm = [] →
  (∀ k n1 n2, n1 ∈ map host_name (hosts cs) → n2 ∈ map host_name (hosts cs) →
     group_count (filter (in_group k) (vms cs)) n1
     ≤ group_count (filter (in_group k) (vms cs)) n2 + 1) →
  (aao = false →
   ∃ le1, LoadEvaluator.is_balanced (LoadEvaluator.set_cache le None) None
            (aggressiveness self) = Ok (true, le1)) →
  ∃ cm' le', plan_migrations so self cs cm le aao = Ok ([], cm', le')
             ∧ violations cm' = [].
Proof.
  intros Hso Hv Heven Hbal.
  assert (Hcalc : calculate_anti_affinity_violations so cs (enforce_anti_affinity cs cm) = []).
  { unfold calculate_anti_affinity_violations. destruct (_ <=? _)%nat; [done|].
    apply (list_of_set_nil so); [done|]. apply flat_map_nil. intros [k g] Hin.
    apply grouping_elem in Hin as [_ ->]. apply group_violations_nil. apply Heven. }
  unfold plan_migrations, plan_passes, _plan_anti_affinity_migrations.
  rewrite Hv. cbv beta iota zeta.
  change (violations {| vm_distribution := ?d; violations := ?v |}) with v.
  rewrite Hcalc. cbn [fold_left].
  destruct aao; cbn [negb].
  { simpl. rewrite enforce_limit_nil. simpl. by do 2 eexists. }
  destruct (Hbal eq_refl) as [le1 Hb].
  set (le0 := LoadEvaluator.set_cache le None) in *.
  unfold LoadEvaluator.get_all_host_resource_percentages_map.
  rewrite get_resource_percentage_lists_ok. cbn [mbind mret result_bind result_ret bind].
  set (le2 := LoadEvaluator.set_cache le0 (Some (current_lists le0))).
  assert (Hb2 : ∃ le3, LoadEvaluator.is_balanced le2 None (aggressiveness self)
                       = Ok (true, le3)).
  { destruct (is_balanced_spec le0 (aggressiveness self)) as (b & Hr & Hiff).
    rewrite Hb in Hr. injection Hr as <- _.
    destruct (is_balanced_spec le2 (aggressiveness self)) as (b2 & Hr2 & Hiff2).
    rewrite Hr2. eexists. do 2 f_equal. apply Hiff2.
    change (current_lists le2) with (current_lists le0). by apply Hiff. }
  destruct Hb2 as [le3 Hb2].
  erewrite balancing_nothing_when_balanced by exact Hb2.
  simpl. rewrite enforce_limit_nil. simpl. by do 2 eexists.
Qed.

Lemma settled_cluster_gets_an_empty_plan_witness :
  ∃ cm' le', plan_migrations (λ l, l) (init 3 None false true) Web.cs
               {| vm_distribution := []; violations := [] |}
               {| LoadEvaluator.hosts := []; LoadEvaluator._cache_percentage_lists := None |}
               false
             = Ok ([], cm', le').
Proof.
  destruct (settled_cluster_gets_an_empty_plan (λ l, l) (init 3 None false true)
              Web.cs {| vm_distribution := []; violations := [] |}
              {| LoadEvaluator.hosts := []; LoadEvaluator._cache_percentage_lists := None |}
              false)
    as (cm' & le' & Hr & _).
  - intros l. reflexivity.
  - reflexivity.
  - intros k n1 n2 H1 H2.
    assert (Hbound : ∀ n, 0 ≤ group_count (filter (in_group k) (vms Web.cs)) n ≤ 1).
    { intros n. split; [apply group_count_nonneg|].
      etransitivity; [apply group_count_filter_le|].
      unfold group_count, vms_on. simpl. rewrite !filter_cons, filter_nil.
      repeat case_decide; unfold on_host in *; simpl in *; simplify_eq; simpl; lia. }
    pose proof (Hbound n1). pose proof (Hbound n2). lia.
  - intros _. eexists. vm_compute. reflexivity.
  - exists cm', le'. exact Hr.
Defined.

(** ** The safety check of a balancing move *)

Section safety_check.
Variables (vm : VM) (target : Host) (planned : list migration).

(** The VM [x] of a group is counted on the host called [n] by the
    safety check of the move of [vm] to [target]: the name is not empty
    and is the one the check takes for the final place of [x], the
    target for a VM with the name of [vm], else the last planned target
    of a VM with the name of [x], else the host [x] runs on. *)
Definition lands_on (n : string) (x : VM) : Prop :=
  n ≠ ""
  ∧ final_host_name vm target (planned_vm_locations planned) x = Some n.

#[export] Instance lands_on_dec n x : Decision (lands_on n x).
Proof. unfold lands_on. apply _. Defined.

Definition final_count (group : list VM) (n : string) : Z :=
  Z.of_nat (length (filter (lands_on n) group)).

Lemma final_count_cons n x l :
  final_count (x :: l) n = (if decide (lands_on n x) then 1 else 0) + final_count l n.
Proof. unfold final_count. rewrite filter_cons. case_decide; simpl; lia. Qed.

Lemma safe_count_get group : ∀ counts n,
  od_get n (fold_left (safe_count_step vm target (planned_vm_locations planned))
              group counts)
  = (λ c, c + final_count group n) <$> od_get n counts.
Proof.
  induction group as [|x group IH]; intros counts n; simpl.
  - destruct (od_get n counts); simpl; [f_equal; unfold final_count; simpl; lia|done].
  - rewrite IH, final_count_cons. unfold safe_count_step.
    destruct (decide (lands_on n x)) as [[Hne Hl]|Hno].
    + rewrite Hl. apply String.eqb_neq in Hne. rewrite Hne.
      rewrite incr_get, decide_True by done.
      destruct (od_get n counts); simpl; [f_equal; lia|done].
    + destruct (final_host_name _ _ _ x) as [n'|] eqn:Hf.
      * destruct (String.eqb_spec n' "") as [->|Hne'].
        -- destruct (od_get n counts); simpl; [f_equal; lia|done].
        -- rewrite incr_get, decide_False.
           ++ destruct (od_get n counts); simpl; [f_equal; lia|done].
           ++ intros <-. by apply Hno.
      * destruct (od_get n counts); simpl; [f_equal; lia|done].
Qed.

Lemma safe_count_keys group : ∀ counts,
  map fst (fold_left (safe_count_step vm target (planned_vm_locations planned))
             group counts)
  = map fst counts.
Proof.
  induction group as [|x group IH]; intros counts; simpl; [done|].
  rewrite IH. unfold safe_count_step.
  destruct (final_host_name _ _ _ x); [|done]. destruct (String.eqb _ _); [done|].
  apply incr_keys.
Qed.
End safety_check.

Lemma get_host_by_name_is_Some cs n :
  is_Some (get_host_by_name cs n) ↔ n ∈ map host_name (hosts cs).
Proof.
  unfold get_host_by_name. induction (hosts cs) as [|h hs IH]; simpl.
  - split; [by intros [? ?]|by intros ?%elem_of_nil].
  - destruct (String.eqb_spec (host_name h) n) as [<-|Hne].
    + split; [left|by eexists].
    + rewrite IH. split; [by right|]. by intros [?|?]%elem_of_cons.
Qed.

Lemma active_counts cs (d : list (string * Z)) (f : string → Z) :
  (∀ n, n ∈ map fst d → n ∈ map host_name (hosts cs)) →
  NoDup (map fst d) →
  (∀ n, n ∈ map fst d → od_get n d = Some (f n)) →
  omap (λ '(host_name, count),
          match get_host_by_name cs host_name with
          | Some _ => Some count
          | None => None
          end) d
  = map f (map fst d).
Proof.
  induction d as [|[k c] d IH]; intros Hin Hnd Hget; simpl; [done|].
  apply NoDup_cons in Hnd as [Hk Hnd]. simpl in Hk.
  destruct (get_host_by_name_is_Some cs k) as [_ Hsome].
  destruct Hsome as [h ->]; [apply Hin; left|]. simpl.
  pose proof (Hget k ltac:(left)) as Hc. simpl in Hc. rewrite String.eqb_refl in Hc.
  injection Hc as ->. f_equal. apply IH; [|done|].
  - intros n Hn. apply Hin. by right.
  - intros n Hn.
    assert (Hn' : n ∈ map fst ((k, f k) :: d)) by (simpl; by right).
    apply Hget in Hn'. simpl in Hn'.
    destruct (String.eqb_spec n k) as [E|_]; [by subst|]. exact Hn'.
Qed.

(** X17.  The safety check of a balancing move looks up the group under the
    name of the VM without its last two characters, after computing the
    grouping if there is none.  It accepts the move when that group is
    empty or unknown, when the cluster has one host at most, and
    otherwise exactly when the numbers of VMs of the group that end up on
    any two hosts, the planned moves and this one taken into account,
    differ by one at most. *)
Theorem safety_check_accepts_even_outcomes cs cm vm target planned :
  let r := _is_anti_affinity_safe cs cm vm target planned in
  let cm1 := match vm_distribution cm with
             | [] => enforce_anti_affinity cs cm
             | _ => cm
             end in
  let group := od_get_default (drop_last2 (vm_name vm)) [] (vm_distribution cm1) in
  r.2 = cm1
  ∧ (r.1 = true
     ↔ group = [] ∨ (length (hosts cs) ≤ 1)%nat
       ∨ ∀ n1 n2, n1 ∈ map host_name (hosts cs) → n2 ∈ map host_name (hosts cs) →
           final_count vm target planned group n1
           ≤ final_count vm target planned group n2 + 1).
Proof.
  unfold _is_anti_affinity_safe, spread_check_for_prefix. cbv zeta.
  set (cm1 := match vm_distribution cm with
              | [] => enforce_anti_affinity cs cm
              | _ => cm
              end).
  set (group := od_get_default (drop_last2 (vm_name vm)) [] (vm_distribution cm1)).
  destruct group as [|g0 gs] eqn:Hgroup; [split; [done|]; split; [by left|done]|].
  rewrite <- Hgroup. destruct (Nat.leb_spec (length (hosts cs)) 1) as [Hle|Hgt].
  { split; [done|]. split; [by right; left|done]. }
  destruct (by_host_name_spec 0 (hosts cs)) as [Hnd0 Hget0].
  set (sim := fold_left _ group _).
  assert (Hkeys : map fst sim = map fst (by_host_name 0 (hosts cs)))
    by apply safe_count_keys.
  assert (Hmem : ∀ n, n ∈ map fst sim ↔ n ∈ map host_name (hosts cs)).
  { intros n. rewrite Hkeys, <- od_get_is_Some, Hget0.
    case_decide; split; first [done | by eexists | by intros [? ?]]. }
  assert (Hval : ∀ n, n ∈ map fst sim →
            od_get n sim = Some (final_count vm target planned group n)).
  { intros n Hn. unfold sim. rewrite safe_count_get, Hget0.
    rewrite decide_True by (by apply Hmem). simpl. by f_equal. }
  rewrite (active_counts cs sim (final_count vm target planned group)); try done.
  2:{ intros n. apply Hmem. }
  2:{ by rewrite Hkeys. }
  destruct (map (final_count vm target planned group) (map fst sim)) as [|c cs'] eqn:Hc.
  { split; [done|]. split; [|done]. intros _. do 2 right. intros n1 n2 Hn1 _.
    apply Hmem in Hn1. apply (f_equal length) in Hc. rewrite !length_map in Hc.
    simpl in Hc. apply list_elem_of_fmap in Hn1 as ([k v] & _ & Hin).
    destruct sim; [by apply elem_of_nil in Hin|done]. }
  simpl. split; [done|]. rewrite spread_check, <- Hc. unfold spread_at_most_one. split.
  - intros H. do 2 right. intros n1 n2 Hn1 Hn2.
    assert (final_count vm target planned group n1
            - final_count vm target planned group n2 ≤ 1); [|lia].
    apply H; apply list_elem_of_fmap; eexists; (split; [done|]); by apply Hmem.
  - intros [Hg|[Hl|H]]; [congruence|lia|].
    intros x y (n1 & -> & Hn1)%list_elem_of_fmap (n2 & -> & Hn2)%list_elem_of_fmap.
    apply Hmem in Hn1, Hn2. specialize (H n1 n2 Hn1 Hn2). lia.
Qed.

(** ** The map of the percentages of the hosts *)

(** The entry [get_all_host_resource_percentages_map] builds from the
    position [k] of the four lists. *)
Definition entry_at (lists : LoadEvaluator.percentage_lists) (k : nat) : pct_entry :=
  match lists.1.1.1 !! k, lists.1.1.2 !! k, lists.1.2 !! k, lists.2 !! k with
  | Some c, Some m, Some d, Some n =>
      {| pct_cpu := c; pct_memory := m; pct_disk := d; pct_network := n |}
  | _, _, _, _ =>
      {| pct_cpu := 0; pct_memory := 0; pct_disk := 0; pct_network := 0 |}
  end.

Lemma fill_map_step i hn names lists m :
  LoadEvaluator.fill_map i (hn :: names) lists m
  = LoadEvaluator.fill_map (S i) names lists (<[hn := entry_at lists i]> m).
Proof. by destruct lists as [[[c me] d] n]. Qed.

Lemma fill_map_other lists names : ∀ i m n,
  n ∉ names → LoadEvaluator.fill_map i names lists m !! n = m !! n.
Proof.
  induction names as [|hn names IH]; intros i m n Hn; [by destruct lists as [[[? ?] ?] ?]|].
  apply not_elem_of_cons in Hn as [Hne Hn].
  rewrite fill_map_step, IH by done. by rewrite lookup_insert_ne.
Qed.

Lemma fill_map_at lists names : ∀ i m (j : nat) n,
  names !! j = Some n → n ∉ drop (S j) names →
  LoadEvaluator.fill_map i names lists m !! n = Some (entry_at lists (i + j)).
Proof.
  induction names as [|hn names IH]; intros i m j n Hj Hlater; [done|].
  rewrite fill_map_step. destruct j as [|j]; simpl in *.
  - injection Hj as ->. rewrite Nat.add_0_r, fill_map_other by done.
    by rewrite lookup_insert_eq.
  - rewrite <- Nat.add_succ_comm. by apply IH.
Qed.

Lemma fill_map_dom lists names : ∀ i m n,
  is_Some (LoadEvaluator.fill_map i names lists m !! n) ↔ is_Some (m !! n) ∨ n ∈ names.
Proof.
  induction names as [|hn names IH]; intros i m n.
  - destruct lists as [[[? ?] ?] ?]. simpl. split; [by left|]. by intros [?|?%elem_of_nil].
  - rewrite fill_map_step, IH, lookup_insert_is_Some, elem_of_cons.
    destruct (decide (hn = n)) as [->|Hne]; [tauto|]. split.
    + intros [[?|[_ ?]]|?]; tauto.
    + intros [?|[?|?]]; [left; right; by split|congruence|by right].
Qed.

Lemma entry_at_percentages hs (i : nat) h :
  hs !! i = Some h →
  entry_at (percentages_of hs) i
  = {| pct_cpu := entry_percentage "cpu_usage" "cpu_capacity" h;
       pct_memory := entry_percentage "memory_usage" "memory_capacity" h;
       pct_disk := entry_percentage "disk_io_usage" "disk_io_capacity" h;
       pct_network := entry_percentage "network_io_usage" "network_capacity" h |}.
Proof.
  intros Hi. unfold entry_at, percentages_of. simpl.
  by rewrite !list_lookup_fmap, Hi.
Qed.

(** X18.  Without a cached answer, the map of percentages has an entry for
    every entry of the host list, under the name of the host or, for an
    entry without a name, under a placeholder made of its position, and
    for no other name; the entry of a name that no later host bears holds
    the four percentages of that host. *)
Theorem percentages_map_has_every_host le :
  LoadEvaluator._cache_percentage_lists le = None →
  ∃ m le',
    LoadEvaluator.get_all_host_resource_percentages_map le = Ok (m, le')
    ∧ (∀ n, is_Some (m !! n)
            ↔ ∃ (i : nat) h, LoadEvaluator.hosts le !! i = Some h
                             ∧ LoadEvaluator.map_host_name i h = n)
    ∧ (∀ (i : nat) h,
         LoadEvaluator.hosts le !! i = Some h →
         (∀ (j : nat) h', (i < j)%nat → LoadEvaluator.hosts le !! j = Some h' →
            LoadEvaluator.map_host_name j h' ≠ LoadEvaluator.map_host_name i h) →
         m !! LoadEvaluator.map_host_name i h
         = Some {| pct_cpu := entry_percentage "cpu_usage" "cpu_capacity" h;
                   pct_memory := entry_percentage "memory_usage" "memory_capacity" h;
                   pct_disk := entry_percentage "disk_io_usage" "disk_io_capacity" h;
                   pct_network :=
                     entry_percentage "network_io_usage" "network_capacity" h |}).
Proof.
  intros Hc. unfold LoadEvaluator.get_all_host_resource_percentages_map.
  rewrite get_resource_percentage_lists_ok. simpl. do 2 eexists. split; [done|].
  unfold current_lists. rewrite Hc.
  set (names := imap LoadEvaluator.map_host_name (LoadEvaluator.hosts le)).
  assert (Hnames : ∀ j : nat,
    names !! j = LoadEvaluator.map_host_name j <$> LoadEvaluator.hosts le !! j)
    by (intros j; apply list_lookup_imap).
  split.
  - intros n. rewrite fill_map_dom, lookup_empty. split.
    + intros [[? ?]|Hn]; [done|]. apply list_elem_of_lookup in Hn as [i Hi].
      rewrite Hnames in Hi. destruct (LoadEvaluator.hosts le !! i) as [h|] eqn:Hh; [|done].
      injection Hi as <-. by exists i, h.
    + intros (i & h & Hh & <-). right. apply list_elem_of_lookup. exists i.
      by rewrite Hnames, Hh.
  - intros i h Hh Hlater.
    rewrite (fill_map_at _ names 0 ∅ i); simpl.
    + by rewrite (entry_at_percentages _ i h).
    + by rewrite Hnames, Hh.
    + intros Hin. apply list_elem_of_lookup in Hin as [k Hk].
      rewrite lookup_drop, Hnames in Hk.
      destruct (LoadEvaluator.hosts le !! (S i + k)%nat) as [h'|] eqn:Hh'; [|done].
      injection Hk as Hk. apply (Hlater (S i + k)%nat h'); [lia|done..].
Qed.

Lemma percentages_map_has_every_host_witness :
  ∃ m le', LoadEvaluator.get_all_host_resource_percentages_map S1.le = Ok (m, le')
           ∧ is_Some (m !! "H2").
Proof.
  destruct (percentages_map_has_every_host S1.le eq_refl) as (m & le' & Hr & Hdom & _).
  exists m, le'. split; [exact Hr|]. apply Hdom.
  exists 1%nat, (host_info S1.cs S1.H2). split; reflexivity.
Defined.

(** * Properties of the metrics of the snapshot *)

(** ** Records after an update *)

Lemma fold_insert_lookup {A V} (key : A → string) (f : A → V) (l : list A) n :
  ∀ m : gmap string V,
    fold_left (λ m a, <[key a := f a]> m) l m !! n
    = match last (filter (λ a, key a = n) l) with
      | Some a => Some (f a)
      | None => m !! n
      end.
Proof.
  induction l as [|a l IH]; intros m; simpl; [done|].
  rewrite IH, filter_cons. destruct (decide (key a = n)) as [<-|Hne].
  - rewrite last_cons. destruct (last (filter _ l)); [done|].
    by rewrite lookup_insert_eq.
  - destruct (last (filter _ l)); [done|]. by rewrite lookup_insert_ne.
Qed.

Lemma last_filter_elem {A} (P : A → Prop) `{∀ a, Decision (P a)} (l : list A) a :
  last (filter P l) = Some a → a ∈ l ∧ P a.
Proof.
  intros Hl. assert (Hin : a ∈ filter P l).
  { apply last_Some in Hl as [l' ->]. apply elem_of_app. right. left. }
  by apply list_elem_of_filter in Hin as [? ?].
Qed.

Lemma fold_insert_some_lookup {A V} (key : A → string) (f : A → option V)
    (g : gmap string V → A → gmap string V) (l : list A) n :
  (∀ m a, g m a = match f a with Some v => <[key a := v]> m | None => m end) →
  ∀ m : gmap string V,
    fold_left g l m !! n
    = match last (filter (λ a, key a = n ∧ is_Some (f a)) l) with
      | Some a => f a
      | None => m !! n
      end.
Proof.
  intros Hg. induction l as [|a l IH]; intros m; simpl; [done|].
  rewrite IH, filter_cons, Hg.
  destruct (decide (key a = n ∧ is_Some (f a))) as [[<- [v Hv]]|Hno].
  - rewrite last_cons. destruct (last (filter _ l)); [done|].
    by rewrite Hv, lookup_insert_eq.
  - destruct (last (filter _ l)); [done|].
    destruct (f a) as [v|] eqn:Hv; [|done].
    rewrite lookup_insert_ne; [done|]. intros E. apply Hno. split; [done|by eexists].
Qed.

Lemma last_filter_nil {A} (P : A → Prop) `{∀ a, Decision (P a)} (l : list A) :
  last (filter P l) = None ↔ filter P l = [].
Proof. apply last_None. Qed.

#[export] Instance Qlt_decision (x y : Q) : Decision (x < y)%Q :=
  match Qlt_le_dec x y with
  | left H => left H
  | right H => right (Qle_not_lt _ _ H)
  end.

(** The quick statistics of the VM can be read. *)
Definition vm_reported (rm : Metrics.reports) (v : VM) : Prop :=
  is_Some (Metrics.vm_quickStats rm v).

(** The host has a number for its memory usage: the one of its quick
    statistics, or 0 for want of quick statistics. *)
Definition memory_reported (rm : Metrics.reports) (h : Host) : Prop :=
  ∀ quickStats, Metrics.host_quickStats rm h = Some quickStats →
                is_Some (Metrics.overallMemoryUsage quickStats).

Definition memory_capacity (rm : Metrics.reports) (h : Host) : Q :=
  dget (Metrics.get_host_metrics rm h) "memory_capacity" 0.

(** The host that [annotate_hosts_with_metrics] skips: no number for its
    memory usage, and a positive memory capacity to divide by. *)
Definition host_skipped (rm : Metrics.reports) (h : Host) : Prop :=
  ¬ memory_reported rm h ∧ (0 < memory_capacity rm h)%Q.

Lemma memory_reported_usage rm h :
  memory_reported rm h ↔ is_Some (Metrics.host_memory_usage rm h).
Proof.
  unfold memory_reported, Metrics.host_memory_usage.
  destruct (Metrics.host_quickStats rm h) as [qs|].
  - split; [intros H; by apply H | by intros H ? [= <-]].
  - split; [by eexists | done].
Qed.

#[export] Instance vm_reported_dec rm v : Decision (vm_reported rm v).
Proof. unfold vm_reported. apply _. Defined.

#[export] Instance memory_reported_dec rm h : Decision (memory_reported rm h).
Proof.
  destruct (decide (is_Some (Metrics.host_memory_usage rm h))) as [H|H];
    [left | right]; by rewrite memory_reported_usage.
Defined.

#[export] Instance host_skipped_dec rm h : Decision (host_skipped rm h).
Proof. unfold host_skipped. apply _. Defined.

Lemma host_record_cases rm cs h :
  match Metrics.host_record rm cs h with
  | Metrics.Skipped => host_skipped rm h
  | Metrics.MemoryUsageNone => ¬ memory_reported rm h ∧ ¬ host_skipped rm h
  | Metrics.Stored r => memory_reported rm h ∧ ¬ host_skipped rm h ∧ r ≠ ∅
  end.
Proof.
  pose proof (memory_reported_usage rm h) as Hrep.
  unfold Metrics.host_record, host_skipped. cbv zeta. fold (memory_capacity rm h).
  destruct (Metrics.host_memory_usage rm h) as [q|].
  - assert (memory_reported rm h) by (apply Hrep; by eexists).
    split; [done|]. split; [by intros [? _]|].
    intros E. apply (f_equal (λ m : gmap string Q, m !! "cpu_usage")) in E.
    rewrite list_to_map_cons, lookup_insert_eq in E. by rewrite lookup_empty in E.
  - assert (Hno : ¬ memory_reported rm h) by (rewrite Hrep; by intros [? ?]).
    destruct (Qlt_bool 0 (memory_capacity rm h)) eqn:E.
    + apply Qlt_bool_true in E. by split.
    + apply Qlt_bool_false in E. split; [done|]. intros [_ Hlt].
      by apply (Qlt_not_le _ _ Hlt).
Qed.

(** What [annotate_hosts_with_metrics] stores for a host, if anything. *)
Definition stored_entry (rm : Metrics.reports) (cs : ClusterState.t) (h : Host)
  : option (option (gmap string Q)) :=
  match Metrics.host_record rm cs h with
  | Metrics.Skipped => None
  | Metrics.MemoryUsageNone => Some None
  | Metrics.Stored r => Some (Some r)
  end.

Lemma stored_entry_is_Some rm cs h : is_Some (stored_entry rm cs h) ↔ ¬ host_skipped rm h.
Proof.
  pose proof (host_record_cases rm cs h) as H. unfold stored_entry.
  destruct (Metrics.host_record rm cs h).
  - split; [by intros [? ?] | done].
  - split; [by destruct H | by eexists].
  - split; [by destruct H as (_ & ? & _) | by eexists].
Qed.

Lemma annotated_hosts_lookup rm cs n :
  Metrics.annotate_hosts_with_metrics rm cs !! n
  = last (filter (λ h, host_name h = n ∧ ¬ host_skipped rm h) (hosts cs))
    ≫= stored_entry rm cs.
Proof.
  unfold Metrics.annotate_hosts_with_metrics.
  rewrite (fold_insert_some_lookup host_name (stored_entry rm cs)).
  2:{ intros m a. unfold stored_entry. by destruct (Metrics.host_record rm cs a). }
  rewrite (list_filter_iff (λ a, host_name a = n ∧ is_Some (stored_entry rm cs a))
             (λ h, host_name h = n ∧ ¬ host_skipped rm h)).
  2:{ intros h. by rewrite stored_entry_is_Some. }
  by destruct (last _).
Qed.



Lemma log_cluster_stats_raises (m : gmap string (option (gmap string Q))) :
  (Metrics.log_cluster_stats m = Raise TypeError ↔ ∃ n, m !! n = Some None)
  ∧ (Metrics.log_cluster_stats m = Ok tt ↔ ∀ n, m !! n ≠ Some None).
Proof.
  unfold Metrics.log_cluster_stats. case_bool_decide as H.
  - assert (Hall : ∀ n, m !! n ≠ Some None).
    { intros n Hn. by destruct (H n None Hn). }
    split; split; try done. intros [n Hn]. by destruct (Hall n).
  - assert (Hex : ∃ n, m !! n = Some None).
    { apply map_not_Forall in H; [|apply _].
      destruct H as (n & [r|] & Hn & Hr); [|by exists n].
      exfalso. apply Hr. by eexists. }
    split; split; try done. intros Hall. destruct Hex as [n Hn]. by destruct (Hall n).
Qed.

Lemma update_metrics_cases rm cs :
  let annotated := Metrics.annotate_hosts_with_metrics rm
                     (Metrics.annotate_vms_with_metrics rm cs) in
  ((∃ n, annotated !! n = Some None) ∧ Metrics.update_metrics rm cs = Raise TypeError)
  ∨ ((∀ n, annotated !! n ≠ Some None)
     ∧ Metrics.update_metrics rm cs
       = Ok {| vms := vms cs; hosts := hosts cs;
               vm_metrics := vm_metrics (Metrics.annotate_vms_with_metrics rm cs);
               host_metrics := omap id annotated |}).
Proof.
  intros annotated. unfold Metrics.update_metrics. cbv zeta. fold annotated.
  destruct (log_cluster_stats_raises annotated) as [Hr Ho].
  destruct (Metrics.log_cluster_stats annotated) as [[]|e] eqn:E.
  - right. split; [by apply Ho|done].
  - left. unfold Metrics.log_cluster_stats in E. case_bool_decide; [done|].
    injection E as <-. split; [by apply Hr|done].
Qed.


(** ** The fit checks and the memory of the hosts *)

(** The fit checks read four entries of the record of the host. *)
Lemma fit_check_congruence cs cs' vm h ct mt :
  vm_metrics cs !! vm_name vm = vm_metrics cs' !! vm_name vm →
  dict_empty (default ∅ (host_metrics cs !! host_name h))
  = dict_empty (default ∅ (host_metrics cs' !! host_name h)) →
  (∀ k, k ∈ ["cpu_capacity"; "memory_capacity"; "cpu_usage"; "memory_usage_abs"] →
        default ∅ (host_metrics cs !! host_name h) !! k
        = default ∅ (host_metrics cs' !! host_name h) !! k) →
  _would_fit_on_host_soft cs vm h ct mt = _would_fit_on_host_soft cs' vm h ct mt.
Proof.
  intros Hv He Hk. unfold _would_fit_on_host_soft, dget. cbv zeta.
  rewrite Hv, He.
  rewrite (Hk "cpu_capacity") by (repeat first [left | right]; fail).
  rewrite (Hk "memory_capacity") by (repeat first [left | right]; fail).
  rewrite (Hk "cpu_usage") by (repeat first [left | right]; fail).
  rewrite (Hk "memory_usage_abs") by (repeat first [left | right]; fail).
  reflexivity.
Qed.

(** The reports [rm], every host whose quick statistics give a number
    for its memory usage giving [mem] instead. *)
Definition reporting_host_memory (rm : Metrics.reports) (mem : Host → Q)
  : Metrics.reports :=
  {| Metrics.vm_quickStats := Metrics.vm_quickStats rm;
     Metrics.host_quickStats :=
       λ h, (λ quickStats,
               {| Metrics.overallMemoryUsage :=
                    (λ _, mem h) <$> Metrics.overallMemoryUsage quickStats |})
            <$> Metrics.host_quickStats rm h;
     Metrics.get_vm_metrics := Metrics.get_vm_metrics rm;
     Metrics.get_host_metrics := Metrics.get_host_metrics rm |}.

(** Two records that differ in the memory usage only. *)
Definition same_but_memory_usage (r1 r2 : gmap string Q) : Prop :=
  ∀ k, k ≠ "memory_usage" → k ≠ "memory_usage_pct" → r1 !! k = r2 !! k.

Lemma host_record_reporting rm mem mem' cs h :
  match Metrics.host_record (reporting_host_memory rm mem) cs h,
        Metrics.host_record (reporting_host_memory rm mem') cs h with
  | Metrics.Skipped, Metrics.Skipped => True
  | Metrics.MemoryUsageNone, Metrics.MemoryUsageNone => True
  | Metrics.Stored r1, Metrics.Stored r2 => same_but_memory_usage r1 r2
  | _, _ => False
  end.
Proof.
  unfold Metrics.host_record, Metrics.host_memory_usage. cbv zeta.
  cbn [reporting_host_memory Metrics.host_quickStats Metrics.get_host_metrics].
  destruct (Metrics.host_quickStats rm h) as [[[q|]]|];
    cbn [fmap option_fmap option_map Metrics.overallMemoryUsage].
  - intros k H1 H2. rewrite !list_to_map_cons, list_to_map_nil.
    repeat (rewrite !(lookup_insert _ _ k); repeat case_decide; try done; try congruence).
  - by destruct (Qlt_bool 0 _).
  - intros k H1 H2. reflexivity.
Qed.

Lemma host_skipped_reporting rm mem h :
  host_skipped (reporting_host_memory rm mem) h ↔ host_skipped rm h.
Proof.
  unfold host_skipped, memory_capacity. rewrite !memory_reported_usage.
  unfold Metrics.host_memory_usage.
  cbn [reporting_host_memory Metrics.host_quickStats Metrics.get_host_metrics].
  destruct (Metrics.host_quickStats rm h) as [[[q|]]|];
    cbn [fmap option_fmap option_map Metrics.overallMemoryUsage];
    reflexivity || (split; intros [Hno ?]; exfalso; apply Hno; by eexists).
Qed.

Lemma annotate_vms_reporting rm mem cs :
  Metrics.annotate_vms_with_metrics (reporting_host_memory rm mem) cs
  = Metrics.annotate_vms_with_metrics rm cs.
Proof. reflexivity. Qed.

(** The entries stored under a name for two memory reports. *)
Lemma annotated_hosts_reporting rm mem mem' cs n :
  match Metrics.annotate_hosts_with_metrics (reporting_host_memory rm mem) cs !! n,
        Metrics.annotate_hosts_with_metrics (reporting_host_memory rm mem') cs !! n with
  | None, None => True
  | Some None, Some None => True
  | Some (Some r1), Some (Some r2) =>
      same_but_memory_usage r1 r2 ∧ r1 ≠ ∅ ∧ r2 ≠ ∅
  | _, _ => False
  end.
Proof.
  rewrite !annotated_hosts_lookup.
  rewrite (list_filter_iff
             (λ h, host_name h = n ∧ ¬ host_skipped (reporting_host_memory rm mem) h)
             (λ h, host_name h = n ∧ ¬ host_skipped rm h))
    by (intros h; by rewrite host_skipped_reporting).
  rewrite (list_filter_iff
             (λ h, host_name h = n ∧ ¬ host_skipped (reporting_host_memory rm mem') h)
             (λ h, host_name h = n ∧ ¬ host_skipped rm h))
    by (intros h; by rewrite host_skipped_reporting).
  destruct (last _) as [h|] eqn:Hh; [|done]. cbn [mbind option_bind].
  apply last_filter_elem in Hh as [_ [_ Hns]].
  pose proof (host_record_reporting rm mem mem' cs h) as Hrec.
  pose proof (host_record_cases (reporting_host_memory rm mem) cs h) as H1.
  pose proof (host_record_cases (reporting_host_memory rm mem') cs h) as H2.
  unfold stored_entry.
  destruct (Metrics.host_record (reporting_host_memory rm mem) cs h),
    (Metrics.host_record (reporting_host_memory rm mem') cs h); try done.
  split; [done|]. split; [by destruct H1 as (_ & _ & ?) | by destruct H2 as (_ & _ & ?)].
Qed.

(** X20.  The fit checks read the memory in use on the target host from the
    entry [memory_usage_abs] of its record, and [update_metrics] stores
    the host's memory usage under [memory_usage]: whatever numbers the
    hosts give as their memory usage, [update_metrics] raises the same
    exception or returns snapshots on which every fit check gives the same
    answer. *)
Theorem fit_check_ignores_reported_host_memory rm mem mem' cs :
  match Metrics.update_metrics (reporting_host_memory rm mem) cs,
        Metrics.update_metrics (reporting_host_memory rm mem') cs with
  | Ok cs1, Ok cs2 =>
      ∀ vm h,
        (∀ ct mt, _would_fit_on_host_soft cs1 vm h ct mt
                  = _would_fit_on_host_soft cs2 vm h ct mt)
        ∧ _would_fit_on_host cs1 vm h = _would_fit_on_host cs2 vm h
  | Raise e1, Raise e2 => e1 = e2
  | _, _ => False
  end.
Proof.
  pose proof (update_metrics_cases (reporting_host_memory rm mem) cs) as H1.
  pose proof (update_metrics_cases (reporting_host_memory rm mem') cs) as H2.
  cbv zeta in H1, H2. rewrite !annotate_vms_reporting in H1, H2.
  set (cs0 := Metrics.annotate_vms_with_metrics rm cs) in *.
  pose proof (annotated_hosts_reporting rm mem mem' cs0) as Hsame.
  destruct H1 as [[[n1 Hn1] ->]|[Hall1 ->]], H2 as [[[n2 Hn2] ->]|[Hall2 ->]].
  - done.
  - specialize (Hsame n1). rewrite Hn1 in Hsame.
    destruct (Metrics.annotate_hosts_with_metrics (reporting_host_memory rm mem') cs0
              !! n1) as [[r|]|] eqn:E; try done. by apply (Hall2 n1).
  - specialize (Hsame n2). rewrite Hn2 in Hsame.
    destruct (Metrics.annotate_hosts_with_metrics (reporting_host_memory rm mem) cs0
              !! n2) as [[r|]|] eqn:E; try done. by apply (Hall1 n2).
  - intros vm h.
    assert (Hsoft : ∀ ct mt,
      _would_fit_on_host_soft
        {| vms := vms cs; hosts := hosts cs; vm_metrics := vm_metrics cs0;
           host_metrics :=
             omap id (Metrics.annotate_hosts_with_metrics
                        (reporting_host_memory rm mem) cs0) |} vm h ct mt
      = _would_fit_on_host_soft
          {| vms := vms cs; hosts := hosts cs; vm_metrics := vm_metrics cs0;
             host_metrics :=
               omap id (Metrics.annotate_hosts_with_metrics
                          (reporting_host_memory rm mem') cs0) |} vm h ct mt).
    { intros ct mt. specialize (Hsame (host_name h)).
      apply fit_check_congruence; cbn [vm_metrics host_metrics]; [done|..];
        rewrite !lookup_omap;
        destruct (Metrics.annotate_hosts_with_metrics (reporting_host_memory rm mem) cs0
                  !! host_name h) as [[r1|]|],
          (Metrics.annotate_hosts_with_metrics (reporting_host_memory rm mem') cs0
           !! host_name h) as [[r2|]|]; try done; cbn [mbind option_bind]; unfold id; cbn [from_option]; unfold id.
      - destruct Hsame as (_ & Hr1 & Hr2).
        rewrite <- dict_empty_true in Hr1, Hr2.
        apply not_true_is_false in Hr1, Hr2. by rewrite Hr1, Hr2.
      - intros k Hk. destruct Hsame as (Hs & _). apply Hs;
          intros ->; repeat (apply elem_of_cons in Hk as [Hk|Hk]; [discriminate|]);
          by apply elem_of_nil in Hk. }
    split; [exact Hsoft|]. rewrite !fit_soft_90. apply Hsoft.
Qed.

(** ** An update of the small cluster *)

Module Reported.

(** What is reported for the cluster [S1]: every VM uses 100 MHz and
    100 MB, the hosts [H1] and [H2] use 300 MB and 0 MB of memory, and
    the memory usage of [H3] is [mem3]; the memory capacity of [H3] is
    [cap3]. *)
Definition rm (mem3 : option Q) (cap3 : Q) : Metrics.reports :=
  {| Metrics.vm_quickStats :=
       λ _, Some {| Metrics.overallCpuUsage := Some 100%Q;
                    Metrics.guestMemoryUsage := Some 100%Q |};
     Metrics.host_quickStats :=
       λ h, Some {| Metrics.overallMemoryUsage :=
                      if String.eqb (host_name h) "H3" then mem3
                      else if String.eqb (host_name h) "H1" then Some 300%Q
                      else Some 0%Q |};
     Metrics.get_vm_metrics := λ _, ∅;
     Metrics.get_host_metrics :=
       λ h, list_to_map
              [("cpu_capacity", 1000%Q);
               ("memory_capacity",
                if String.eqb (host_name h) "H3" then cap3 else 1000%Q)] |}.

End Reported.

(** A host whose memory usage is unset is skipped: it gets no record, and
    no move to it passes a fit check. *)
Example host_without_memory_usage_is_skipped :
  ∃ cs', Metrics.update_metrics (Reported.rm None 1000) S1.cs = Ok cs'
         ∧ host_metrics cs' !! "H3" = None
         ∧ _would_fit_on_host cs' S1.app01 S1.H3 = false
         ∧ _would_fit_on_host cs' S1.app01 S1.H2 = true.
Proof. eexists. split; [vm_compute; reflexivity|]. by vm_compute. Qed.

(** With a memory capacity that is not positive the record of such a host
    is stored, and the totals of [log_cluster_stats] raise. *)
Example host_without_memory_usage_and_capacity_raises :
  Metrics.update_metrics (Reported.rm None 0) S1.cs = Raise TypeError.
Proof. vm_compute. reflexivity. Qed.


Lemma fit_check_ignores_reported_host_memory_witness :
  ∃ cs1 cs2,
    Metrics.update_metrics
      (reporting_host_memory (Reported.rm (Some 0%Q) 1000) (λ _, 0%Q)) S1.cs = Ok cs1
    ∧ Metrics.update_metrics
        (reporting_host_memory (Reported.rm (Some 0%Q) 1000) (λ _, 990%Q)) S1.cs = Ok cs2
    ∧ _would_fit_on_host cs1 S1.app01 S1.H3 = _would_fit_on_host cs2 S1.app01 S1.H3.
Proof.
  pose proof (fit_check_ignores_reported_host_memory (Reported.rm (Some 0%Q) 1000)
                (λ _, 0%Q) (λ _, 990%Q) S1.cs) as H.
  assert (∃ cs1, Metrics.update_metrics
                   (reporting_host_memory (Reported.rm (Some 0%Q) 1000) (λ _, 0%Q)) S1.cs
                 = Ok cs1) as [cs1 E1] by (eexists; vm_compute; reflexivity).
  assert (∃ cs2, Metrics.update_metrics
                   (reporting_host_memory (Reported.rm (Some 0%Q) 1000) (λ _, 990%Q)) S1.cs
                 = Ok cs2) as [cs2 E2] by (eexists; vm_compute; reflexivity).
  rewrite E1, E2 in H.
  exists cs1, cs2. split; [exact E1|]. split; [exact E2|]. apply H.
Defined.

(** ** The simulation of no move *)

(** The CPU and memory percentages the simulation gives a host name. *)
Definition simulated_cpu (loads : gmap string abs_load) (h : string) : Q :=
  match loads !! h with
  | None => 0%Q
  | Some l => pct_or 0 (cpu_usage_abs l) (cpu_cap_abs l)
  end.

Definition simulated_mem (loads : gmap string abs_load) (h : string) : Q :=
  match loads !! h with
  | None => 0%Q
  | Some l => pct_or 0 (mem_usage_abs l) (mem_cap_abs l)
  end.

Lemma simulated_entry_at loads d n names : ∀ i acc (j : nat) h,
  names !! j = Some h → h ∉ drop (S j) names →
  (simulated_percentages loads d n i names acc).2 !! h
  = Some {| pct_cpu := simulated_cpu loads h; pct_memory := simulated_mem loads h;
            pct_disk := default 0%Q (d !! (i + j)%nat);
            pct_network := default 0%Q (n !! (i + j)%nat) |}.
Proof.
  induction names as [|hn names IH]; intros i [[c m] s] j h Hj Hlater; [done|].
  destruct j as [|j]; simpl in *.
  - injection Hj as ->. rewrite Nat.add_0_r. unfold simulated_cpu, simulated_mem.
    destruct (loads !! h); rewrite simulated_other_names by done; simpl;
      by rewrite lookup_insert_eq.
  - rewrite <- Nat.add_succ_comm. destruct (loads !! hn); by apply IH.
Qed.

Lemma last_filter_NoDup {A} (key : A → string) (l : list A) a :
  NoDup (map key l) → a ∈ l → last (filter (λ x, key x = key a) l) = Some a.
Proof.
  induction l as [|x l IH]; intros Hnd Hin; [by apply elem_of_nil in Hin|].
  simpl in Hnd. apply NoDup_cons in Hnd as [Hx Hnd].
  assert (Hnone : ∀ y, key y ∉ map key l → filter (λ x, key x = key y) l = []).
  { intros y Hy. apply filter_none. apply Forall_forall. intros z Hz E.
    apply Hy. rewrite <- E. apply list_elem_of_fmap. by exists z. }
  rewrite filter_cons. apply elem_of_cons in Hin as [->|Hin].
  - rewrite decide_True by done. by rewrite Hnone.
  - destruct (decide (key x = key a)) as [E|E]; [|by apply IH].
    exfalso. apply Hx. rewrite E. apply list_elem_of_fmap. by exists a.
Qed.

Lemma host_info_entry cs h k :
  k ∈ ["cpu_usage"; "memory_usage"; "disk_io_usage"; "network_io_usage";
       "cpu_capacity"; "memory_capacity"; "disk_io_capacity"; "network_capacity"] →
  match host_info cs h with
  | HostDict _ d => dget d k 0
  | NotADict => 0%Q
  end = dget (default ∅ (host_metrics cs !! host_name h)) k 0.
Proof.
  intros Hk. unfold host_info. cbv zeta.
  repeat (apply elem_of_cons in Hk as [->|Hk]; [reflexivity|]).
  by apply elem_of_nil in Hk.
Qed.

(** X21.  For a load evaluator built from the snapshot, the names of the hosts
    being distinct and not empty: the simulation of no move gives every
    host whose record has its two capacities the four percentages the
    load evaluator computes for it.  (A capacity that is missing counts
    as 1 in the simulation and as 0 for the load evaluator.) *)
Theorem simulation_of_no_move_matches_the_evaluator cs le :
  evaluator_of cs le →
  Forall (λ h, host_name h ≠ "") (hosts cs) →
  NoDup (map host_name (hosts cs)) →
  ∃ c m d n smap le',
    _get_simulated_load_data_after_migrations cs le [] = Ok (c, m, d, n, smap, le')
    ∧ ∀ h rec, h ∈ hosts cs →
        host_metrics cs !! host_name h = Some rec →
        is_Some (rec !! "cpu_capacity") → is_Some (rec !! "memory_capacity") →
        smap !! host_name h
        = Some {| pct_cpu := entry_percentage "cpu_usage" "cpu_capacity" (host_info cs h);
                  pct_memory :=
                    entry_percentage "memory_usage" "memory_capacity" (host_info cs h);
                  pct_disk :=
                    entry_percentage "disk_io_usage" "disk_io_capacity" (host_info cs h);
                  pct_network :=
                    entry_percentage "network_io_usage" "network_capacity"
                      (host_info cs h) |}.
Proof.
  intros Hle Hnames Hnd.
  destruct (decide (hosts cs = [])) as [Hh|Hh].
  { rewrite simulated_empty by done. do 6 eexists. split; [done|].
    intros h rec Hin. rewrite Hh in Hin. by apply elem_of_nil in Hin. }
  rewrite simulated_ok by done. cbv zeta. do 6 eexists. split; [done|].
  intros h rec Hin Hrec [cc Hcc] [mc Hmc]. cbn [fst snd].
  assert (Hn : host_names_from_evaluator le (hosts cs) = map host_name (hosts cs)).
  { unfold host_names_from_evaluator. destruct Hle as [-> _].
    rewrite evaluator_names_of_cluster by done. by destruct (map _ _). }
  pose proof Hin as Hin'. apply list_elem_of_lookup in Hin' as [j Hj].
  rewrite (simulated_entry_at _ _ _ _ 0 ([], [], ∅) j).
  2:{ by rewrite Hn, list_lookup_fmap, Hj. }
  2:{ rewrite Hn. intros Hlater. apply list_elem_of_lookup in Hlater as [k Hk].
      rewrite lookup_drop in Hk.
      assert (Hjn : map host_name (hosts cs) !! j = Some (host_name h))
        by (by rewrite list_lookup_fmap, Hj).
      pose proof (NoDup_lookup _ _ _ _ Hnd Hjn Hk). lia. }
  rewrite (evaluator_of_lists cs le Hle). unfold percentages_of, get_cluster_state_hosts.
  cbn [fst snd]. change (0 + j)%nat with j.
  rewrite !list_lookup_fmap, Hj. cbn [fmap option_fmap option_map default].
  assert (Hload : simulated_loads cs [] !! host_name h = Some (initial_load cs h)).
  { unfold simulated_loads. cbn [fold_left].
    rewrite (fold_insert_lookup host_name (initial_load cs)).
    by rewrite last_filter_NoDup. }
  unfold simulated_cpu, simulated_mem. rewrite Hload.
  unfold initial_load. cbn [cpu_usage_abs mem_usage_abs cpu_cap_abs mem_cap_abs].
  unfold entry_percentage.
  pose proof (host_info_entry cs h) as Hinfo.
  destruct (host_info cs h) as [|nm dd] eqn:Hhi; [done|].
  rewrite !Hinfo by (repeat first [left | right]; fail).
  rewrite Hrec. cbn [default]. unfold id.
  assert (Hc1 : dget rec "cpu_capacity" 1 = dget rec "cpu_capacity" 0)
    by (unfold dget; by rewrite Hcc).
  assert (Hm1 : dget rec "memory_capacity" 1 = dget rec "memory_capacity" 0)
    by (unfold dget; by rewrite Hmc).
  by rewrite Hc1, Hm1.
Qed.

Lemma simulation_of_no_move_matches_the_evaluator_witness :
  ∃ c m d n smap le',
    _get_simulated_load_data_after_migrations S1.cs S1.le [] = Ok (c, m, d, n, smap, le')
    ∧ pct_cpu <$> smap !! "H1" = Some (300 / 1000 * 100)%Q.
Proof.
  assert (He : evaluator_of S1.cs S1.le) by (split; [reflexivity | left; reflexivity]).
  assert (Hn : Forall (λ h, host_name h ≠ "") (hosts S1.cs))
    by (repeat constructor; discriminate).
  assert (Hd : NoDup (map host_name (hosts S1.cs)))
    by (apply (bool_decide_unpack _); vm_compute; reflexivity).
  destruct (simulation_of_no_move_matches_the_evaluator S1.cs S1.le He Hn Hd)
    as (c & m & d & n & smap & le' & Hr & H).
  exists c, m, d, n, smap, le'. split; [exact Hr|].
  assert (Hin : S1.H1 ∈ hosts S1.cs) by (simpl; left).
  change "H1" with (host_name S1.H1).
  rewrite (H S1.H1 (S1.host 300 300 30 3) Hin eq_refl);
    [reflexivity | by eexists | by eexists].
Defined.

(** * Properties of the configuration *)

(** ** Merging a file into the defaults *)

Lemma merged_dicts defaults overrides :
  ConfigLoader.merged (Some (ConfigLoader.VDict defaults)) (ConfigLoader.VDict overrides)
  = ConfigLoader.VDict (ConfigLoader._deep_merge defaults overrides).
Proof.
  unfold ConfigLoader._deep_merge. simpl. f_equal. revert defaults.
  induction overrides as [|[k v] overrides IH]; intros defaults; [done|].
  simpl. apply IH.
Qed.

(** The value a key has after [overrides] has been merged into
    [defaults], as the code of [_deep_merge] reads: the merge of the two
    values when both are dictionaries, the value of [overrides] when it
    has one, the value of [defaults] otherwise. *)
Definition merged_value (old new : option ConfigLoader.value) : option ConfigLoader.value :=
  match new, old with
  | Some (ConfigLoader.VDict o), Some (ConfigLoader.VDict d) =>
      Some (ConfigLoader.VDict (ConfigLoader._deep_merge d o))
  | Some v, _ => Some v
  | None, _ => old
  end.

Lemma merged_value_Some old v :
  Some (ConfigLoader.merged old v) = merged_value old (Some v).
Proof.
  destruct v as [| | | | |o]; try done.
  destruct old as [[| | | | |d]|]; try done.
  by rewrite merged_dicts.
Qed.

Lemma deep_merge_get overrides : ∀ defaults k,
  NoDup (map fst overrides) →
  od_get k (ConfigLoader._deep_merge defaults overrides)
  = merged_value (od_get k defaults) (od_get k overrides).
Proof.
  unfold ConfigLoader._deep_merge.
  induction overrides as [|[k0 v0] overrides IH]; intros defaults k Hnd; simpl.
  - by destruct (od_get k defaults).
  - apply NoDup_cons in Hnd as [Hk0 Hnd]. rewrite IH by done.
    rewrite od_get_set. destruct (String.eqb_spec k k0) as [->|Hne].
    + rewrite decide_True by done.
      assert (Hnone : od_get k0 overrides = None).
      { apply eq_None_not_Some. by rewrite od_get_is_Some. }
      rewrite Hnone. change (merged_value ?o None) with o. apply merged_value_Some.
    + by rewrite decide_False by done.
Qed.

Lemma od_set_elem {V} (d : list (string * V)) k0 v k :
  k ∈ map fst (od_set k0 v d) ↔ k = k0 ∨ k ∈ map fst d.
Proof.
  rewrite <- !od_get_is_Some, od_get_set. destruct (decide (k0 = k)) as [->|Hne].
  - split; [by left|]. intros _. by eexists.
  - split; [by right|]. by intros [->|?].
Qed.

Lemma deep_merge_keys overrides : ∀ defaults,
  NoDup (map fst defaults) →
  NoDup (map fst (ConfigLoader._deep_merge defaults overrides))
  ∧ ∀ k, k ∈ map fst (ConfigLoader._deep_merge defaults overrides)
         ↔ k ∈ map fst defaults ∨ k ∈ map fst overrides.
Proof.
  unfold ConfigLoader._deep_merge.
  induction overrides as [|[k0 v0] overrides IH]; intros defaults Hnd; simpl.
  - split; [done|]. intros k. split; [by left|]. by intros [?|?%elem_of_nil].
  - destruct (IH (od_set k0 (ConfigLoader.merged (od_get k0 defaults) v0) defaults))
      as [Hnd' Hkeys]; [by apply od_set_NoDup|].
    split; [done|]. intros k. rewrite Hkeys, od_set_elem, elem_of_cons. tauto.
Qed.

(** X22.  Merging the dictionary of a file into the defaults keeps every key
    of both, with distinct keys; a key has the value of the file when the
    file gives one, except that two dictionaries under the same key are
    merged in turn, and keeps its default otherwise.  Merging an empty
    dictionary changes nothing. *)
Theorem deep_merge_overrides_key_by_key defaults overrides :
  NoDup (map fst defaults) → NoDup (map fst overrides) →
  let result := ConfigLoader._deep_merge defaults overrides in
  NoDup (map fst result)
  ∧ (∀ k, k ∈ map fst result ↔ k ∈ map fst defaults ∨ k ∈ map fst overrides)
  ∧ (∀ k, od_get k result = merged_value (od_get k defaults) (od_get k overrides))
  ∧ ConfigLoader._deep_merge defaults [] = defaults.
Proof.
  intros Hd Ho. destruct (deep_merge_keys overrides defaults Hd) as [Hnd Hkeys].
  split; [done|]. split; [done|]. split; [|done].
  intros k. by apply deep_merge_get.
Qed.

Lemma deep_merge_overrides_key_by_key_witness :
  od_get "storage"
    (ConfigLoader._deep_merge ConfigLoader.DEFAULTS
       [("storage", ConfigLoader.VDict [("extra", ConfigLoader.VNum 1)])])
  = Some (ConfigLoader.VDict [("disk_io_capacity_mbps", ConfigLoader.VNum 4000);
                              ("extra", ConfigLoader.VNum 1)]).
Proof.
  assert (Hd : NoDup (map fst ConfigLoader.DEFAULTS))
    by (apply (bool_decide_unpack _); vm_compute; reflexivity).
  assert (Ho : NoDup (map fst [("storage",
                                ConfigLoader.VDict [("extra", ConfigLoader.VNum 1)])]))
    by (apply (bool_decide_unpack _); vm_compute; reflexivity).
  destruct (deep_merge_overrides_key_by_key ConfigLoader.DEFAULTS _ Hd Ho)
    as (_ & _ & Hget & _).
  rewrite Hget. reflexivity.
Defined.

(** ** The getters *)

(** The value a document gives for [key] in [section], if it is a
    dictionary whose entry [section] is a dictionary with that key. *)
Definition file_value (f : ConfigLoader.file) (section key : string)
  : option ConfigLoader.value :=
  match f with
  | ConfigLoader.Parsed (ConfigLoader.VDict d) =>
      match od_get section d with
      | Some (ConfigLoader.VDict s) => od_get key s
      | _ => None
      end
  | _ => None
  end.

(** The dictionaries of a document have distinct keys, at the two levels
    the getters look at. *)
Definition distinct_keys (f : ConfigLoader.file) : Prop :=
  match f with
  | ConfigLoader.Parsed (ConfigLoader.VDict d) =>
      NoDup (map fst d)
      ∧ ∀ k s, od_get k d = Some (ConfigLoader.VDict s) → NoDup (map fst s)
  | _ => True
  end.

Definition is_dict (v : ConfigLoader.value) : bool :=
  match v with ConfigLoader.VDict _ => true | _ => false end.

Lemma getter_spec f section key ds dflt :
  od_get section ConfigLoader.DEFAULTS = Some (ConfigLoader.VDict ds) →
  NoDup (map fst ds) → od_get key ds = Some dflt → is_dict dflt = false →
  distinct_keys f →
  ConfigLoader.get (ConfigLoader._load_config f) [section; key] dflt
  = default dflt (file_value f section key).
Proof.
  intros Hsec Hnds Hkey Hscalar Hwf.
  assert (Hdef : ConfigLoader.get ConfigLoader.DEFAULTS [section; key] dflt = dflt).
  { unfold ConfigLoader.get. cbn [ConfigLoader.get_from]. by rewrite Hsec, Hkey. }
  destruct f as [| |v]; [done..|].
  unfold ConfigLoader._load_config.
  destruct (ConfigLoader.falsy v) eqn:Hf.
  { change (ConfigLoader._deep_merge ConfigLoader.DEFAULTS []) with ConfigLoader.DEFAULTS.
    rewrite Hdef. destruct v as [| | | | |d]; try done. by destruct d. }
  destruct v as [| | | | |d]; try done.
  destruct Hwf as [Hnd Hsub]. unfold ConfigLoader.get. cbn [ConfigLoader.get_from].
  rewrite deep_merge_get by done. rewrite Hsec. unfold file_value.
  destruct (od_get section d) as [[| | | | |s]|] eqn:Hs; simpl; try done.
  - rewrite deep_merge_get by (by eapply Hsub). rewrite Hkey.
    destruct (od_get key s) as [x|]; simpl; [|done].
    destruct x; try done. by destruct dflt.
  - by rewrite Hkey.
Qed.

(** X23.  Every getter returns the value the configuration file gives for its
    key when the file is a dictionary whose section is a dictionary that
    has the key, whatever that value is ([None] included), and the value
    of [DEFAULTS] in every other case: no file, a file that cannot be
    read, a document that is not a dictionary, a section that is missing
    or is not a dictionary, a key that is missing. *)
Theorem getters_fall_back_to_the_defaults (f : ConfigLoader.file) :
  distinct_keys f →
  let config := ConfigLoader._load_config f in
  let from_file section key dflt := default dflt (file_value f section key) in
  ConfigLoader.get_storage_disk_io_capacity config
  = from_file "storage" "disk_io_capacity_mbps" (ConfigLoader.VNum 4000)
  ∧ ConfigLoader.get_network_bandwidth config
    = from_file "network" "bandwidth_mbps" (ConfigLoader.VNum 1250)
  ∧ ConfigLoader.get_migration_timeout config
    = from_file "migration" "migration_timeout_seconds" (ConfigLoader.VNum 300)
  ∧ ConfigLoader.get_max_migrations config
    = from_file "migration" "default_max_migrations" (ConfigLoader.VNum 20)
  ∧ ConfigLoader.get_host_cpu_watermark config
    = from_file "migration" "host_cpu_high_watermark_percent" (ConfigLoader.VNum 90)
  ∧ ConfigLoader.get_host_memory_watermark config
    = from_file "migration" "host_memory_high_watermark_percent" (ConfigLoader.VNum 90)
  ∧ ConfigLoader.is_percentage_cache_enabled config
    = from_file "optimization" "enable_percentage_cache" (ConfigLoader.VBool true)
  ∧ ConfigLoader.is_prefix_cache_enabled config
    = from_file "optimization" "enable_prefix_cache" (ConfigLoader.VBool true).
Proof.
  intros Hwf config from_file. subst config from_file. cbv beta.
  repeat split;
    (eapply getter_spec;
     [reflexivity
     | apply (bool_decide_unpack _); vm_compute; reflexivity
     | reflexivity | reflexivity | exact Hwf]).
Qed.

Lemma getters_fall_back_to_the_defaults_witness :
  ConfigLoader.get_storage_disk_io_capacity
    (ConfigLoader._load_config
       (ConfigLoader.Parsed
          (ConfigLoader.VDict
             [("storage",
               ConfigLoader.VDict [("disk_io_capacity_mbps", ConfigLoader.VNone)]);
              ("network", ConfigLoader.VNum 10)])))
  = ConfigLoader.VNone
  ∧ ConfigLoader.get_network_bandwidth
      (ConfigLoader._load_config
         (ConfigLoader.Parsed
            (ConfigLoader.VDict
               [("storage",
                 ConfigLoader.VDict [("disk_io_capacity_mbps", ConfigLoader.VNone)]);
                ("network", ConfigLoader.VNum 10)])))
    = ConfigLoader.VNum 1250.
Proof.
  assert (Hwf : distinct_keys
    (ConfigLoader.Parsed
       (ConfigLoader.VDict
          [("storage",
            ConfigLoader.VDict [("disk_io_capacity_mbps", ConfigLoader.VNone)]);
           ("network", ConfigLoader.VNum 10)]))).
  { split; [apply (bool_decide_unpack _); vm_compute; reflexivity|].
    intros k s. simpl.
    destruct (String.eqb k "storage"); [intros [= <-]; repeat constructor; set_solver|].
    destruct (String.eqb k "network"); [discriminate|discriminate]. }
  destruct (getters_fall_back_to_the_defaults _ Hwf) as (H1 & H2 & _).
  split; [exact H1 | exact H2].
Defined.
